(** * The authentication bridge of chatgpt-api: [src/openai-auth.ts]

    A shallow embedding of the browser-automation helpers of
    [openai-auth.ts] and the properties the specification states about
    them.  The browser driver (Puppeteer) is the environment: every call
    the code awaits is answered by an oracle that sees the whole history
    of the run, so that a statement quantified over the environment
    covers every behaviour the driver can show. *)

From Stdlib Require Import Ascii String.
From stdpp Require Import gmap strings list.

Local Open Scope Z_scope.
Local Open Scope string_scope.
Local Open Scope list_scope.

(** ** Values of the driver *)

(** Object identities: two handles are the same object iff the numbers
    are equal. *)
Definition Browser := nat.
Definition Page := nat.
Definition Elem := nat.

(** [Protocol.Network.Cookie], the fields that identify a cookie. *)
Record Cookie := {
  name : string;
  value : string;
  domain : string;
  path : string
}.

(** A target of [browser.targets()]: its [type()] and the host name of
    its [url()] ([None] when [new URL] rejects the url). *)
Record Target := {
  target_type : string;
  target_hostname : option string
}.

(** The object handed to [puppeteer.launch]. *)
Record LaunchOptions := {
  headless : bool;
  args : list string;
  ignoreDefaultArgs : list string;
  ignoreHTTPSErrors : bool;
  executablePath : string
}.

(** Modelled from the spec: the class [ChatGPTError] of [./types] is not
    among the sources; the spec's [ServiceUnavailable] "maps to status
    503", and the code sets [statusCode] on the error object it throws.
    The other constructors are the errors raised elsewhere: [TimeoutError]
    of p-timeout, a plain [Error], and whatever the driver rejects with. *)
Inductive Err :=
| ChatGPTError (message : string) (statusCode : option Z)
| TimeoutError (message : string)
| Error (message : string)
| DriverError (message : string).

(** [err.toString()] *)
Definition err_toString (e : Err) : string :=
  match e with
  | ChatGPTError m _ => "ChatGPTError: " +:+ m
  | TimeoutError m => "TimeoutError: " +:+ m
  | Error m => "Error: " +:+ m
  | DriverError m => "Error: " +:+ m
  end.

(** ** The calls the code awaits, indexed by the type of their result

    One constructor per method of Puppeteer's [Browser], [Page],
    [Frame], [Keyboard] and [ElementHandle] that the file calls, with
    the arguments the file passes.  [XPath] is [page.$x], [Query] is
    [page.$], [TypeText] is [page.type], [ElemValue] is
    [handle.evaluate((el) => el.value)], [FetchIp] is the
    [page.evaluate] that fetches [https://ifconfig.co] followed by
    [res?.ip], [FindRecaptchas] and [SolveRecaptchas] yield the length of
    [captchas?.filtered] and of [res.captchas], and [MinimizePage] is
    [minimizePage] of [./utils], which is not among the sources and is
    taken as one more call of the driver.  Every call settles: it
    returns or it throws. *)

Inductive Op : Type -> Type :=
| Launch (opts : LaunchOptions) : Op Browser
| UserAgent (b : Browser) : Op string
| Pages (b : Browser) : Op (list Page)
| NewPage (b : Browser) : Op Page
| Targets (b : Browser) : Op (list Target)
| BrowserClose (b : Browser) : Op unit
| SetDefaultTimeout (p : Page) (ms : Z) : Op unit
| MinimizePage (p : Page) : Op unit
| Goto (p : Page) (url : string) (waitUntil : option string) : Op unit
| Reload (p : Page) (waitUntil : string) (timeout : Z) : Op unit
| XPath (p : Page) (expr : string) : Op (list Elem)
| Query (p : Page) (selector : string) : Op (option Elem)
| WaitForSelector (p : Page) (selector : string)
    (timeout : option Z) (visible : bool) : Op Elem
| WaitForNavigation (p : Page) (waitUntil : option string)
    (timeout : option Z) : Op unit
| Click (p : Page) (selector : string) : Op unit
| TypeText (p : Page) (selector text : string) (delay : option Z) : Op unit
| KeyboardPress (p : Page) (key : string) : Op unit
| FrameFocus (p : Page) (selector : string) : Op unit
| ElemClick (e : Elem) (delay : option Z) : Op unit
| ElemFocus (e : Elem) : Op unit
| ElemValue (e : Elem) : Op (option string)
| ElemPress (e : Elem) (key : string) : Op unit
| ElemType (e : Elem) (text : string) : Op unit
| Cookies (p : Page) : Op (list Cookie)
| PageClose (p : Page) : Op unit
| FindRecaptchas (p : Page) : Op nat
| SolveRecaptchas (p : Page) : Op nat
| FetchIp (p : Page) : Op (option string).


(** How an awaited call settles. *)
Inductive Outcome (R : Type) :=
| Returned (r : R)
| Thrown (e : Err).
Arguments Returned {R} r.
Arguments Thrown {R} e.

(** What a run leaves behind, newest event first. *)
Inductive Event :=
| Called (R : Type) (op : Op R) (out : Outcome R)
| Delayed (ms : Z)
| PluginUsed (token : string).

Definition History := list Event.

(** The events the loop of [waitForConditionOrAtCapacity] reacts to. *)
Inductive RaceEvent :=
| CondSettles
| TimerFires
| CheckSettles.

(** [process.env], [os.platform()], [fs.existsSync('/usr/bin/google-chrome')]
    and [path.join(__dirname, '..', 'third-party', 'nopecha-chrome-extension')]. *)
Record Process := {
  CAPTCHA_TOKEN : option string;
  NOPECHA_KEY : option string;
  PROXY_SERVER : option string;
  PROXY_VALIDATE_IP : option string;
  PUPPETEER_EXECUTABLE_PATH : option string;
  platform : string;
  chromeExists : bool;
  nopechaPath : string
}.

(** The environment: the driver's answer to each call, the order in
    which the event loop delivers the events of a guarded wait, the
    clock, the random source and the process. *)
Record Env := {
  answer : History -> forall R, Op R -> Outcome R;
  next_event : History -> nat -> RaceEvent;
  date_now : History -> Z;
  random_int : History -> Z -> Z -> Z;
  process : Process
}.

(** Module-level state of [openai-auth.ts] and the history of the run. *)
Record World := {
  history : History;
  hasRecaptchaPlugin : bool;
  hasNopechaExtension : bool
}.

Definition record_event (ev : Event) (w : World) : World :=
  {| history := ev :: history w;
     hasRecaptchaPlugin := hasRecaptchaPlugin w;
     hasNopechaExtension := hasNopechaExtension w |}.

(** ** Strings and optional values as JavaScript treats them *)

(** Truthiness of a value of type [string | undefined]. *)
Definition truthy (o : option string) : bool :=
  match o with
  | Some s => negb (String.eqb s "")
  | None => false
  end.

(** Truthiness of a value of type [number | undefined] (an integer). *)
Definition truthy_number (o : option Z) : bool :=
  match o with
  | Some n => negb (n =? 0)%Z
  | None => false
  end.

(** A default of a destructuring pattern, [x = d]: used when [x] is
    [undefined]. *)
Definition or_default {A} (x d : option A) : option A :=
  match x with
  | Some _ => x
  | None => d
  end.

(** A value of type [string | undefined] inside a template literal. *)
Definition template (o : option string) : string := default "undefined" o.

(** [s.includes(c)] for a separator of one character. *)
Fixpoint includes (c : ascii) (s : string) : bool :=
  match s with
  | EmptyString => false
  | String a s' => if Ascii.eqb a c then true else includes c s'
  end.

(** [s.split(c)] for a separator of one character. *)
Fixpoint split (c : ascii) (s : string) : list string :=
  match s with
  | EmptyString => [EmptyString]
  | String a s' =>
      if Ascii.eqb a c then EmptyString :: split c s'
      else match split c s' with
           | x :: xs => String a x :: xs
           | [] => [String a EmptyString]
           end
  end.

(** A string holds its text in UTF-8.  [characters] cuts it into its
    characters: a byte of the form 10xxxxxx continues the character
    that the byte before it starts or continues. *)
Definition is_continuation (a : ascii) : bool :=
  let n := nat_of_ascii a in
  (Nat.leb 128 n && Nat.ltb n 192)%bool.

Fixpoint characters (s : string) : list string :=
  match s with
  | EmptyString => []
  | String a s' =>
      match characters s' with
      | String b ch :: chs =>
          if (Nat.leb 128 (nat_of_ascii a) && is_continuation b)%bool
          then String a (String b ch) :: chs
          else String a EmptyString :: String b ch :: chs
      | chs => String a EmptyString :: chs
      end
  end.

Fixpoint continuation_bits (acc : N) (s : string) : N :=
  match s with
  | EmptyString => acc
  | String a s' =>
      continuation_bits (acc * 64 + N.land (N_of_ascii a) 63)%N s'
  end.

(** The code point of a character; a byte that stands alone counts as
    the code point of its number. *)
Definition code_point (ch : string) : N :=
  match ch with
  | EmptyString => 0%N
  | String a EmptyString => N_of_ascii a
  | String a rest =>
      let lead :=
        match String.length rest with
        | 1%nat => 31%N
        | 2%nat => 15%N
        | _ => 7%N
        end in
      continuation_bits (N.land (N_of_ascii a) lead) rest
  end.

(** What [String.prototype.trim] removes: the code points of WhiteSpace
    and LineTerminator in ECMAScript. *)
Definition is_space (c : N) : bool :=
  (existsb (N.eqb c)
     [9; 10; 11; 12; 13; 32; 160; 5760; 8232; 8233; 8239; 8287; 12288;
      65279]
   || ((8192 <=? c) && (c <=? 8202)))%N.

Fixpoint trim_start (chs : list string) : list string :=
  match chs with
  | [] => []
  | ch :: chs' => if is_space (code_point ch) then trim_start chs' else chs
  end.

Definition trim (s : string) : string :=
  String.concat "" (rev (trim_start (rev (trim_start (characters s))))).

(** The launch arguments [getBrowser] starts from. *)
Definition baseArgs : list string :=
  [ "--no-sandbox";
    "--disable-setuid-sandbox";
    "--disable-infobars";
    "--disable-dev-shm-usage";
    "--disable-blink-features=AutomationControlled";
    "--ignore-certificate-errors";
    "--no-first-run";
    "--no-service-autorun";
    "--password-store=basic";
    "--system-developer-mode";
    "--mute-audio";
    "--disable-default-apps";
    "--no-zygote";
    "--disable-accelerated-2d-canvas";
    "--disable-web-security" ].

(** The text [getBrowser] puts after [--proxy-server=]. *)
Definition ipPort (proxyServer : string) : string :=
  if includes "@" proxyServer
  then template (split "@" proxyServer !! 1%nat)
  else proxyServer.

(** [puppeteerArgs] once the two conditional pushes are done;
    [nopechaPath] is [path.join(__dirname, '..', 'third-party',
    'nopecha-chrome-extension')]. *)
Definition puppeteerArgs (nopechaPath : string)
    (nopechaKey proxyServer : option string) : list string :=
  baseArgs
  ++ (if truthy nopechaKey
      then [ "--disable-extensions-except=" +:+ nopechaPath;
             "--load-extension=" +:+ nopechaPath ]
      else [])
  ++ (if truthy proxyServer
      then [ "--proxy-server=" +:+ ipPort (template proxyServer) ]
      else []).

(** The result of [getOpenAIAuth]. *)
Record OpenAIAuth := {
  userAgent : string;
  clearanceToken : option string;
  sessionToken : option string;
  cookies : gmap string Cookie
}.

(** [pageCookies.reduce((map, cookie) => ({ ...map, [cookie.name]: cookie }), {})] *)
Definition cookie_map (pageCookies : list Cookie) : gmap string Cookie :=
  foldl (fun map cookie => <[name cookie := cookie]> map) ∅ pageCookies.

Definition authInfo (userAgent : string) (pageCookies : list Cookie)
  : OpenAIAuth :=
  let cookies := cookie_map pageCookies in
  {| userAgent := userAgent;
     clearanceToken := value <$> cookies !! "cf_clearance";
     sessionToken := value <$> cookies !! "__Secure-next-auth.session-token";
     cookies := cookies |}.

(** ** Statements with mutable locals, exceptions and [break] *)

Inductive Res (A : Type) :=
| Val (a : A)
| Brk
| Exn (e : Err)
| Diverge.
Arguments Val {A} a.
Arguments Brk {A}.
Arguments Exn {A} e.
Arguments Diverge {A}.

(** A statement of a function whose mutable locals have type [L]. *)
Definition M (L A : Type) : Type := L -> World -> Res A * L * World.

#[global] Instance M_ret {L} : MRet (M L) :=
  fun A a l w => (Val a, l, w).

#[global] Instance M_bind {L} : MBind (M L) :=
  fun A B k m l w =>
    match m l w with
    | (Val a, l', w') => k a l' w'
    | (Brk, l', w') => (Brk, l', w')
    | (Exn e, l', w') => (Exn e, l', w')
    | (Diverge, l', w') => (Diverge, l', w')
    end.

Definition throw {L A} (e : Err) : M L A := fun l w => (Exn e, l, w).
Definition break {L A} : M L A := fun l w => (Brk, l, w).
Definition diverge {L A} : M L A := fun l w => (Diverge, l, w).
Definition read {L X} (f : L -> X) : M L X := fun l w => (Val (f l), l, w).
Definition assign {L} (f : L -> L) : M L unit := fun l w => (Val tt, f l, w).
Definition read_world {L X} (f : World -> X) : M L X :=
  fun l w => (Val (f w), l, w).
Definition write_world {L} (f : World -> World) : M L unit :=
  fun l w => (Val tt, l, f w).

(** [try { body } catch (err) { handler }]: only exceptions are caught. *)
Definition try_catch {L A} (body : M L A) (handler : Err -> M L A) : M L A :=
  fun l w =>
    match body l w with
    | (Exn e, l', w') => handler e l' w'
    | r => r
    end.

(** [try { body } finally { fin }]: [fin] runs on every completion of
    [body]; when [fin] completes normally the completion of [body]
    stands, otherwise the one of [fin] replaces it. *)
Definition try_finally {L A} (body : M L A) (fin : M L unit) : M L A :=
  fun l w =>
    match body l w with
    | (Diverge, l', w') => (Diverge, l', w')
    | (r, l', w') =>
        match fin l' w' with
        | (Val _, l'', w'') => (r, l'', w'')
        | (Brk, l'', w'') => (Brk, l'', w'')
        | (Exn e, l'', w'') => (Exn e, l'', w'')
        | (Diverge, l'', w'') => (Diverge, l'', w'')
        end
    end.

(** [do { body } while (cond)]; [fuel] bounds the iterations of the
    model, and running out of it is [Diverge]. *)
Fixpoint do_while {L} (fuel : nat) (body : M L unit) (cond : L -> bool)
  : M L unit :=
  match fuel with
  | O => diverge
  | S fuel' =>
      fun l w =>
        match body l w with
        | (Val _, l', w') =>
            if cond l' then do_while fuel' body cond l' w'
            else (Val tt, l', w')
        | (Brk, l', w') => (Val tt, l', w')
        | r => r
        end
  end.

(** A call of a function: the callee runs on its own locals. *)
Definition call_fn {L L' A} (init : L') (body : M L' A) : M L A :=
  fun l w => let '(r, _, w') := body init w in (r, l, w').

(** A promise: settling it yields an outcome and may leave events. *)
Definition Promise (A : Type) : Type := World -> Outcome A * World.

Definition await {L A} (p : Promise A) : M L A :=
  fun l w =>
    match p w with
    | (Returned a, w') => (Val a, l, w')
    | (Thrown e, w') => (Exn e, l, w')
    end.

Section WithEnv.

Variable env : Env.

(** A driver call as a promise: settling it asks the environment and
    records the answer. *)
Definition perform {R} (op : Op R) : Promise R :=
  fun w =>
    let out := answer env (history w) R op in
    (out, record_event (Called R op out) w).

(** [await] of a driver call. *)
Definition call {L R} (op : Op R) : M L R := await (perform op).

(** [await delay(ms)] *)
Definition delay {L} (ms : Z) : M L unit :=
  fun l w => (Val tt, l, record_event (Delayed ms) w).

(** [random.int(lo, hi)] *)
Definition random {L} (lo hi : Z) : M L Z :=
  fun l w => (Val (random_int env (history w) lo hi), l, w).

(** [Date.now()] *)
Definition now {L} : M L Z :=
  fun l w => (Val (date_now env (history w)), l, w).

(** ** [solveSimpleCaptchas] *)

Definition click_when_present (el : option Elem) : M unit unit :=
  match el with
  | Some e =>
      delay 2000;;
      d ← random 5 25;
      call (ElemClick e (Some d));;
      delay 1000
  | None => mret tt
  end.

Definition solveSimpleCaptchas (page : Page) : M unit unit :=
  try_catch
    (verifyYouAreHuman ← call (Query page "text=Verify you are human");
     click_when_present verifyYouAreHuman;;
     cloudflareButton ← call (Query page ".hcaptcha-box");
     click_when_present cloudflareButton)
    (fun _ => mret tt).

(** ** [checkForChatGPTAtCapacity] *)

Record CapacityOpts := {
  co_timeoutMs : option Z;
  co_pollingIntervalMs : option Z;
  co_retries : option Z
}.

Definition no_opts : CapacityOpts :=
  {| co_timeoutMs := None; co_pollingIntervalMs := None; co_retries := None |}.

Definition capacity_timeoutMs (opts : CapacityOpts) : Z :=
  default (2 * 60 * 1000) (co_timeoutMs opts).
Definition capacity_pollingIntervalMs (opts : CapacityOpts) : Z :=
  default 3000 (co_pollingIntervalMs opts).
Definition capacity_retries (opts : CapacityOpts) : Z :=
  default 10 (co_retries opts).

Record CapacityLocals := {
  isAtCapacity : bool;
  numTries : Z
}.

Definition set_isAtCapacity (b : bool) (l : CapacityLocals) :=
  {| isAtCapacity := b; numTries := numTries l |}.
Definition incr_numTries (l : CapacityLocals) :=
  {| isAtCapacity := isAtCapacity l; numTries := numTries l + 1 |}.

Definition capacityXPath : string :=
  "//div[contains(., 'ChatGPT is at capacity')]".

Definition atCapacityError : Err :=
  ChatGPTError "ChatGPT is at capacity" (Some 503).

(** The body of the [do ... while (isAtCapacity)] loop. *)
Definition capacity_cycle (page : Page) (opts : CapacityOpts)
  : M CapacityLocals unit :=
  try_catch
    (call_fn tt (solveSimpleCaptchas page);;
     res ← call (XPath page capacityXPath);
     assign (set_isAtCapacity (negb (Nat.eqb (length res) 0)));;
     at_capacity ← read isAtCapacity;
     if at_capacity : bool then
       assign incr_numTries;;
       n ← read numTries;
       (if n >=? capacity_retries opts then break else mret tt);;
       call (Reload page "networkidle2" (capacity_timeoutMs opts));;
       delay (capacity_pollingIntervalMs opts)
     else mret tt)
    (fun _ => assign incr_numTries;; break).

Definition checkForChatGPTAtCapacity_body (fuel : nat) (page : Page)
    (opts : CapacityOpts) : M CapacityLocals unit :=
  do_while fuel (capacity_cycle page opts) isAtCapacity;;
  at_capacity ← read isAtCapacity;
  if at_capacity : bool then throw atCapacityError else mret tt.

Definition capacity_locals0 : CapacityLocals :=
  {| isAtCapacity := false; numTries := 0 |}.

Definition checkForChatGPTAtCapacity {L} (fuel : nat) (page : Page)
    (opts : CapacityOpts) : M L unit :=
  call_fn capacity_locals0 (checkForChatGPTAtCapacity_body fuel page opts).

(** ** [waitForConditionOrAtCapacity]

    The executor of the returned promise sets the flag [resolved],
    starts [condition()] and arms a timer for [waitForCapacityText].
    From there the event loop delivers three kinds of events: the
    condition's promise settles, the timer fires, and the capacity check
    started by [waitForCapacityText] settles. *)

(** What the executor does to the promise it returns and to the timers. *)
Inductive RaceAction :=
| DidSetTimeout (ms : Z)
| DidResolve
| DidReject (e : Err).

Inductive PollerState :=
| Armed       (* a timer for [waitForCapacityText] is pending *)
| Checking    (* [waitForCapacityText] awaits the capacity check *)
| Idle.       (* neither: the poller is gone *)

Inductive CondState :=
| Pending
| Settled.

Record Race := {
  resolved : bool;
  cond_state : CondState;
  poller : PollerState;
  actions : list RaceAction   (* newest first *)
}.

Definition set_resolved (b : bool) (r : Race) : Race :=
  {| resolved := b; cond_state := cond_state r; poller := poller r;
     actions := actions r |}.
Definition set_cond_state (c : CondState) (r : Race) : Race :=
  {| resolved := resolved r; cond_state := c; poller := poller r;
     actions := actions r |}.
Definition set_poller (p : PollerState) (r : Race) : Race :=
  {| resolved := resolved r; cond_state := cond_state r; poller := p;
     actions := actions r |}.
Definition did (a : RaceAction) (r : Race) : Race :=
  {| resolved := resolved r; cond_state := cond_state r; poller := poller r;
     actions := a :: actions r |}.

(** [resolve()], [reject(err)] and [setTimeout(waitForCapacityText, ms)] *)
Definition resolve : M Race unit := assign (did DidResolve).
Definition reject (err : Err) : M Race unit := assign (did (DidReject err)).
Definition setTimeout (ms : Z) : M Race unit :=
  assign (did (DidSetTimeout ms));; assign (set_poller Armed).

Definition race_pollingIntervalMs (o : option Z) : Z := default 500 o.

(** [waitForCapacityText] up to its [await]. *)
Definition waitForCapacityText_enter : M Race unit :=
  r ← read resolved;
  if r : bool then assign (set_poller Idle)
  else assign (set_poller Checking).

(** [waitForCapacityText] from its [await] on. *)
Definition waitForCapacityText_resume (fuel : nat) (page : Page)
    (pollingIntervalMs : Z) : M Race unit :=
  assign (set_poller Idle);;
  try_catch
    (checkForChatGPTAtCapacity fuel page no_opts;;
     r ← read resolved;
     if negb r then setTimeout pollingIntervalMs else mret tt)
    (fun err =>
       r ← read resolved;
       if negb r then assign (set_resolved true);; reject err
       else mret tt).

(** The handlers registered by [condition().then(...).catch(...)]. *)
Definition condition_then : M Race unit :=
  r ← read resolved;
  if negb r then assign (set_resolved true);; resolve else mret tt.

Definition condition_catch (err : Err) : M Race unit :=
  r ← read resolved;
  if negb r then assign (set_resolved true);; reject err else mret tt.

Definition condition_settles (condition : Promise unit) : M Race unit :=
  assign (set_cond_state Settled);;
  try_catch (await condition;; condition_then) condition_catch.

(** One event of the loop; an event that is not due changes nothing. *)
Definition race_step (fuel : nat) (page : Page) (condition : Promise unit)
    (pollingIntervalMs : Z) (ev : RaceEvent) : M Race unit :=
  match ev with
  | CondSettles =>
      c ← read cond_state;
      match c with
      | Pending => condition_settles condition
      | Settled => mret tt
      end
  | TimerFires =>
      p ← read poller;
      match p with
      | Armed => waitForCapacityText_enter
      | _ => mret tt
      end
  | CheckSettles =>
      p ← read poller;
      match p with
      | Checking => waitForCapacityText_resume fuel page pollingIntervalMs
      | _ => mret tt
      end
  end.

(** The state the executor leaves: [resolved = false], [condition()]
    pending with its handlers attached, the first timer armed. *)
Definition race_locals0 : Race :=
  {| resolved := false; cond_state := Pending; poller := Idle; actions := [] |}.

Definition race_executor (pollingIntervalMs : Z) : M Race unit :=
  setTimeout pollingIntervalMs.

Fixpoint race_events (fuel : nat) (page : Page) (condition : Promise unit)
    (pollingIntervalMs : Z) (evs : list RaceEvent) : M Race unit :=
  match evs with
  | [] => mret tt
  | ev :: evs' =>
      race_step fuel page condition pollingIntervalMs ev;;
      race_events fuel page condition pollingIntervalMs evs'
  end.

(** A run of the guarded wait under a given schedule of events. *)
Definition race_run (fuel : nat) (page : Page) (condition : Promise unit)
    (opt_pollingIntervalMs : option Z) (evs : list RaceEvent) : M Race unit :=
  let pollingIntervalMs := race_pollingIntervalMs opt_pollingIntervalMs in
  race_executor pollingIntervalMs;;
  race_events fuel page condition pollingIntervalMs evs.

(** The settlements of the promise, oldest first: the calls of
    [resolve] and [reject]. *)
Definition is_settlement (a : RaceAction) : bool :=
  match a with
  | DidSetTimeout _ => false
  | DidResolve | DidReject _ => true
  end.

Definition settlements (r : Race) : list RaceAction :=
  rev (List.filter is_settlement (actions r)).

(** The promise as the awaiting caller sees it.  The event loop delivers
    the events in the order the environment chooses: [next_event] is
    asked with the history of the run and the number [n] of events it has
    delivered in this wait so far, and an event that is not due changes
    nothing.  The caller goes on as soon as the promise has settled.  A
    capacity check that is under way at that moment still runs to its
    end, where it finds [resolved] set and does nothing more; its calls
    are recorded here, before those the caller makes next. *)
Fixpoint race_until_settled (turns fuel n : nat) (page : Page)
    (condition : Promise unit) (pollingIntervalMs : Z) : M Race unit :=
  match turns with
  | O => diverge
  | S turns' =>
      s ← read settlements;
      match s with
      | DidResolve :: _ =>
          race_step fuel page condition pollingIntervalMs CheckSettles
      | DidReject err :: _ =>
          race_step fuel page condition pollingIntervalMs CheckSettles;;
          throw err
      | _ =>
          ev ← read_world (fun w => next_event env (history w) n);
          race_step fuel page condition pollingIntervalMs ev;;
          race_until_settled turns' fuel (S n) page condition
            pollingIntervalMs
      end
  end.

Definition waitForConditionOrAtCapacity {L} (fuel : nat) (page : Page)
    (condition : Promise unit) (opt_pollingIntervalMs : option Z) : M L unit :=
  let pollingIntervalMs := race_pollingIntervalMs opt_pollingIntervalMs in
  call_fn race_locals0
    (race_executor pollingIntervalMs;;
     race_until_settled fuel fuel 0 page condition pollingIntervalMs).

(** A promise whose value is dropped, as [.then(() => ...)] does. *)
Definition forget {A} (p : Promise A) : Promise unit :=
  fun w =>
    match p w with
    | (Returned _, w') => (Returned tt, w')
    | (Thrown e, w') => (Thrown e, w')
    end.

(** ** [defaultChromeExecutablePath] *)

Definition defaultChromeExecutablePath : string :=
  if truthy (PUPPETEER_EXECUTABLE_PATH (process env))
  then template (PUPPETEER_EXECUTABLE_PATH (process env))
  else if String.eqb (platform (process env)) "win32"
  then "C:\Program Files\Google\Chrome\Application\chrome.exe"
  else if String.eqb (platform (process env)) "darwin"
  then "/Applications/Google Chrome.app/Contents/MacOS/Google Chrome"
  else if chromeExists (process env)
  then "/usr/bin/google-chrome"
  else "/usr/bin/google-chrome-stable".

(** [(await browser.pages())[0] || (await browser.newPage())] *)
Definition first_page_or_new {L} (browser : Browser) : M L Page :=
  ps ← call (Pages browser);
  match ps with
  | p :: _ => mret p
  | [] => call (NewPage browser)
  end.

Definition when {L} (b : bool) (m : M L unit) : M L unit :=
  if b then m else mret tt.

Fixpoint times {L} (n : nat) (m : M L unit) : M L unit :=
  match n with
  | O => mret tt
  | S n' => m;; times n' m
  end.

Definition set_hasRecaptchaPlugin (b : bool) (w : World) : World :=
  {| history := history w; hasRecaptchaPlugin := b;
     hasNopechaExtension := hasNopechaExtension w |}.
Definition set_hasNopechaExtension (b : bool) (w : World) : World :=
  {| history := history w; hasRecaptchaPlugin := hasRecaptchaPlugin w;
     hasNopechaExtension := b |}.

(** ** [initializeNopechaExtension] *)

(** The host names of the service workers among the targets, the falsy
    ones filtered out; [None] when [new URL] throws for one of them. *)
Fixpoint extensionIds (targets : list Target) : option (list string) :=
  match targets with
  | [] => Some []
  | t :: ts =>
      if negb (String.eqb (target_type t) "service_worker")
      then extensionIds ts
      else match target_hostname t with
           | None => None
           | Some h =>
               match extensionIds ts with
               | None => None
               | Some hs => Some (if String.eqb h "" then hs else h :: hs)
               end
           end
  end.

Definition initializeNopechaExtension {L} (browser : Browser)
    (opt_minimize : option bool) (nopechaKey : option string) : M L unit :=
  let minimize := default false opt_minimize in
  has ← read_world hasNopechaExtension;
  when has
    (page ← first_page_or_new browser;
     when minimize (call (MinimizePage page));;
     call (Goto page ("https://nopecha.com/setup#" +:+ template nopechaKey) None);;
     delay 1000;;
     try_catch
       (targets ← call (Targets browser);
        match extensionIds targets with
        | None => throw (Error "Invalid URL")
        | Some (extensionId :: _) =>
            let extensionUrl :=
              "chrome-extension://" +:+ extensionId +:+ "/popup.html" in
            call (Goto page extensionUrl (Some "networkidle2"));;
            editKey ← call (WaitForSelector page "#edit_key .clickable" None false);
            call (ElemClick editKey None);;
            settingsInput ← call (WaitForSelector page "input.settings_text" None false);
            value ← call (ElemValue settingsInput);
            when (negb (bool_decide (value = nopechaKey)))
              (times 31 (call (ElemPress settingsInput "Backspace"));;
               call (ElemType settingsInput (template nopechaKey));;
               call (ElemPress settingsInput "Enter");;
               delay 500;;
               call (ElemClick editKey None);;
               delay 2000)
        | Some [] => mret tt
        end)
       (fun _ => mret tt)).

(** ** [getBrowser] *)

(** The options of [getBrowser]; the last four are the properties of
    [...launchOptions] that the object given to [puppeteer.launch] also
    sets itself. *)
Record BrowserOpts := {
  bo_captchaToken : option string;
  bo_nopechaKey : option string;
  bo_executablePath : option string;
  bo_proxyServer : option string;
  bo_minimize : option bool;
  bo_headless : option bool;
  bo_args : option (list string);
  bo_ignoreDefaultArgs : option (list string);
  bo_ignoreHTTPSErrors : option bool
}.

Definition launchOptions_of (opts : BrowserOpts) : LaunchOptions :=
  let nopechaKey := or_default (bo_nopechaKey opts) (NOPECHA_KEY (process env)) in
  let proxyServer := or_default (bo_proxyServer opts) (PROXY_SERVER (process env)) in
  {| headless := default false (bo_headless opts);
     args := default (puppeteerArgs (nopechaPath (process env)) nopechaKey proxyServer)
               (bo_args opts);
     ignoreDefaultArgs :=
       default [ "--disable-extensions";
                 "--enable-automation";
                 "--disable-component-extensions-with-background-pages" ]
         (bo_ignoreDefaultArgs opts);
     ignoreHTTPSErrors := default true (bo_ignoreHTTPSErrors opts);
     executablePath :=
       default defaultChromeExecutablePath (bo_executablePath opts) |}.

(** The block [if (process.env.PROXY_VALIDATE_IP) { ... }]. *)
Definition validateProxyIp {L} (browser : Browser) (minimize : bool)
  : M L unit :=
  when (truthy (PROXY_VALIDATE_IP (process env)))
    (page ← first_page_or_new browser;
     when minimize (call (MinimizePage page));;
     ip ← try_catch (call (FetchIp page))
            (fun err =>
               throw (Error ("Proxy IP validation failed: " +:+ err_toString err)));
     when (negb (truthy ip)
           || negb (bool_decide (ip = PROXY_VALIDATE_IP (process env))))
       (throw (Error ("Proxy IP mismatch: " +:+ template ip +:+ " !== "
                      +:+ template (PROXY_VALIDATE_IP (process env)))))).

Definition getBrowser {L} (opts : BrowserOpts) : M L Browser :=
  let captchaToken := or_default (bo_captchaToken opts) (CAPTCHA_TOKEN (process env)) in
  let nopechaKey := or_default (bo_nopechaKey opts) (NOPECHA_KEY (process env)) in
  let minimize := default false (bo_minimize opts) in
  hasPlugin ← read_world hasRecaptchaPlugin;
  when (truthy captchaToken && negb hasPlugin)
    (write_world (set_hasRecaptchaPlugin true);;
     write_world (record_event (PluginUsed (template captchaToken))));;
  when (truthy nopechaKey) (write_world (set_hasNopechaExtension true));;
  browser ← call (Launch (launchOptions_of opts));
  validateProxyIp browser minimize;;
  initializeNopechaExtension browser (Some minimize) nopechaKey;;
  mret browser.

(** ** [waitForRecaptcha] *)

Definition waitForRecaptcha {L} (fuel : nat) (page : Page)
    (opt_pollingIntervalMs timeoutMs : option Z) : M L unit :=
  call_fn tt
    (call_fn tt (solveSimpleCaptchas page);;
     has ← read_world hasNopechaExtension;
     when has
       (let pollingIntervalMs := default 100 opt_pollingIntervalMs in
        captcha ← call (Query page "textarea#g-recaptcha-response");
        startTime ← now;
        match captcha with
        | Some c =>
            do_while fuel
              (v ← call (ElemValue c);
               when (truthy (trim <$> v)) break;;
               when (truthy_number timeoutMs)
                 (t ← now;
                  when (t - startTime >=? default 0 timeoutMs)
                    (throw (TimeoutError "Timed out waiting to solve Recaptcha")));;
               delay pollingIntervalMs)
              (fun _ => true)
        | None => mret tt
        end)).

(** ** [getOpenAIAuth] *)

Record AuthOpts := {
  ao_email : option string;
  ao_password : option string;
  ao_browser : option Browser;
  ao_page : option Page;
  ao_timeoutMs : option Z;
  ao_isGoogleLogin : option bool;
  ao_isMicrosoftLogin : option bool;
  ao_captchaToken : option string;
  ao_nopechaKey : option string;
  ao_executablePath : option string;
  ao_proxyServer : option string;
  ao_minimize : option bool
}.

Definition auth_timeoutMs (o : AuthOpts) : Z :=
  default (2 * 60 * 1000) (ao_timeoutMs o).

(** The parameters [browser] and [page] are assigned to in the body. *)
Record AuthLocals := {
  browser : option Browser;
  page : option Page
}.

Definition set_browser (b : option Browser) (l : AuthLocals) : AuthLocals :=
  {| browser := b; page := page l |}.
Definition set_page (p : option Page) (l : AuthLocals) : AuthLocals :=
  {| browser := browser l; page := p |}.

(** [Promise.all([a, b])] of two promises started in this order: both
    run, and it rejects when one of them does. *)
Definition promise_all2 {L} (a b : M L unit) : M L unit :=
  fun l w =>
    match a l w with
    | (Exn e, l1, w1) =>
        match b l1 w1 with
        | (Diverge, l2, w2) => (Diverge, l2, w2)
        | (_, l2, w2) => (Exn e, l2, w2)
        end
    | (Val _, l1, w1) => b l1 w1
    | r => r
    end.

(** [Promise.all([page.waitForNavigation(), await page.keyboard.press('Enter')])]:
    the key press is awaited while the array is built, the navigation
    after it. *)
Definition press_enter_and_navigate {L} (page : Page) : M L unit :=
  call (KeyboardPress page "Enter");;
  call (WaitForNavigation page None None).

(** A call whose promise is dropped: its rejection reaches nobody. *)
Definition not_awaited {L R} (op : Op R) : M L unit :=
  try_catch (call op;; mret tt) (fun _ => mret tt).

(** [submitP] is one of two thunks. *)
Inductive SubmitKind :=
| PressEnter      (* [() => page.keyboard.press('Enter')] *)
| ClickSubmit.    (* [() => page.click('button[type="submit"]')] *)

Definition submit_op (page : Page) (k : SubmitKind) : Op unit :=
  match k with
  | PressEnter => KeyboardPress page "Enter"
  | ClickSubmit => Click page "button[type=submit]"
  end.

(** The three ways to fill in the login form; each yields [submitP].
    Selectors are written without their inner quotation marks. *)
Definition login_google {L} (page : Page) (email password : string)
  : M L SubmitKind :=
  call (Click page "button[data-provider=google]");;
  call (WaitForSelector page "input[type=email]" None false);;
  call (TypeText page "input[type=email]" email (Some 10));;
  press_enter_and_navigate page;;
  call (WaitForSelector page "input[type=password]" None true);;
  call (TypeText page "input[type=password]" password (Some 10));;
  mret PressEnter.

Definition login_microsoft {L} (page : Page) (email password : string)
  : M L SubmitKind :=
  call (Click page "button[data-provider=windowslive]");;
  call (WaitForSelector page "input[type=email]" None false);;
  call (TypeText page "input[type=email]" email (Some 10));;
  press_enter_and_navigate page;;
  delay 1500;;
  call (WaitForSelector page "input[type=password]" None true);;
  call (TypeText page "input[type=password]" password (Some 10));;
  press_enter_and_navigate page;;
  delay 1000;;
  mret PressEnter.

Definition login_openai {L} (fuel : nat) (page : Page)
    (email password : string) (timeoutMs : Z) : M L SubmitKind :=
  call (WaitForSelector page "#username" None false);;
  call (TypeText page "#username" email None);;
  delay 100;;
  hasNopecha ← read_world hasNopechaExtension;
  hasPlugin ← read_world hasRecaptchaPlugin;
  (if hasNopecha : bool then waitForRecaptcha fuel page None (Some timeoutMs)
   else when hasPlugin (call (SolveRecaptchas page);; mret tt));;
  delay 1200;;
  submit ← call (WaitForSelector page "button[type=submit]" (Some timeoutMs) false);
  not_awaited (FrameFocus page "button[type=submit]");;
  call (ElemFocus submit);;
  call (ElemClick submit None);;
  call (WaitForSelector page "#password" (Some timeoutMs) false);;
  call (TypeText page "#password" password (Some 10));;
  mret ClickSubmit.

(** The branch [if (email && password) { ... }]. *)
Definition login {L} (fuel : nat) (page : Page) (email password : string)
    (isGoogleLogin isMicrosoftLogin : bool) (timeoutMs : Z) : M L unit :=
  waitForConditionOrAtCapacity fuel page
    (forget (perform (WaitForSelector page "#__next .btn-primary"
                        (Some timeoutMs) false))) None;;
  delay 500;;
  promise_all2
    (call (WaitForNavigation page (Some "networkidle2") (Some timeoutMs)))
    (call (Click page "#__next .btn-primary"));;
  checkForChatGPTAtCapacity fuel page
    {| co_timeoutMs := Some timeoutMs; co_pollingIntervalMs := None;
       co_retries := None |};;
  submitP ← (if isGoogleLogin then login_google page email password
             else if isMicrosoftLogin then login_microsoft page email password
             else login_openai fuel page email password timeoutMs);
  promise_all2
    (waitForConditionOrAtCapacity fuel page
       (perform (WaitForNavigation page (Some "networkidle2") (Some timeoutMs)))
       None)
    (call (submit_op page submitP)).

(** The object [getOpenAIAuth] hands to [getBrowser]. *)
Definition getBrowser_opts (o : AuthOpts) : BrowserOpts :=
  {| bo_captchaToken :=
       or_default (ao_captchaToken o) (CAPTCHA_TOKEN (process env));
     bo_nopechaKey := or_default (ao_nopechaKey o) (NOPECHA_KEY (process env));
     bo_executablePath := ao_executablePath o;
     bo_proxyServer :=
       or_default (ao_proxyServer o) (PROXY_SERVER (process env));
     bo_minimize := None;
     bo_headless := None;
     bo_args := None;
     bo_ignoreDefaultArgs := None;
     bo_ignoreHTTPSErrors := None |}.

(** [if (!browser) { browser = await getBrowser({ ... }) }] *)
Definition ensure_browser (o : AuthOpts) : M AuthLocals Browser :=
  b0 ← read browser;
  match b0 with
  | Some b => mret b
  | None =>
      b ← getBrowser (getBrowser_opts o);
      assign (set_browser (Some b));;
      mret b
  end.

(** [if (!page) { page = ...; page.setDefaultTimeout(timeoutMs); ... }] *)
Definition ensure_page (o : AuthOpts) (browser : Browser) : M AuthLocals Page :=
  let timeoutMs := auth_timeoutMs o in
  let minimize := default false (ao_minimize o) in
  p0 ← read page;
  match p0 with
  | Some p => mret p
  | None =>
      p ← first_page_or_new browser;
      assign (set_page (Some p));;
      call (SetDefaultTimeout p timeoutMs);;
      when minimize (call (MinimizePage p));;
      mret p
  end.

(** The block of [try] from [page.goto] on. *)
Definition authenticate (fuel : nat) (o : AuthOpts) (page : Page)
    (userAgent : string) : M AuthLocals OpenAIAuth :=
  let timeoutMs := auth_timeoutMs o in
  let isGoogleLogin := default false (ao_isGoogleLogin o) in
  let isMicrosoftLogin := default false (ao_isMicrosoftLogin o) in
  call (Goto page "https://chat.openai.com/auth/login" (Some "networkidle2"));;
  checkForChatGPTAtCapacity fuel page
    {| co_timeoutMs := Some timeoutMs; co_pollingIntervalMs := None;
       co_retries := None |};;
  hasPlugin ← read_world hasRecaptchaPlugin;
  when hasPlugin
    (n ← call (FindRecaptchas page);
     when (negb (Nat.eqb n 0)) (call (SolveRecaptchas page);; mret tt));;
  (if truthy (ao_email o) && truthy (ao_password o)
   then login fuel page (template (ao_email o)) (template (ao_password o))
          isGoogleLogin isMicrosoftLogin timeoutMs
   else
     delay 2000;;
     checkForChatGPTAtCapacity fuel page
       {| co_timeoutMs := Some timeoutMs; co_pollingIntervalMs := None;
          co_retries := None |});;
  pageCookies ← call (Cookies page);
  mret (authInfo userAgent pageCookies).

(** The block of [try] once [browser] is there. *)
Definition with_browser (fuel : nat) (o : AuthOpts) (browser : Browser)
  : M AuthLocals OpenAIAuth :=
  userAgent ← call (UserAgent browser);
  page ← ensure_page o browser;
  authenticate fuel o page userAgent.

(** The block of [try]. *)
Definition getOpenAIAuth_try (fuel : nat) (o : AuthOpts)
  : M AuthLocals OpenAIAuth :=
  browser ← ensure_browser o;
  with_browser fuel o browser.

(** The block of [finally]. *)
Definition getOpenAIAuth_finally (origBrowser : option Browser)
    (origPage : option Page) : M AuthLocals unit :=
  p ← read page;
  b ← read browser;
  match origBrowser with
  | Some _ =>
      match p with
      | Some p' => when (negb (bool_decide (Some p' = origPage))) (call (PageClose p'))
      | None => mret tt
      end
  | None =>
      match b with
      | Some b' => call (BrowserClose b')
      | None => mret tt
      end
  end;;
  assign (set_page None);;
  assign (set_browser None).

Definition getOpenAIAuth {L} (fuel : nat) (o : AuthOpts) : M L OpenAIAuth :=
  let origBrowser := ao_browser o in
  let origPage := ao_page o in
  call_fn {| browser := ao_browser o; page := ao_page o |}
    (try_finally
       (try_catch (getOpenAIAuth_try fuel o) (fun err => throw err))
       (getOpenAIAuth_finally origBrowser origPage)).

End WithEnv.

(** * The vocabulary of the statements *)

(** ** Histories *)

(** The history of [w'] continues the one of [w]. *)
Definition grows (w w' : World) : Prop :=
  exists new, history w' = new ++ history w.

(** [w'] continues [w] by the events [new] (newest first). *)
Definition extends_by (new : History) (w w' : World) : Prop :=
  history w' = new ++ history w
  /\ hasRecaptchaPlugin w' = hasRecaptchaPlugin w
  /\ hasNopechaExtension w' = hasNopechaExtension w.

(** A banner-detection cycle leaves exactly one call of [page.$x]. *)
Definition is_poll (ev : Event) : bool :=
  match ev with
  | Called _ (XPath _ _) _ => true
  | _ => false
  end.

Definition polls (h : list Event) : nat :=
  length (List.filter is_poll h).

(** The calls of the capacity guard itself: the query and the reload. *)
Definition is_guard_call (ev : Event) : bool :=
  match ev with
  | Called _ (XPath _ _) _ => true
  | Called _ (Reload _ _ _) _ => true
  | _ => false
  end.

Definition no_guard_calls (h : list Event) : Prop :=
  Forall (fun ev => is_guard_call ev = false) h.

(** A query for the banner or a reload that threw. *)
Definition is_failed_poll (ev : Event) : bool :=
  match ev with
  | Called _ (XPath _ _) (Thrown _) => true
  | Called _ (Reload _ _ _) (Thrown _) => true
  | _ => false
  end.

(** [avoids bad ev]: the event is not a call of an operation in [bad]. *)
Definition avoids (bad : forall R, Op R -> bool) (ev : Event) : bool :=
  match ev with
  | Called R op _ => negb (bad R op)
  | _ => true
  end.

Definition is_close_op (R : Type) (op : Op R) : bool :=
  match op with
  | BrowserClose _ | PageClose _ => true
  | _ => false
  end.

Definition is_browser_close_op (R : Type) (op : Op R) : bool :=
  match op with
  | BrowserClose _ => true
  | _ => false
  end.

(** The calls that touch the login form: [page.click], [page.type] and
    [page.keyboard.press]. *)
Definition is_form_op (R : Type) (op : Op R) : bool :=
  match op with
  | Click _ _ | TypeText _ _ _ _ | KeyboardPress _ _ => true
  | _ => false
  end.

Definition no_op (R : Type) (op : Op R) : bool := false.

(** A statement only adds events to the history, none of them a call of
    an operation in [bad]. *)
Definition emits {L A} (bad : forall R, Op R -> bool) (m : M L A) : Prop :=
  forall l w,
    exists new,
      history (m l w).2 = new ++ history w
      /\ Forall (fun ev => avoids bad ev = true) new.

Definition promise_emits {A} (bad : forall R, Op R -> bool) (p : Promise A)
  : Prop :=
  forall w,
    exists new,
      history (p w).2 = new ++ history w
      /\ Forall (fun ev => avoids bad ev = true) new.

(** A statement leaves the locals of the function it belongs to alone. *)
Definition keeps {L A} (m : M L A) : Prop :=
  forall l w, (m l w).1.2 = l.

(** ** The capacity guard, cycle by cycle *)

(** The world [solveSimpleCaptchas] leaves. *)
Definition captchas_world (env : Env) (page : Page) (w : World) : World :=
  snd (solveSimpleCaptchas env page tt w).

Definition poll_answer (env : Env) (page : Page) (w : World)
  : Outcome (list Elem) :=
  answer env (history (captchas_world env page w)) _ (XPath page capacityXPath).

Definition polled (env : Env) (page : Page) (w : World) : World :=
  record_event (Called _ (XPath page capacityXPath) (poll_answer env page w))
    (captchas_world env page w).

Definition reload_answer (env : Env) (page : Page) (opts : CapacityOpts)
    (w : World) : Outcome unit :=
  answer env (history (polled env page w)) _
    (Reload page "networkidle2" (capacity_timeoutMs opts)).

Definition reloaded (env : Env) (page : Page) (opts : CapacityOpts)
    (w : World) : World :=
  record_event
    (Called _ (Reload page "networkidle2" (capacity_timeoutMs opts))
       (reload_answer env page opts w))
    (polled env page w).

Definition capacity_loop (env : Env) (fuel : nat) (page : Page)
    (opts : CapacityOpts) : M CapacityLocals unit :=
  do_while fuel (capacity_cycle env page opts) isAtCapacity.

(** The cycles the loop can still make with [numTries] at [n]. *)
Definition cycles_left (opts : CapacityOpts) (n : Z) : nat :=
  Nat.max 1 (Z.to_nat (capacity_retries opts - n)).

(** The most cycles a call can make: a [do ... while] makes one even
    when the budget [retries] is zero or negative. *)
Definition max_cycles (opts : CapacityOpts) : nat :=
  Nat.max 1 (Z.to_nat (capacity_retries opts)).

Definition banner_at (env : Env) (page : Page) (h : History) : Prop :=
  exists e found,
    answer env h _ (XPath page capacityXPath) = Returned (e :: found).

Definition no_banner_at (env : Env) (page : Page) (h : History) : Prop :=
  answer env h _ (XPath page capacityXPath) = Returned [].

Definition reload_ok_at (env : Env) (page : Page) (opts : CapacityOpts)
    (h : History) : Prop :=
  answer env h _ (Reload page "networkidle2" (capacity_timeoutMs opts))
  = Returned tt.

(** From [w] on the banner is there at the next [R] polls, each reload
    works, and at the poll after them the banner is gone. *)
Definition banner_for_then_clear (env : Env) (page : Page)
    (opts : CapacityOpts) (R : nat) (w : World) : Prop :=
  (forall h, (polls (history w) <= polls h < polls (history w) + R)%nat ->
             banner_at env page h)
  /\ (forall h, (polls (history w) < polls h <= polls (history w) + R)%nat ->
                reload_ok_at env page opts h)
  /\ (forall h, polls h = (polls (history w) + R)%nat ->
                no_banner_at env page h).

(** From [w] on the banner is there at the next [n] polls, and each
    reload between them works. *)
Definition banner_throughout (env : Env) (page : Page)
    (opts : CapacityOpts) (n : nat) (w : World) : Prop :=
  (forall h, (polls (history w) <= polls h < polls (history w) + n)%nat ->
             banner_at env page h)
  /\ (forall h, (polls (history w) < polls h < polls (history w) + n)%nat ->
                reload_ok_at env page opts h).

(** [detections env page opts n w w']: between [w] and [w'] lie [n]
    cycles, each made of the captcha clicks, a query that found the
    banner, a reload bounded by [timeoutMs] that worked, and a pause of
    [pollingIntervalMs]. *)
Inductive detections (env : Env) (page : Page) (opts : CapacityOpts)
  : nat -> World -> World -> Prop :=
| detections_O w : detections env page opts 0 w w
| detections_S n w w' e found :
    detections env page opts n
      (record_event (Delayed (capacity_pollingIntervalMs opts))
         (record_event
            (Called _ (Reload page "networkidle2" (capacity_timeoutMs opts))
               (Returned tt))
            (record_event
               (Called _ (XPath page capacityXPath) (Returned (e :: found)))
               (captchas_world env page w))))
      w' ->
    detections env page opts (S n) w w'.

(** ** Runs of the guarded wait *)

(** The state of the guarded wait after the events [evs]. *)
Definition race_state (env : Env) (fuel : nat) (page : Page)
    (condition : Promise unit) (opt_ms : option Z) (evs : list RaceEvent)
    (w : World) : Race :=
  (race_run env fuel page condition opt_ms evs race_locals0 w).1.2.

Definition race_world (env : Env) (fuel : nat) (page : Page)
    (condition : Promise unit) (opt_ms : option Z) (evs : list RaceEvent)
    (w : World) : World :=
  (race_run env fuel page condition opt_ms evs race_locals0 w).2.

(** The flag and the settlements agree, and a condition that has
    settled has set the flag. *)
Definition race_inv (r : Race) : Prop :=
  length (settlements r) = (if resolved r then 1 else 0)%nat
  /\ (cond_state r = Settled -> resolved r = true).

(** The guarded wait while its first capacity check is under way. *)
Definition checking_race : Race :=
  {| resolved := false; cond_state := Pending; poller := Checking;
     actions := [DidSetTimeout 500] |}.

(** ** Runs of [getOpenAIAuth] *)

(** The block of [try] with its [catch (err) { throw err }], run on the
    parameters [browser] and [page] as the caller gave them. *)
Definition try_block (env : Env) (fuel : nat) (o : AuthOpts) (w : World)
  : Res OpenAIAuth * AuthLocals * World :=
  try_catch (getOpenAIAuth_try env fuel o) (fun err => throw err)
    {| browser := ao_browser o; page := ao_page o |} w.

(** The last captured cookie with the name [k]. *)
Definition last_named (k : string) (cs : list Cookie) : option Cookie :=
  last (List.filter (fun c => String.eqb (name c) k) cs).

(** The claim's words: the substring after the first occurrence of [c]. *)
Fixpoint substring_after_first (c : ascii) (s : string) : string :=
  match s with
  | EmptyString => EmptyString
  | String a s' => if Ascii.eqb a c then s' else substring_after_first c s'
  end.


(** ** Environments and inputs to run the code on *)

(** A driver where every call works and finds nothing. *)
Definition quiet_answer (R : Type) (op : Op R) : Outcome R :=
  match op in Op R return Outcome R with
  | Launch _ => Returned 1%nat
  | UserAgent _ => Returned "Mozilla/5.0"
  | Pages _ => Returned []
  | NewPage _ => Returned 2%nat
  | Targets _ => Returned []
  | BrowserClose _ => Returned tt
  | SetDefaultTimeout _ _ => Returned tt
  | MinimizePage _ => Returned tt
  | Goto _ _ _ => Returned tt
  | Reload _ _ _ => Returned tt
  | XPath _ _ => Returned []
  | Query _ _ => Returned None
  | WaitForSelector _ _ _ _ => Returned 3%nat
  | WaitForNavigation _ _ _ => Returned tt
  | Click _ _ => Returned tt
  | TypeText _ _ _ _ => Returned tt
  | KeyboardPress _ _ => Returned tt
  | FrameFocus _ _ => Returned tt
  | ElemClick _ _ => Returned tt
  | ElemFocus _ => Returned tt
  | ElemValue _ => Returned None
  | ElemPress _ _ => Returned tt
  | ElemType _ _ => Returned tt
  | Cookies _ => Returned []
  | PageClose _ => Returned tt
  | FindRecaptchas _ => Returned 0%nat
  | SolveRecaptchas _ => Returned 0%nat
  | FetchIp _ => Returned None
  end.

Definition linux : Process :=
  {| CAPTCHA_TOKEN := None; NOPECHA_KEY := None; PROXY_SERVER := None;
     PROXY_VALIDATE_IP := None; PUPPETEER_EXECUTABLE_PATH := None;
     platform := "linux"; chromeExists := true;
     nopechaPath := "/app/third-party/nopecha-chrome-extension" |}.

(** An event loop that lets the timer of a guarded wait fire first and
    the capacity check it starts settle before the condition does. *)
Definition timer_first (n : nat) : RaceEvent :=
  match n with
  | 0%nat => TimerFires
  | 1%nat => CheckSettles
  | _ => CondSettles
  end.

Definition env_of (ans : History -> forall R, Op R -> Outcome R) : Env :=
  {| answer := ans;
     next_event := fun _ => timer_first;
     date_now := fun _ => 0;
     random_int := fun _ lo _ => lo;
     process := linux |}.

Definition quiet_env : Env := env_of (fun _ => quiet_answer).

Definition world0 : World :=
  {| history := []; hasRecaptchaPlugin := false; hasNopechaExtension := false |}.

(** The banner is there at the first [k] polls and gone afterwards. *)
Definition banner_answer (k : nat) (h : History) (R : Type) (op : Op R)
  : Outcome R :=
  match op in Op R return Outcome R with
  | XPath _ _ => if (polls h <? k)%nat then Returned [7%nat] else Returned []
  | op' => quiet_answer _ op'
  end.

(** The banner is there at every poll and every reload fails, as when
    the page is caught in the middle of a navigation. *)
Definition stuck_answer (h : History) (R : Type) (op : Op R) : Outcome R :=
  match op in Op R return Outcome R with
  | XPath _ _ => Returned [7%nat]
  | Reload _ _ _ => Thrown (DriverError "Navigation failed because page was closed")
  | op' => quiet_answer _ op'
  end.

Definition clearance_cookie : Cookie :=
  {| name := "cf_clearance"; value := "clearance-1";
     domain := ".chat.openai.com"; path := "/" |}.

Definition session_cookie : Cookie :=
  {| name := "__Secure-next-auth.session-token"; value := "session-1";
     domain := "chat.openai.com"; path := "/" |}.

(** A page that already holds the cookies of an earlier login. *)
Definition logged_in_answer (h : History) (R : Type) (op : Op R) : Outcome R :=
  match op in Op R return Outcome R with
  | Cookies _ => Returned [clearance_cookie; session_cookie]
  | op' => quiet_answer _ op'
  end.

(** A proxy whose address is not the one [PROXY_VALIDATE_IP] expects. *)
Definition wrong_proxy_env : Env :=
  {| answer := fun _ => quiet_answer;
     next_event := fun _ _ => CondSettles;
     date_now := fun _ => 0;
     random_int := fun _ lo _ => lo;
     process :=
       {| CAPTCHA_TOKEN := None; NOPECHA_KEY := None;
          PROXY_SERVER := Some "10.0.0.1:3128";
          PROXY_VALIDATE_IP := Some "10.0.0.1";
          PUPPETEER_EXECUTABLE_PATH := None;
          platform := "linux"; chromeExists := true;
          nopechaPath := "/app/third-party/nopecha-chrome-extension" |} |}.

(** A proxy that comes out at another address than the one
    [PROXY_VALIDATE_IP] expects. *)
Definition other_proxy_env : Env :=
  {| answer := fun _ R op =>
                 match op in Op R return Outcome R with
                 | FetchIp _ => Returned (Some "203.0.113.7")
                 | op' => quiet_answer _ op'
                 end;
     next_event := fun _ _ => CondSettles;
     date_now := fun _ => 0;
     random_int := fun _ lo _ => lo;
     process := process wrong_proxy_env |}.

(** A primary condition that settles only when the page shows the
    selector. *)
Definition selector_condition (env : Env) (page : Page) : Promise unit :=
  forget (perform env (WaitForSelector page "#__next .btn-primary"
                         (Some 120000) false)).

Definition retries_opts (n : Z) : CapacityOpts :=
  {| co_timeoutMs := None; co_pollingIntervalMs := None; co_retries := Some n |}.

Definition proxy_opts (proxy : option string) : BrowserOpts :=
  {| bo_captchaToken := None; bo_nopechaKey := None;
     bo_executablePath := None; bo_proxyServer := proxy;
     bo_minimize := None; bo_headless := None; bo_args := None;
     bo_ignoreDefaultArgs := None; bo_ignoreHTTPSErrors := None |}.

(** Options of [getOpenAIAuth] with nothing supplied. *)
Definition auth_opts0 : AuthOpts :=
  {| ao_email := None; ao_password := None; ao_browser := None;
     ao_page := None; ao_timeoutMs := None; ao_isGoogleLogin := None;
     ao_isMicrosoftLogin := None; ao_captchaToken := None;
     ao_nopechaKey := None; ao_executablePath := None;
     ao_proxyServer := None; ao_minimize := None |}.

(** The same options with an email and a password. *)
Definition with_login (o : AuthOpts) : AuthOpts :=
  {| ao_email := Some "me@example.com"; ao_password := Some "hunter2";
     ao_browser := ao_browser o; ao_page := ao_page o;
     ao_timeoutMs := ao_timeoutMs o; ao_isGoogleLogin := ao_isGoogleLogin o;
     ao_isMicrosoftLogin := ao_isMicrosoftLogin o;
     ao_captchaToken := ao_captchaToken o; ao_nopechaKey := ao_nopechaKey o;
     ao_executablePath := ao_executablePath o;
     ao_proxyServer := ao_proxyServer o; ao_minimize := ao_minimize o |}.

(** The caller's browser and, when [p] is given, the caller's page. *)
Definition auth_opts_with (b : Browser) (p : option Page) : AuthOpts :=
  {| ao_email := None; ao_password := None; ao_browser := Some b;
     ao_page := p; ao_timeoutMs := None; ao_isGoogleLogin := None;
     ao_isMicrosoftLogin := None; ao_captchaToken := None;
     ao_nopechaKey := None; ao_executablePath := None;
     ao_proxyServer := None; ao_minimize := None |}.

(** * The vocabulary of the further properties *)

(** ** What [solveSimpleCaptchas] leaves behind *)

Definition verifySelector : string := "text=Verify you are human".
Definition hcaptchaSelector : string := ".hcaptcha-box".

(** The events [solveSimpleCaptchas] can add on [page]: a query for one
    of its two selectors, a click with a delay on an element, and the
    pauses around a click. *)
Definition is_captcha_event (page : Page) (ev : Event) : bool :=
  match ev with
  | Called _ (Query p sel) _ =>
      Nat.eqb p page
      && (String.eqb sel verifySelector || String.eqb sel hcaptchaSelector)
  | Called _ (ElemClick _ (Some _)) _ => true
  | Delayed ms => ((ms =? 2000) || (ms =? 1000))%Z
  | _ => false
  end.

(** The elements clicked and the elements a query returned. *)
Definition clicked (ev : Event) : option Elem :=
  match ev with
  | Called _ (ElemClick e _) _ => Some e
  | _ => None
  end.

Definition found (ev : Event) : option Elem :=
  match ev with
  | Called R op out =>
      match op in Op R return Outcome R -> option Elem with
      | Query _ _ => fun out =>
          match out with
          | Returned (Some e) => Some e
          | _ => None
          end
      | _ => fun _ => None
      end out
  | _ => None
  end.

(** A call that threw. *)
Definition is_thrown (ev : Event) : bool :=
  match ev with
  | Called _ _ (Thrown _) => true
  | _ => false
  end.

(** The selectors queried, newest first. *)
Definition queried (ev : Event) : option string :=
  match ev with
  | Called _ (Query _ sel) _ => Some sel
  | _ => None
  end.

(** ** What the capacity guard has seen and done *)

(** What a query for the banner that returned has seen: [Some true] when
    it found the banner, [Some false] when it did not; [None] for every
    other event, a query that threw among them. *)
Definition banner_seen (ev : Event) : option bool :=
  match ev with
  | Called R op out =>
      match op in Op R return Outcome R -> option bool with
      | XPath _ _ => fun out =>
          match out with
          | Returned res => Some (negb (Nat.eqb (length res) 0))
          | Thrown _ => None
          end
      | _ => fun _ => None
      end out
  | _ => None
  end.

(** The answers of the banner queries that returned, newest first. *)
Definition banner_answers (h : History) : list bool := omap banner_seen h.

Definition is_reload (ev : Event) : bool :=
  match ev with
  | Called _ (Reload _ _ _) _ => true
  | _ => false
  end.

Definition reloads (h : History) : nat := length (List.filter is_reload h).

(** The queries that found the banner. *)
Definition sightings (h : History) : nat :=
  length (List.filter (fun b : bool => b) (banner_answers h)).

(** ** The polling loop of [waitForRecaptcha] *)

Definition recaptchaSelector : string := "textarea#g-recaptcha-response".

Definition recaptchaTimeout : Err :=
  TimeoutError "Timed out waiting to solve Recaptcha".

(** The body of the [do ... while (true)] loop. *)
Definition recaptcha_cycle (env : Env) (c : Elem) (pollingIntervalMs : Z)
    (timeoutMs : option Z) (startTime : Z) : M unit unit :=
  v ← call env (ElemValue c);
  when (truthy (trim <$> v)) break;;
  when (truthy_number timeoutMs)
    (t ← now env;
     when (t - startTime >=? default 0 timeoutMs) (throw recaptchaTimeout));;
  delay pollingIntervalMs.

Definition recaptcha_loop (env : Env) (fuel : nat) (c : Elem)
    (pollingIntervalMs : Z) (timeoutMs : option Z) (startTime : Z)
  : M unit unit :=
  do_while fuel (recaptcha_cycle env c pollingIntervalMs timeoutMs startTime)
    (fun _ => true).

(** The world in which the loop starts: the captcha clicks are done and
    the query has found the response field [c]. *)
Definition recaptcha_found (env : Env) (page : Page) (c : Elem) (w : World)
  : World :=
  record_event (Called _ (Query page recaptchaSelector) (Returned (Some c)))
    (captchas_world env page w).

(** The time [waitForRecaptcha] takes as [startTime]. *)
Definition recaptcha_start (env : Env) (page : Page) (c : Elem) (w : World)
  : Z :=
  date_now env (history (recaptcha_found env page c w)).

(** A value of the response field that does not count as a solution:
    [undefined], empty, or white space only. *)
Definition unsolved (v : option string) : bool := negb (truthy (trim <$> v)).

Definition is_value_read (ev : Event) : bool :=
  match ev with
  | Called _ (ElemValue _) _ => true
  | _ => false
  end.

Definition value_reads (h : History) : nat :=
  length (List.filter is_value_read h).

(** From [w] on the next [n] reads of the field return no solution. *)
Definition unsolved_for (env : Env) (c : Elem) (n : nat) (w : World) : Prop :=
  forall h,
    (value_reads (history w) <= value_reads h < value_reads (history w) + n)%nat ->
    exists v, answer env h _ (ElemValue c) = Returned v /\ unsolved v = true.

(** The read after them returns a solution. *)
Definition solved_after (env : Env) (c : Elem) (n : nat) (w : World) : Prop :=
  forall h,
    value_reads h = (value_reads (history w) + n)%nat ->
    exists v, answer env h _ (ElemValue c) = Returned v /\ unsolved v = false.

(** After each of the next [n] reads the clock is less than [T] past
    [start]. *)
Definition in_time_for (env : Env) (start T : Z) (n : nat) (w : World) : Prop :=
  forall h,
    (value_reads (history w) < value_reads h <= value_reads (history w) + n)%nat ->
    date_now env h - start < T.

(** After the read number [n] the clock is [T] or more past [start]. *)
Definition expired_after (env : Env) (start T : Z) (n : nat) (w : World)
  : Prop :=
  forall h,
    value_reads h = (value_reads (history w) + n)%nat ->
    T <= date_now env h - start.

(** [waiting c ms n w w']: between [w] and [w'] lie [n] reads of the
    field that found no solution, each followed by a pause of [ms]. *)
Inductive waiting (c : Elem) (ms : Z) : nat -> World -> World -> Prop :=
| waiting_O w : waiting c ms 0 w w
| waiting_S n w w' v :
    unsolved v = true ->
    waiting c ms n
      (record_event (Delayed ms)
         (record_event (Called _ (ElemValue c) (Returned v)) w))
      w' ->
    waiting c ms (S n) w w'.

(** A no-break space (U+00A0). *)
Definition nbsp : string :=
  String (ascii_of_nat 194) (String (ascii_of_nat 160) EmptyString).

(** A response field that is never filled in, and one that holds a
    space and a no-break space until it is filled in at the read number
    [k] (counting from 0); the clock advances by 40 with each read. *)
Definition unsolved_env : Env :=
  {| answer := fun h R op =>
                 match op in Op R return Outcome R with
                 | Query _ _ => Returned (Some 5%nat)
                 | op' => quiet_answer _ op'
                 end;
     next_event := fun _ _ => CondSettles;
     date_now := fun h => 40 * Z.of_nat (value_reads h);
     random_int := fun _ lo _ => lo;
     process := linux |}.

Definition solved_env (k : nat) : Env :=
  {| answer := fun h R op =>
                 match op in Op R return Outcome R with
                 | Query _ _ => Returned (Some 5%nat)
                 | ElemValue _ =>
                     if (value_reads h <? k)%nat
                     then Returned (Some (" " +:+ nbsp))
                     else Returned (Some "03AGdBq2")
                 | op' => quiet_answer _ op'
                 end;
     next_event := fun _ _ => CondSettles;
     date_now := fun h => 40 * Z.of_nat (value_reads h);
     random_int := fun _ lo _ => lo;
     process := linux |}.

Definition world_with_nopecha : World :=
  {| history := []; hasRecaptchaPlugin := false; hasNopechaExtension := true |}.

(** ** The set-up of the NopeCHA extension *)

(** The page [initializeNopechaExtension] opens first. *)
Definition setupUrl (nopechaKey : option string) : string :=
  "https://nopecha.com/setup#" +:+ template nopechaKey.

Definition popupUrl (extensionId : string) : string :=
  "chrome-extension://" +:+ extensionId +:+ "/popup.html".

(** The branch [if (extensionId) { ... }]. *)
Definition nopecha_popup (env : Env) {L} (page : Page)
    (nopechaKey : option string) (extensionId : string) : M L unit :=
  call env (Goto page (popupUrl extensionId) (Some "networkidle2"));;
  editKey ← call env (WaitForSelector page "#edit_key .clickable" None false);
  call env (ElemClick editKey None);;
  settingsInput ← call env (WaitForSelector page "input.settings_text" None false);
  value ← call env (ElemValue settingsInput);
  when (negb (bool_decide (value = nopechaKey)))
    (times 31 (call env (ElemPress settingsInput "Backspace"));;
     call env (ElemType settingsInput (template nopechaKey));;
     call env (ElemPress settingsInput "Enter");;
     delay 500;;
     call env (ElemClick editKey None);;
     delay 2000).

(** [targets.map(...)] followed by [.filter(Boolean)], for targets whose
    urls [new URL] accepts: the host names of the service workers, the
    empty ones left out. *)
Definition is_service_worker (t : Target) : bool :=
  String.eqb (target_type t) "service_worker".

Definition hostnames (targets : list Target) : list string :=
  List.filter (fun h => negb (String.eqb h ""))
    (omap target_hostname (List.filter is_service_worker targets)).

(** What is typed into an element, the values read from one, the keys
    pressed on one, the targets listed and the pages opened with
    [waitUntil: 'networkidle2']. *)
Definition typed (ev : Event) : option (Elem * string) :=
  match ev with
  | Called _ (ElemType e text) _ => Some (e, text)
  | _ => None
  end.

Definition value_seen (ev : Event) : option (option string) :=
  match ev with
  | Called R op out =>
      match op in Op R return Outcome R -> option (option string) with
      | ElemValue _ => fun out =>
          match out with
          | Returned v => Some v
          | Thrown _ => None
          end
      | _ => fun _ => None
      end out
  | _ => None
  end.

Definition pressed (ev : Event) : option string :=
  match ev with
  | Called _ (ElemPress _ key) _ => Some key
  | _ => None
  end.

Definition targets_seen (ev : Event) : option (list Target) :=
  match ev with
  | Called R op out =>
      match op in Op R return Outcome R -> option (list Target) with
      | Targets _ => fun out =>
          match out with
          | Returned ts => Some ts
          | Thrown _ => None
          end
      | _ => fun _ => None
      end out
  | _ => None
  end.

Definition opened_idle (ev : Event) : option string :=
  match ev with
  | Called _ (Goto _ url (Some _)) _ => Some url
  | _ => None
  end.

(** The number of times [key] was pressed. *)
Definition presses (key : string) (h : History) : nat :=
  length (List.filter (String.eqb key) (omap pressed h)).

(** The calls [initializeNopechaExtension] makes outside its [try]:
    getting the page of [b], minimizing it, and opening the set-up url. *)
Definition is_setup_call (b : Browser) (url : string) (R : Type) (op : Op R)
  : bool :=
  match op with
  | Pages b' | NewPage b' => Nat.eqb b' b
  | MinimizePage _ => true
  | Goto _ url' None => String.eqb url' url
  | _ => false
  end.

(** The error of a call that threw, when the call is one of those. *)
Definition setup_failure (b : Browser) (url : string) (ev : Event)
  : option Err :=
  match ev with
  | Called R op (Thrown e) => if is_setup_call b url R op then Some e else None
  | _ => None
  end.

(** How the key gets into the settings field: nothing is typed, or the
    key is typed once, after a read of the field that gave another value
    and 31 presses of Backspace; a read that gave the key itself is
    followed by no key press and no typing. *)
Definition nopecha_typing (key : option string) (new : History) : Prop :=
  (omap typed new = []
   \/ exists s v,
        omap typed new = [(s, template key)]
        /\ omap value_seen new = [v]
        /\ v <> key
        /\ presses "Backspace" new = 31%nat)
  /\ (omap value_seen new = [key] ->
      omap pressed new = [] /\ omap typed new = []).

(** The three ways a run of [initializeNopechaExtension] with the flag
    set can end: with the error of one of the calls before the [try],
    which is then the last call made; normally, without a visit of the
    popup, when the targets could not be listed or gave no extension id;
    normally, after a visit of the popup of the first extension id. *)
Definition nopecha_outcome (b : Browser) (key : option string)
    (r : Res unit) (new : History) : Prop :=
  (exists e,
      r = Exn e
      /\ head new ≫= setup_failure b (setupUrl key) = Some e
      /\ omap targets_seen new = []
      /\ omap opened_idle new = []
      /\ omap typed new = []
      /\ omap value_seen new = [])
  \/ (r = Val tt
      /\ omap opened_idle new = []
      /\ omap typed new = []
      /\ omap value_seen new = []
      /\ (omap targets_seen new = []
          \/ exists ts,
               omap targets_seen new = [ts]
               /\ (extensionIds ts = None \/ extensionIds ts = Some [])))
  \/ (r = Val tt
      /\ exists ts id ids,
           omap targets_seen new = [ts]
           /\ extensionIds ts = Some (id :: ids)
           /\ omap opened_idle new = [popupUrl id]
           /\ nopecha_typing key new).

(** ** Relations between the world before and after a statement *)

(** Running [m] takes every world to one that [Rel] relates to it. *)
Definition steps {L A} (Rel : World -> World -> Prop) (m : M L A) : Prop :=
  forall l w, Rel w (m l w).2.

Definition promise_steps {A} (Rel : World -> World -> Prop) (p : Promise A)
  : Prop :=
  forall w, Rel w (p w).2.

(** The world has changed by new events only, all of them in [ok]. *)
Definition only (ok : Event -> bool) (w w' : World) : Prop :=
  exists new,
    history w' = new ++ history w /\ Forall (fun ev => ok ev = true) new.

(** The module flags are as they were. *)
Definition flags_kept (w w' : World) : Prop :=
  hasRecaptchaPlugin w' = hasRecaptchaPlugin w
  /\ hasNopechaExtension w' = hasNopechaExtension w.

(** The calls that set a browser or a page up ([puppeteer.launch],
    [page.setDefaultTimeout], [minimizePage]) and the one that types a
    text into a field of the page ([page.type]). *)
Definition is_setup_op (R : Type) (op : Op R) : bool :=
  match op with
  | Launch _ | SetDefaultTimeout _ _ | MinimizePage _ => true
  | TypeText _ _ _ _ => true
  | _ => false
  end.

(** The fields the login types into, each with the text it is for: the
    email goes into the email field of the provider or into [#username],
    the password into the password field of the provider or into
    [#password].  Selectors are written without their inner quotation
    marks. *)
Definition credential_field (email password selector text : string) : bool :=
  String.eqb text email
  && (String.eqb selector "input[type=email]" || String.eqb selector "#username")
  || String.eqb text password
     && (String.eqb selector "input[type=password]"
         || String.eqb selector "#password").

(** The calls that type a text: [page.type] and [handle.type]. *)
Definition is_typing_op (R : Type) (op : Op R) : bool :=
  match op with
  | TypeText _ _ _ _ | ElemType _ _ => true
  | _ => false
  end.

(** A [page.type] into another field or of another text than the
    credentials, or a [handle.type] of another text than [key]. *)
Definition types_other (email password key : string) (R : Type) (op : Op R)
  : bool :=
  match op with
  | TypeText _ selector text _ =>
      negb (credential_field email password selector text)
  | ElemType _ text => negb (String.eqb text key)
  | _ => false
  end.

Definition is_launch (ev : Event) : bool :=
  match ev with
  | Called _ (Launch _) _ => true
  | _ => false
  end.

Definition is_plugin_use (ev : Event) : bool :=
  match ev with
  | PluginUsed _ => true
  | _ => false
  end.

Definition is_page_setup (ev : Event) : bool :=
  match ev with
  | Called _ (SetDefaultTimeout _ _) _ | Called _ (MinimizePage _) _ => true
  | _ => false
  end.

(** How often [puppeteer.use(RecaptchaPlugin(...))] has run, and how
    often [puppeteer.launch]. *)
Definition plugin_uses (h : History) : nat :=
  length (List.filter is_plugin_use h).

Definition launches (h : History) : nat := length (List.filter is_launch h).

(** The reCAPTCHA plugin is registered at most once, and only with the
    flag set. *)
Definition plugin_once (w : World) : Prop :=
  (plugin_uses (history w) <= if hasRecaptchaPlugin w then 1 else 0)%nat.

(** A flag that is set stays set, and [plugin_once] is kept. *)
Definition flags_grow (w w' : World) : Prop :=
  (hasRecaptchaPlugin w = true -> hasRecaptchaPlugin w' = true)
  /\ (hasNopechaExtension w = true -> hasNopechaExtension w' = true)
  /\ (plugin_once w -> plugin_once w').

(** Two relations at once. *)
Definition both (R1 R2 : World -> World -> Prop) (w w' : World) : Prop :=
  R1 w w' /\ R2 w w'.

(** The part of [getBrowser] before the launch: the registration of the
    reCAPTCHA plugin and the two module flags. *)
Definition getBrowser_flags (env : Env) {L} (opts : BrowserOpts) : M L unit :=
  let captchaToken :=
    or_default (bo_captchaToken opts) (CAPTCHA_TOKEN (process env)) in
  let nopechaKey := or_default (bo_nopechaKey opts) (NOPECHA_KEY (process env)) in
  hasPlugin ← read_world hasRecaptchaPlugin;
  when (truthy captchaToken && negb hasPlugin)
    (write_world (set_hasRecaptchaPlugin true);;
     write_world (record_event (PluginUsed (template captchaToken))));;
  when (truthy nopechaKey) (write_world (set_hasNopechaExtension true)).

(** The part after it. *)
Definition getBrowser_launched (env : Env) {L} (opts : BrowserOpts)
    (browser : Browser) : M L Browser :=
  let nopechaKey := or_default (bo_nopechaKey opts) (NOPECHA_KEY (process env)) in
  let minimize := default false (bo_minimize opts) in
  validateProxyIp env browser minimize;;
  initializeNopechaExtension env browser (Some minimize) nopechaKey;;
  mret browser.

(** Options of [getBrowser] with a captcha token and a NopeCHA key. *)
Definition keyed_opts (captchaToken nopechaKey : option string) : BrowserOpts :=
  {| bo_captchaToken := captchaToken; bo_nopechaKey := nopechaKey;
     bo_executablePath := None; bo_proxyServer := None;
     bo_minimize := None; bo_headless := None; bo_args := None;
     bo_ignoreDefaultArgs := None; bo_ignoreHTTPSErrors := None |}.

(** The paths [defaultChromeExecutablePath] chooses from. *)
Definition chromePaths : list string :=
  [ "C:\Program Files\Google\Chrome\Application\chrome.exe";
    "/Applications/Google Chrome.app/Contents/MacOS/Google Chrome";
    "/usr/bin/google-chrome";
    "/usr/bin/google-chrome-stable" ].

(** A proxy whose address is the one [PROXY_VALIDATE_IP] expects. *)
Definition right_proxy_env : Env :=
  {| answer := fun _ R op =>
                 match op in Op R return Outcome R with
                 | FetchIp _ => Returned (Some "10.0.0.1")
                 | op' => quiet_answer _ op'
                 end;
     next_event := fun _ _ => CondSettles;
     date_now := fun _ => 0;
     random_int := fun _ lo _ => lo;
     process := process wrong_proxy_env |}.

(** The error [getBrowser] throws when the fetch of the address settled
    with [out] and [expected] was to be found. *)
Definition proxyError (expected : string) (out : Outcome (option string))
  : Err :=
  match out with
  | Thrown err => Error ("Proxy IP validation failed: " +:+ err_toString err)
  | Returned ip =>
      Error ("Proxy IP mismatch: " +:+ template ip +:+ " !== " +:+ expected)
  end.

(** A browser that has a page open already. *)
Definition tabbed_env : Env :=
  env_of (fun _ R op =>
            match op in Op R return Outcome R with
            | Pages _ => Returned [4%nat]
            | op' => quiet_answer _ op'
            end).

(** The options of [getOpenAIAuth] with other values for the ones it
    only hands on to [getBrowser]. *)
Definition with_browser_options
    (captchaToken nopechaKey executablePath proxyServer : option string)
    (o : AuthOpts) : AuthOpts :=
  {| ao_email := ao_email o; ao_password := ao_password o;
     ao_browser := ao_browser o; ao_page := ao_page o;
     ao_timeoutMs := ao_timeoutMs o; ao_isGoogleLogin := ao_isGoogleLogin o;
     ao_isMicrosoftLogin := ao_isMicrosoftLogin o;
     ao_captchaToken := captchaToken; ao_nopechaKey := nopechaKey;
     ao_executablePath := executablePath;
     ao_proxyServer := proxyServer; ao_minimize := ao_minimize o |}.

(** The options with another value for [minimize]. *)
Definition with_minimize (minimize : option bool) (o : AuthOpts) : AuthOpts :=
  {| ao_email := ao_email o; ao_password := ao_password o;
     ao_browser := ao_browser o; ao_page := ao_page o;
     ao_timeoutMs := ao_timeoutMs o; ao_isGoogleLogin := ao_isGoogleLogin o;
     ao_isMicrosoftLogin := ao_isMicrosoftLogin o;
     ao_captchaToken := ao_captchaToken o; ao_nopechaKey := ao_nopechaKey o;
     ao_executablePath := ao_executablePath o;
     ao_proxyServer := ao_proxyServer o; ao_minimize := minimize |}.

(** Neither a launch nor a registration of the plugin. *)
Definition no_browser_setup (ev : Event) : bool :=
  negb (is_launch ev) && negb (is_plugin_use ev).

(** [getOpenAIAuth] on a browser that is there already, and on a page
    that is. *)
Definition getOpenAIAuth_on_browser (env : Env) {L} (fuel : nat) (o : AuthOpts)
    (b : Browser) : M L OpenAIAuth :=
  call_fn {| browser := Some b; page := ao_page o |}
    (try_finally
       (try_catch (with_browser env fuel o b) (fun err => throw err))
       (getOpenAIAuth_finally env (Some b) (ao_page o))).

Definition getOpenAIAuth_on_page (env : Env) {L} (fuel : nat) (o : AuthOpts)
    (p : Page) : M L OpenAIAuth :=
  call_fn {| browser := ao_browser o; page := Some p |}
    (try_finally
       (try_catch
          (b ← ensure_browser env o;
           userAgent ← call env (UserAgent b);
           authenticate env fuel o p userAgent)
          (fun err => throw err))
       (getOpenAIAuth_finally env (ao_browser o) (Some p))).

(** What the [finally] of [getOpenAIAuth] closes, if anything. *)
Definition closing (origBrowser : option Browser) (origPage : option Page)
    (loc : AuthLocals) : option (Op unit) :=
  match origBrowser with
  | Some _ =>
      match page loc with
      | Some p =>
          if bool_decide (Some p = origPage) then None else Some (PageClose p)
      | None => None
      end
  | None =>
      match browser loc with
      | Some b => Some (BrowserClose b)
      | None => None
      end
  end.

(** A browser whose [close] fails. *)
Definition unclosable_env : Env :=
  env_of (fun _ R op =>
            match op in Op R return Outcome R with
            | BrowserClose _ => Thrown (DriverError "Target closed")
            | Cookies _ => Returned [clearance_cookie]
            | op' => quiet_answer _ op'
            end).

(** Options of [getOpenAIAuth] with an email and a password. *)
Definition login_opts (email password : string) (google : bool) : AuthOpts :=
  {| ao_email := Some email; ao_password := Some password;
     ao_browser := None; ao_page := None; ao_timeoutMs := None;
     ao_isGoogleLogin := Some google; ao_isMicrosoftLogin := None;
     ao_captchaToken := None; ao_nopechaKey := None;
     ao_executablePath := None; ao_proxyServer := None;
     ao_minimize := None |}.

(** A browser in which the NopeCHA extension runs and already holds the
    key, and one whose service worker has a url that [new URL] rejects. *)
Definition nopecha_worker : Target :=
  {| target_type := "service_worker";
     target_hostname := Some "dknlfmjaanfblgfdfebhijalfmhmjjjo" |}.

Definition broken_worker : Target :=
  {| target_type := "service_worker"; target_hostname := None |}.

Definition nopecha_env : Env :=
  env_of (fun _ R op =>
            match op in Op R return Outcome R with
            | Targets _ => Returned [nopecha_worker]
            | ElemValue _ => Returned (Some "nopecha-key")
            | op' => quiet_answer _ op'
            end).

Definition broken_worker_env : Env :=
  env_of (fun _ R op =>
            match op in Op R return Outcome R with
            | Targets _ => Returned [nopecha_worker; broken_worker]
            | op' => quiet_answer _ op'
            end).



(** * Properties *)

(** ** The capacity guard: [checkForChatGPTAtCapacity] *)

Arguments record_event : simpl never.

Ltac unfold_m :=
  unfold mbind, M_bind, mret, M_ret, call, await, perform, delay, random, now,
    read, assign, throw, break, diverge, read_world, write_world,
    try_catch, call_fn, when in *.

Lemma extends_by_refl w : extends_by [] w w.
Proof. by repeat split. Qed.

Lemma extends_by_record ev new w w' :
  extends_by new w w' -> extends_by (ev :: new) w (record_event ev w').
Proof.
  intros (Hh & Hp & Hn). repeat split; simpl; try done. by rewrite Hh.
Qed.

Lemma extends_by_trans new1 new2 w1 w2 w3 :
  extends_by new1 w1 w2 -> extends_by new2 w2 w3 ->
  extends_by (new2 ++ new1) w1 w3.
Proof.
  intros (Hh & Hp & Hn) (Hh' & Hp' & Hn'). repeat split; try congruence.
  by rewrite Hh', Hh, app_assoc.
Qed.

Lemma polls_app h1 h2 : polls (h1 ++ h2) = (polls h1 + polls h2)%nat.
Proof. unfold polls. by rewrite List.filter_app, length_app. Qed.

(** *** [solveSimpleCaptchas] swallows every error and never polls *)

Ltac settle_answers :=
  repeat (cbn beta iota delta [fst snd];
          match goal with
          | |- context [match answer ?e ?h ?R ?op with _ => _ end] =>
              destruct (answer e h R op) as [?|?] eqn:?
          | |- context [match ?x with Some _ => _ | None => _ end] =>
              is_var x; destruct x
          end).

Ltac extends_by_events :=
  repeat apply extends_by_record; apply extends_by_refl.

Lemma solveSimpleCaptchas_spec env page w :
  exists w' new,
    solveSimpleCaptchas env page tt w = (Val tt, tt, w')
    /\ extends_by new w w'
    /\ no_guard_calls new.
Proof.
  unfold solveSimpleCaptchas, click_when_present. unfold_m.
  settle_answers;
    (eexists _, _; split; [reflexivity|]; split;
     [extends_by_events|repeat constructor]).
Qed.

Lemma captchas_world_spec env page w :
  exists new,
    solveSimpleCaptchas env page tt w = (Val tt, tt, captchas_world env page w)
    /\ extends_by new w (captchas_world env page w)
    /\ no_guard_calls new.
Proof.
  destruct (solveSimpleCaptchas_spec env page w) as (w' & new & Heq & Hext & Hp).
  unfold captchas_world. rewrite Heq. by exists new.
Qed.

Lemma no_guard_calls_polls new : no_guard_calls new -> polls new = 0%nat.
Proof.
  induction 1 as [|ev new Hev _ IH]; [done|].
  change (ev :: new) with ([ev] ++ new). rewrite polls_app, IH.
  destruct ev as [R op out| |]; try done. by destruct op.
Qed.

Lemma no_guard_calls_failed new ev :
  no_guard_calls new -> ev ∈ new -> is_failed_poll ev = false.
Proof.
  intros Hnew Hin. unfold no_guard_calls in Hnew.
  rewrite Forall_forall in Hnew. specialize (Hnew _ Hin).
  destruct ev as [R op out| |]; try done. by destruct op.
Qed.

Lemma captchas_world_polls env page w :
  polls (history (captchas_world env page w)) = polls (history w).
Proof.
  destruct (captchas_world_spec env page w) as (new & _ & (Hh & _) & Hg).
  by rewrite Hh, polls_app, (no_guard_calls_polls _ Hg).
Qed.

Lemma capacity_cycle_cases env page opts l w :
  capacity_cycle env page opts l w =
  match poll_answer env page w with
  | Thrown _ => (Brk, incr_numTries l, polled env page w)
  | Returned [] => (Val tt, set_isAtCapacity false l, polled env page w)
  | Returned (_ :: _) =>
      let l1 := incr_numTries (set_isAtCapacity true l) in
      if numTries l + 1 >=? capacity_retries opts
      then (Brk, l1, polled env page w)
      else match reload_answer env page opts w with
           | Thrown _ => (Brk, incr_numTries l1, reloaded env page opts w)
           | Returned _ =>
               (Val tt, l1,
                record_event (Delayed (capacity_pollingIntervalMs opts))
                  (reloaded env page opts w))
           end
  end.
Proof.
  unfold reloaded, reload_answer, polled, poll_answer.
  destruct (captchas_world_spec env page w) as (new & Heq & _).
  unfold capacity_cycle. unfold_m. rewrite Heq. cbn beta iota.
  destruct (answer env _ _ (XPath page capacityXPath)) as [[|e found]|err];
    cbn; [done| |done].
  destruct (numTries l + 1 >=? capacity_retries opts); [done|].
  by destruct (answer env _ _ (Reload _ _ _)) as [[]|err'].
Qed.

Lemma polled_extends env page w :
  exists newc,
    no_guard_calls newc
    /\ extends_by (Called _ (XPath page capacityXPath) (poll_answer env page w) :: newc)
         w (polled env page w).
Proof.
  destruct (captchas_world_spec env page w) as (newc & _ & Hext & Hg).
  exists newc. split; [done|]. by apply extends_by_record.
Qed.

Lemma polls_cons_guardless ev newc :
  no_guard_calls newc -> polls (ev :: newc) = if is_poll ev then 1%nat else 0%nat.
Proof.
  intros Hg. change (ev :: newc) with ([ev] ++ newc).
  rewrite polls_app, (no_guard_calls_polls _ Hg), Nat.add_0_r.
  unfold polls. simpl. by destruct (is_poll ev).
Qed.

Lemma capacity_loop_bounded env page opts fuel :
  forall l w,
    (cycles_left opts (numTries l) <= fuel)%nat ->
    exists l' w' new,
      capacity_loop env fuel page opts l w = (Val tt, l', w')
      /\ extends_by new w w'
      /\ (1 <= polls new <= cycles_left opts (numTries l))%nat
      /\ (forall ev, ev ∈ new -> is_failed_poll ev = true -> head new = Some ev).
Proof.
  unfold capacity_loop, cycles_left.
  induction fuel as [|fuel IH]; intros l w Hfuel; [lia|].
  destruct (polled_extends env page w) as (newc & Hg & Hext).
  cbn [do_while]. rewrite capacity_cycle_cases.
  destruct (poll_answer env page w) as [[|e found]|err] eqn:Hpoll.
  - (* no banner *)
    cbn. eexists _, _, _. split; [done|]. split; [exact Hext|].
    rewrite (polls_cons_guardless _ _ Hg). cbn. split; [lia|].
    intros ev [->|Hin]%elem_of_cons Hf; [done|].
    by rewrite (no_guard_calls_failed _ _ Hg Hin) in Hf.
  - (* banner *)
    cbn zeta.
    destruct (numTries l + 1 >=? capacity_retries opts) eqn:Hbudget.
    + eexists _, _, _. split; [done|]. split; [exact Hext|].
      rewrite (polls_cons_guardless _ _ Hg). cbn. split; [lia|].
      intros ev [->|Hin]%elem_of_cons Hf; [done|].
      by rewrite (no_guard_calls_failed _ _ Hg Hin) in Hf.
    + pose proof (extends_by_record
        (Called _ (Reload page "networkidle2" (capacity_timeoutMs opts))
           (reload_answer env page opts w)) _ _ _ Hext) as Hext2.
      fold (reloaded env page opts w) in Hext2.
      destruct (reload_answer env page opts w) as [[]|err] eqn:Hreload.
      * (* the loop goes on *)
        cbn [isAtCapacity incr_numTries set_isAtCapacity].
        set (l1 := incr_numTries (set_isAtCapacity true l)).
        set (w3 := record_event _ (reloaded env page opts w)).
        assert (Hl1 : numTries l1 = numTries l + 1) by done.
        destruct (IH l1 w3) as (l' & w' & new & Heq & Hext' & Hp & Hfail).
        { rewrite Hl1. lia. }
        rewrite Heq. eexists _, _, _. split; [done|].
        split.
        { eapply extends_by_trans; [|exact Hext'].
          apply extends_by_record. exact Hext2. }
        rewrite polls_app.
        change (polls _ + polls (?a :: ?b :: ?c :: newc))%nat
          with (polls new + polls ([a; b] ++ c :: newc))%nat.
        rewrite polls_app, (polls_cons_guardless _ _ Hg). cbn.
        rewrite Hl1 in Hp. split; [lia|].
        intros ev [Hin|Hin]%elem_of_app Hf.
        -- specialize (Hfail _ Hin Hf). destruct new; [done|]. exact Hfail.
        -- apply elem_of_cons in Hin as [->|Hin]; [done|].
           apply elem_of_cons in Hin as [->|Hin]; [done|].
           apply elem_of_cons in Hin as [->|Hin]; [done|].
           by rewrite (no_guard_calls_failed _ _ Hg Hin) in Hf.
      * eexists _, _, _. split; [done|]. split; [exact Hext2|].
        change (?a :: ?b :: newc) with ([a] ++ b :: newc).
        rewrite polls_app, (polls_cons_guardless _ _ Hg). cbn. split; [lia|].
        intros ev [->|Hin]%elem_of_cons Hf; [done|].
        apply elem_of_cons in Hin as [->|Hin]; [done|].
        by rewrite (no_guard_calls_failed _ _ Hg Hin) in Hf.
  - (* the query threw *)
    eexists _, _, _. split; [done|]. split; [exact Hext|].
    rewrite (polls_cons_guardless _ _ Hg). cbn. split; [lia|].
    intros ev [->|Hin]%elem_of_cons Hf; [done|].
    by rewrite (no_guard_calls_failed _ _ Hg Hin) in Hf.
Qed.

Lemma polls_record ev w :
  polls (history (record_event ev w))
  = ((if is_poll ev then 1 else 0) + polls (history w))%nat.
Proof.
  unfold record_event. cbn [history].
  change (ev :: history w) with ([ev] ++ history w). rewrite polls_app.
  unfold polls. simpl. by destruct (is_poll ev).
Qed.

Lemma max_cycles_left opts : cycles_left opts 0 = max_cycles opts.
Proof. unfold cycles_left, max_cycles. by rewrite Z.sub_0_r. Qed.

(** *** The loop under a banner that stays for [R] cycles *)

Lemma capacity_loop_detects env page opts R :
  forall fuel l w,
    (R < fuel)%nat ->
    numTries l + Z.of_nat R < capacity_retries opts ->
    banner_for_then_clear env page opts R w ->
    exists w1,
      detections env page opts R w w1
      /\ capacity_loop env fuel page opts l w
         = (Val tt,
            {| isAtCapacity := false; numTries := numTries l + Z.of_nat R |},
            record_event (Called _ (XPath page capacityXPath) (Returned []))
              (captchas_world env page w1)).
Proof.
  unfold capacity_loop.
  induction R as [|R IH]; intros fuel l w Hfuel Hbudget (Hshow & Hreload & Hclear);
    unfold no_banner_at, reload_ok_at in Hreload, Hclear.
  - destruct fuel as [|fuel]; [lia|].
    exists w. split; [constructor|].
    cbn [do_while]. rewrite capacity_cycle_cases.
    unfold polled, poll_answer.
    rewrite (Hclear (history (captchas_world env page w))).
    2: { rewrite captchas_world_polls. lia. }
    cbn. by rewrite Z.add_0_r.
  - destruct fuel as [|fuel]; [lia|].
    cbn [do_while]. rewrite capacity_cycle_cases.
    unfold reloaded, reload_answer, polled, poll_answer.
    destruct (Hshow (history (captchas_world env page w))) as (e & found & Hans).
    { rewrite captchas_world_polls. lia. }
    rewrite Hans. cbn zeta.
    replace (numTries l + 1 >=? capacity_retries opts) with false by lia.
    rewrite Hreload.
    2: { rewrite polls_record, captchas_world_polls. cbn. lia. }
    cbn [isAtCapacity incr_numTries set_isAtCapacity].
    set (w3 := record_event (Delayed _) _).
    assert (Hpolls : polls (history w3) = S (polls (history w))).
    { unfold w3. rewrite !polls_record, captchas_world_polls. by cbn. }
    destruct (IH fuel (incr_numTries (set_isAtCapacity true l)) w3)
      as (w1 & Hdet & Heq).
    { lia. }
    { cbn. lia. }
    { unfold banner_for_then_clear. rewrite Hpolls. repeat split; intros h Hh.
      - apply Hshow. lia.
      - apply Hreload. lia.
      - apply Hclear. lia. }
    exists w1. split; [by econstructor|].
    rewrite Heq. cbn. do 3 f_equal. lia.
Qed.

(** *** The loop under a banner that outlasts the budget *)

Lemma capacity_loop_exhausts env page opts n :
  forall fuel l w,
    (n < fuel)%nat ->
    numTries l + Z.of_nat (S n) = capacity_retries opts ->
    banner_throughout env page opts (S n) w ->
    exists w1 e found,
      detections env page opts n w w1
      /\ capacity_loop env fuel page opts l w
         = (Val tt,
            {| isAtCapacity := true; numTries := capacity_retries opts |},
            record_event
              (Called _ (XPath page capacityXPath) (Returned (e :: found)))
              (captchas_world env page w1)).
Proof.
  unfold capacity_loop.
  induction n as [|n IH]; intros fuel l w Hfuel Hbudget (Hshow & Hreload);
    unfold reload_ok_at in Hreload.
  - destruct fuel as [|fuel]; [lia|].
    cbn [do_while]. rewrite capacity_cycle_cases.
    unfold polled, poll_answer.
    destruct (Hshow (history (captchas_world env page w))) as (e & found & Hans).
    { rewrite captchas_world_polls. lia. }
    exists w, e, found. split; [constructor|].
    rewrite Hans. cbn zeta.
    replace (numTries l + 1 >=? capacity_retries opts) with true by lia.
    cbn. unfold incr_numTries, set_isAtCapacity. cbn. do 3 f_equal. lia.
  - destruct fuel as [|fuel]; [lia|].
    cbn [do_while]. rewrite capacity_cycle_cases.
    unfold reloaded, reload_answer, polled, poll_answer.
    destruct (Hshow (history (captchas_world env page w))) as (e & found & Hans).
    { rewrite captchas_world_polls. lia. }
    rewrite Hans. cbn zeta.
    replace (numTries l + 1 >=? capacity_retries opts) with false by lia.
    rewrite Hreload.
    2: { rewrite polls_record, captchas_world_polls. cbn. lia. }
    cbn [isAtCapacity incr_numTries set_isAtCapacity].
    set (w3 := record_event (Delayed _) _).
    assert (Hpolls : polls (history w3) = S (polls (history w))).
    { unfold w3. rewrite !polls_record, captchas_world_polls. by cbn. }
    destruct (IH fuel (incr_numTries (set_isAtCapacity true l)) w3)
      as (w1 & e' & found' & Hdet & Heq).
    { lia. }
    { cbn. lia. }
    { unfold banner_throughout. rewrite Hpolls. split; intros h Hh.
      - apply Hshow. lia.
      - apply Hreload. lia. }
    exists w1, e', found'. split; [by econstructor|]. by rewrite Heq.
Qed.

Lemma checkForChatGPTAtCapacity_unfold env {L} fuel page opts (l : L) w :
  checkForChatGPTAtCapacity env fuel page opts l w =
  match capacity_loop env fuel page opts capacity_locals0 w with
  | (Val _, l', w') =>
      (if isAtCapacity l' then Exn atCapacityError else Val tt, l, w')
  | (Brk, _, w') => (Brk, l, w')
  | (Exn e, _, w') => (Exn e, l, w')
  | (Diverge, _, w') => (Diverge, l, w')
  end.
Proof.
  unfold checkForChatGPTAtCapacity, checkForChatGPTAtCapacity_body, capacity_loop.
  unfold_m.
  destruct (do_while _ _ _ _ _) as [[[[]| | |] l'] w']; try done.
  by destruct (isAtCapacity l').
Qed.

(** *** The guard as a whole *)

Lemma checkForChatGPTAtCapacity_frame env {L} fuel page opts (l : L) w :
  exists res w', checkForChatGPTAtCapacity env fuel page opts l w = (res, l, w').
Proof.
  rewrite checkForChatGPTAtCapacity_unfold.
  destruct (capacity_loop _ _ _ _ _ _) as [[[[]| | |] l'] w']; eauto.
Qed.

Lemma checkForChatGPTAtCapacity_result env {L} fuel page opts (l : L) w :
  (max_cycles opts <= fuel)%nat ->
  exists r w' new,
    checkForChatGPTAtCapacity env fuel page opts l w = (r, l, w')
    /\ (r = Val tt \/ r = Exn atCapacityError)
    /\ extends_by new w w'
    /\ (1 <= polls new <= max_cycles opts)%nat
    /\ (forall ev, ev ∈ new -> is_failed_poll ev = true -> head new = Some ev).
Proof.
  intros Hfuel. rewrite <- max_cycles_left in *.
  destruct (capacity_loop_bounded env page opts fuel capacity_locals0 w Hfuel)
    as (l' & w' & new & Heq & Hext & Hpolls & Hfail).
  rewrite checkForChatGPTAtCapacity_unfold, Heq.
  eexists _, w', new. split; [done|].
  split; [destruct (isAtCapacity l'); auto|done].
Qed.

(** *** What the guard makes of a failure *)

(** A query that throws before any detection is swallowed. *)
Lemma capacity_guard_swallows_first_failure env {L} fuel page opts (l : L) w :
  (exists err, poll_answer env page w = Thrown err) ->
  checkForChatGPTAtCapacity env (S fuel) page opts l w
  = (Val tt, l, polled env page w).
Proof.
  intros (err & Hans).
  rewrite checkForChatGPTAtCapacity_unfold. unfold capacity_loop.
  cbn [do_while]. by rewrite capacity_cycle_cases, Hans.
Qed.

(** A reload that throws after a detection leaves [isAtCapacity] set:
    the guard throws the capacity error with budget left. *)
Lemma capacity_guard_reload_failure_raises env {L} fuel page opts (l : L) w :
  1 < capacity_retries opts ->
  (exists e found, poll_answer env page w = Returned (e :: found)) ->
  (exists err, reload_answer env page opts w = Thrown err) ->
  checkForChatGPTAtCapacity env (S fuel) page opts l w
  = (Exn atCapacityError, l, reloaded env page opts w).
Proof.
  intros Hbudget (e & found & Hans) (err & Hreload).
  rewrite checkForChatGPTAtCapacity_unfold. unfold capacity_loop.
  cbn [do_while]. rewrite capacity_cycle_cases, Hans. cbn zeta.
  cbn [numTries capacity_locals0].
  replace (0 + 1 >=? capacity_retries opts) with false by lia.
  by rewrite Hreload.
Qed.

(** When the budget is zero or negative the first detection already
    exhausts it. *)
Lemma capacity_guard_without_budget env {L} fuel page opts (l : L) w :
  capacity_retries opts <= 0 ->
  banner_at env page (history (captchas_world env page w)) ->
  exists e found,
    checkForChatGPTAtCapacity env (S fuel) page opts l w
    = (Exn atCapacityError, l,
       record_event (Called _ (XPath page capacityXPath) (Returned (e :: found)))
         (captchas_world env page w)).
Proof.
  intros Hbudget (e & found & Hans). exists e, found.
  rewrite checkForChatGPTAtCapacity_unfold. unfold capacity_loop.
  cbn [do_while]. rewrite capacity_cycle_cases. unfold polled, poll_answer.
  rewrite Hans. cbn zeta. cbn [numTries capacity_locals0].
  by replace (0 + 1 >=? capacity_retries opts) with true by lia.
Qed.

(** *** The claims about the guard *)

(** C1. If the banner is there for exactly [R] polling cycles, [R]
    below the retry budget, each reload works, and the banner is gone at
    the next poll, the guard returns normally, and between [w] and the
    last query lie exactly [R] detections, each followed by a reload
    bounded by [timeoutMs] and a pause of the polling interval.  If the
    banner is there for the whole budget (at each of the
    [max_cycles opts] = max(1, retries) polls the guard can make, the
    reloads between them working), the guard throws the [ChatGPTError]
    whose [statusCode] is 503, after as many detections, all but the
    last followed by reload and pause. *)
Theorem C1_capacity_guard_retries env {L} page opts (l : L) w :
  (forall R fuel,
      (R < fuel)%nat ->
      Z.of_nat R < capacity_retries opts ->
      banner_for_then_clear env page opts R w ->
      exists w1,
        detections env page opts R w w1
        /\ checkForChatGPTAtCapacity env fuel page opts l w
           = (Val tt, l,
              record_event (Called _ (XPath page capacityXPath) (Returned []))
                (captchas_world env page w1)))
  /\ (forall n fuel,
         (n < fuel)%nat ->
         max_cycles opts = S n ->
         banner_throughout env page opts (S n) w ->
         exists w1 e found,
           detections env page opts n w w1
           /\ checkForChatGPTAtCapacity env fuel page opts l w
              = (Exn (ChatGPTError "ChatGPT is at capacity" (Some 503)), l,
                 record_event
                   (Called _ (XPath page capacityXPath) (Returned (e :: found)))
                   (captchas_world env page w1))).
Proof.
  split.
  - intros R fuel Hfuel Hbudget Hbanner.
    destruct (capacity_loop_detects env page opts R fuel capacity_locals0 w)
      as (w1 & Hdet & Heq); [done..|].
    exists w1. split; [done|].
    by rewrite checkForChatGPTAtCapacity_unfold, Heq.
  - intros n fuel Hfuel Hbudget Hbanner. unfold max_cycles in Hbudget.
    destruct (Z.le_gt_cases (capacity_retries opts) 0) as [Hnone|Hsome].
    + assert (n = 0%nat) as -> by lia.
      destruct fuel as [|fuel]; [lia|].
      destruct Hbanner as [Hshow _].
      destruct (capacity_guard_without_budget env fuel page opts l w Hnone)
        as (e & found & Heq).
      { apply Hshow. rewrite captchas_world_polls. lia. }
      exists w, e, found. split; [constructor|done].
    + destruct (capacity_loop_exhausts env page opts n fuel capacity_locals0 w)
        as (w1 & e & found & Hdet & Heq); [done| |done|].
      { cbn [numTries capacity_locals0]. lia. }
      exists w1, e, found. split; [done|].
      by rewrite checkForChatGPTAtCapacity_unfold, Heq.
Qed.

Lemma banner_answer_for_then_clear k page opts :
  banner_for_then_clear (env_of (banner_answer k)) page opts k world0.
Proof.
  split; [|split]; intros h Hh; cbn in Hh.
  - exists 7%nat, []. cbn [answer env_of banner_answer].
    by destruct (Nat.ltb_spec (polls h) k); [|lia].
  - reflexivity.
  - unfold no_banner_at. cbn [answer env_of banner_answer]. by destruct (Nat.ltb_spec (polls h) k); [lia|].
Qed.

Lemma banner_answer_throughout k page opts :
  banner_throughout (env_of (banner_answer k)) page opts k world0.
Proof.
  split; intros h Hh; cbn in Hh; [|reflexivity].
  exists 7%nat, []. cbn [answer env_of banner_answer]. by destruct (Nat.ltb_spec (polls h) k); [|lia].
Qed.

Lemma C1_capacity_guard_retries_witness :
  (exists w1,
      detections (env_of (banner_answer 2)) 0%nat no_opts 2 world0 w1
      /\ checkForChatGPTAtCapacity (env_of (banner_answer 2)) 3 0%nat no_opts
           tt world0
         = (Val tt, tt,
            record_event (Called _ (XPath 0%nat capacityXPath) (Returned []))
              (captchas_world (env_of (banner_answer 2)) 0%nat w1)))
  /\ (exists w1 e found,
         detections (env_of (banner_answer 3)) 0%nat (retries_opts 3) 2 world0 w1
         /\ checkForChatGPTAtCapacity (env_of (banner_answer 3)) 3 0%nat
              (retries_opts 3) tt world0
            = (Exn (ChatGPTError "ChatGPT is at capacity" (Some 503)), tt,
               record_event
                 (Called _ (XPath 0%nat capacityXPath) (Returned (e :: found)))
                 (captchas_world (env_of (banner_answer 3)) 0%nat w1))).
Proof.
  split.
  - apply (proj1 (C1_capacity_guard_retries (env_of (banner_answer 2))
                    0%nat no_opts tt world0) 2%nat 3%nat).
    + lia.
    + vm_compute. reflexivity.
    + apply banner_answer_for_then_clear.
  - apply (proj2 (C1_capacity_guard_retries (env_of (banner_answer 3))
                    0%nat (retries_opts 3) tt world0) 2%nat 3%nat).
    + lia.
    + reflexivity.
    + apply banner_answer_throughout.
Defined.

(** C6. With a budget [retries] of 1 or more (the code never passes
    another one than the default, 10: the function is private to the
    module and no call of it names [retries]) a call of the guard ends,
    whatever the page does: it returns or throws the capacity error, it
    has made at least one and at most [retries] banner queries, and a
    query or a reload that threw is the last thing it did. *)
Theorem C6_capacity_guard_terminates env {L} fuel page opts (l : L) w :
  1 <= capacity_retries opts ->
  (Z.to_nat (capacity_retries opts) <= fuel)%nat ->
  exists r w' new,
    checkForChatGPTAtCapacity env fuel page opts l w = (r, l, w')
    /\ (r = Val tt \/ r = Exn atCapacityError)
    /\ extends_by new w w'
    /\ 1 <= Z.of_nat (polls new) <= capacity_retries opts
    /\ (forall ev, ev ∈ new -> is_failed_poll ev = true -> head new = Some ev).
Proof.
  intros Hbudget Hfuel.
  assert (Hmax : max_cycles opts = Z.to_nat (capacity_retries opts))
    by (unfold max_cycles; lia).
  destruct (checkForChatGPTAtCapacity_result env fuel page opts l w)
    as (r & w' & new & Heq & Hr & Hext & Hpolls & Hfail); [lia|].
  exists r, w', new. split; [exact Heq|]. split; [exact Hr|].
  split; [exact Hext|]. split; [lia|exact Hfail].
Qed.

Lemma C6_capacity_guard_terminates_witness :
  exists r w' new,
    checkForChatGPTAtCapacity (env_of (banner_answer 20)) 10 0%nat no_opts
      tt world0 = (r, tt, w')
    /\ (r = Val tt \/ r = Exn atCapacityError)
    /\ extends_by new world0 w'
    /\ 1 <= Z.of_nat (polls new) <= capacity_retries no_opts
    /\ (forall ev, ev ∈ new -> is_failed_poll ev = true -> head new = Some ev).
Proof.
  apply (C6_capacity_guard_terminates (env_of (banner_answer 20)) 10 0%nat
           no_opts tt world0); vm_compute; [discriminate|lia].
Defined.

(** ** The guarded wait: [waitForConditionOrAtCapacity] *)

(** *** What each event does *)

Lemma race_step_CondSettles env fuel page condition ms r w :
  race_step env fuel page condition ms CondSettles r w =
  match cond_state r with
  | Settled => (Val tt, r, w)
  | Pending =>
      let r1 := set_cond_state Settled r in
      if resolved r then (Val tt, r1, (condition w).2)
      else match (condition w).1 with
           | Returned _ =>
               (Val tt, did DidResolve (set_resolved true r1), (condition w).2)
           | Thrown e =>
               (Val tt, did (DidReject e) (set_resolved true r1), (condition w).2)
           end
  end.
Proof.
  unfold race_step, condition_settles, condition_then, condition_catch,
    resolve, reject. unfold_m. cbn.
  destruct (cond_state r); [|done].
  destruct (condition w) as [[[]|e] w']; cbn; by destruct (resolved r).
Qed.

Lemma race_step_TimerFires env fuel page condition ms r w :
  race_step env fuel page condition ms TimerFires r w =
  match poller r with
  | Armed => (Val tt, set_poller (if resolved r then Idle else Checking) r, w)
  | _ => (Val tt, r, w)
  end.
Proof.
  unfold race_step, waitForCapacityText_enter. unfold_m. cbn.
  destruct (poller r); try done. by destruct (resolved r).
Qed.

Lemma race_step_CheckSettles env fuel page condition ms r w :
  race_step env fuel page condition ms CheckSettles r w =
  match poller r with
  | Checking =>
      let r1 := set_poller Idle r in
      match checkForChatGPTAtCapacity env fuel page no_opts r1 w with
      | (Val _, _, w') =>
          if resolved r then (Val tt, r1, w')
          else (Val tt, set_poller Armed (did (DidSetTimeout ms) r1), w')
      | (Exn e, _, w') =>
          if resolved r then (Val tt, r1, w')
          else (Val tt, did (DidReject e) (set_resolved true r1), w')
      | (Brk, _, w') => (Brk, r1, w')
      | (Diverge, _, w') => (Diverge, r1, w')
      end
  | _ => (Val tt, r, w)
  end.
Proof.
  unfold race_step, waitForCapacityText_resume, setTimeout, reject.
  unfold mbind at 1, M_bind at 1, read at 1.
  destruct r as [rs cs ps acts]. cbn [poller resolved].
  destruct ps; try done.
  unfold mbind at 1, M_bind at 1, assign at 1. cbn zeta.
  destruct (checkForChatGPTAtCapacity_frame env fuel page no_opts
              (set_poller Idle (Build_Race rs cs Checking acts)) w)
    as (res & w' & Heq).
  unfold try_catch. unfold mbind at 1, M_bind at 1.
  rewrite Heq. unfold_m. cbn.
  destruct res as [[]| |e|]; try done; by destruct rs.
Qed.

Lemma settlements_did a r :
  settlements (did a r)
  = settlements r ++ (if is_settlement a then [a] else []).
Proof.
  unfold settlements, did. cbn. destruct (is_settlement a); cbn; [done|].
  by rewrite app_nil_r.
Qed.

Lemma race_inv_alt r :
  race_inv r <->
  length (List.filter is_settlement (actions r)) = (if resolved r then 1 else 0)%nat
  /\ (cond_state r = Settled -> resolved r = true).
Proof. unfold race_inv, settlements. by rewrite length_rev. Qed.

Ltac race_finish :=
  eexists _, _, _; (split; [reflexivity|]);
  rewrite race_inv_alt; cbn in *;
  repeat match goal with
         | |- _ /\ _ => split
         | |- _ -> _ => intros ?
         end;
  try done; try lia; try congruence; auto;
  try (by left); try (right; by repeat split).

(** *** One event keeps the invariant and, once the flag is set,
    leaves the promise and the timers alone *)

Lemma race_step_inv env fuel page condition ms ev r w :
  race_inv r ->
  exists res r' w',
    race_step env fuel page condition ms ev r w = (res, r', w')
    /\ race_inv r'
    /\ (resolved r = true -> actions r' = actions r)
    /\ (cond_state r = Settled -> cond_state r' = Settled)
    /\ (ev = CondSettles -> cond_state r' = Settled)
    /\ (res = Val tt
        \/ (res <> Val tt /\ ev = CheckSettles /\ (fuel < 10)%nat)).
Proof.
  rewrite race_inv_alt. destruct r as [rs cs ps acts]. cbn.
  intros (Hlen & Hcond).
  destruct ev.
  - rewrite race_step_CondSettles. cbn.
    destruct cs; [|race_finish].
    destruct rs; [race_finish|].
    destruct (condition w).1; race_finish.
  - rewrite race_step_TimerFires. cbn.
    destruct ps; [|race_finish..]. destruct rs; race_finish.
  - rewrite race_step_CheckSettles. cbn [poller].
    destruct ps; [race_finish| |race_finish].
    cbn zeta.
    destruct (le_lt_dec 10 fuel) as [Hfuel|Hfuel].
    + destruct (checkForChatGPTAtCapacity_result env fuel page no_opts
                  (set_poller Idle (Build_Race rs cs Checking acts)) w)
        as (res & w' & new & Heq & Hres & _).
      { exact Hfuel. }
      rewrite Heq.
      destruct Hres as [->| ->]; destruct rs; race_finish.
    + destruct (checkForChatGPTAtCapacity_frame env fuel page no_opts
                  (set_poller Idle (Build_Race rs cs Checking acts)) w)
        as (res & w' & Heq).
      rewrite Heq.
      destruct res as [[]| |e|]; destruct rs; race_finish.
Qed.

(** *** Runs *)

Lemma race_events_app env fuel page condition ms evs evs' r w :
  race_events env fuel page condition ms (evs ++ evs') r w =
  match race_events env fuel page condition ms evs r w with
  | (Val _, r1, w1) => race_events env fuel page condition ms evs' r1 w1
  | other => other
  end.
Proof.
  revert r w. induction evs as [|ev evs IH]; intros r w; [done|].
  cbn [race_events app]. unfold mbind, M_bind.
  by destruct (race_step _ _ _ _ _ _ _ _) as [[[[]| | |] r1] w1].
Qed.

Lemma race_events_inv env fuel page condition ms evs :
  forall r w,
    race_inv r ->
    exists res r' w',
      race_events env fuel page condition ms evs r w = (res, r', w')
      /\ race_inv r'
      /\ (resolved r = true -> actions r' = actions r)
      /\ (cond_state r = Settled -> cond_state r' = Settled)
      /\ ((10 <= fuel)%nat -> res = Val tt)
      /\ ((10 <= fuel)%nat -> CondSettles ∈ evs -> cond_state r' = Settled).
Proof.
  induction evs as [|ev evs IH]; intros r w Hinv.
  - exists (Val tt), r, w. do 5 (split; [done|]).
    intros _ Hin. by apply elem_of_nil in Hin.
  - cbn [race_events]. unfold mbind, M_bind.
    destruct (race_step_inv env fuel page condition ms ev r w Hinv)
      as (res1 & r1 & w1 & Heq & Hinv1 & Hact1 & Hcond1 & Hev1 & Hres1).
    rewrite Heq.
    assert (Hkeep : resolved r = true -> resolved r1 = true).
    { intros Hr. specialize (Hact1 Hr).
      destruct Hinv as [Hlen _], Hinv1 as [Hlen1 _].
      unfold settlements in *. rewrite Hact1, Hlen, Hr in Hlen1.
      by destruct (resolved r1). }
    destruct Hres1 as [->|(Hne & -> & Hfuel)].
    + destruct (IH r1 w1 Hinv1) as (res & r' & w' & Heq' & Hinv' & Hact' & Hcond' & Hres' & Hlive').
      rewrite Heq'. exists res, r', w'. split; [done|]. split; [done|].
      split; [intros Hr; rewrite Hact', Hact1; auto|].
      split; [auto|]. split; [done|].
      intros Hfuel [Hhd|Hin]%elem_of_cons; auto.
    + destruct res1 as [[]| | |]; try done;
        (eexists _, r1, w1; split; [done|]; split; [done|]; split; [done|];
         split; [done|]; split; intros; lia).
Qed.

Lemma race_run_unfold env fuel page condition opt_ms evs w :
  race_run env fuel page condition opt_ms evs race_locals0 w =
  race_events env fuel page condition (race_pollingIntervalMs opt_ms) evs
    (set_poller Armed
       (did (DidSetTimeout (race_pollingIntervalMs opt_ms)) race_locals0)) w.
Proof. done. Qed.

Lemma race_inv_armed ms :
  race_inv (set_poller Armed (did (DidSetTimeout ms) race_locals0)).
Proof. by split. Qed.

Lemma race_state_inv env fuel page condition opt_ms evs w :
  race_inv (race_state env fuel page condition opt_ms evs w)
  /\ ((10 <= fuel)%nat -> CondSettles ∈ evs ->
      resolved (race_state env fuel page condition opt_ms evs w) = true).
Proof.
  unfold race_state. rewrite race_run_unfold.
  destruct (race_events_inv env fuel page condition
              (race_pollingIntervalMs opt_ms) evs _ w
              (race_inv_armed (race_pollingIntervalMs opt_ms)))
    as (res & r' & w' & Heq & Hinv & _ & _ & _ & Hlive).
  rewrite Heq. cbn. split; [done|]. intros Hfuel Hin.
  destruct Hinv as [_ Hc]. auto.
Qed.

Lemma race_state_frozen env fuel page condition opt_ms evs evs' w :
  resolved (race_state env fuel page condition opt_ms evs w) = true ->
  actions (race_state env fuel page condition opt_ms (evs ++ evs') w)
  = actions (race_state env fuel page condition opt_ms evs w).
Proof.
  pose proof (race_state_inv env fuel page condition opt_ms evs w) as [Hinv _].
  revert Hinv. unfold race_state. rewrite !race_run_unfold, race_events_app.
  destruct (race_events _ _ _ _ _ evs _ _) as [[res r1] w1]. cbn.
  intros Hinv Hr.
  destruct res as [[]| | |]; try done.
  destruct (race_events_inv env fuel page condition
              (race_pollingIntervalMs opt_ms) evs' r1 w1 Hinv)
    as (res' & r' & w' & Heq & _ & Hact & _).
  rewrite Heq. cbn. auto.
Qed.

(** The result of the guard does not depend on the caller's locals. *)
Lemma checkForChatGPTAtCapacity_locals env {L1 L2} fuel page opts
    (l1 : L1) (l2 : L2) w :
  (checkForChatGPTAtCapacity env fuel page opts l1 w).1.1
  = (checkForChatGPTAtCapacity env fuel page opts l2 w).1.1
  /\ (checkForChatGPTAtCapacity env fuel page opts l1 w).2
     = (checkForChatGPTAtCapacity env fuel page opts l2 w).2.
Proof.
  rewrite !checkForChatGPTAtCapacity_unfold.
  by destruct (capacity_loop _ _ _ _ _ _) as [[[[]| | |] l'] w'].
Qed.

(** Who settles a promise that is still pending. *)
Lemma race_step_winner env fuel page condition ms ev r w :
  resolved r = false ->
  settlements r = [] ->
  let r' := (race_step env fuel page condition ms ev r w).1.2 in
  settlements r' = []
  \/ (ev = CondSettles /\ cond_state r = Pending
      /\ settlements r'
         = [match (condition w).1 with
            | Returned _ => DidResolve
            | Thrown e => DidReject e
            end])
  \/ (ev = CheckSettles /\ poller r = Checking
      /\ exists e,
           (checkForChatGPTAtCapacity env fuel page no_opts tt w).1.1 = Exn e
           /\ settlements r' = [DidReject e]).
Proof.
  destruct r as [rs cs ps acts]. unfold settlements. cbn [resolved actions].
  intros -> Hs. cbn zeta.
  destruct ev.
  - rewrite race_step_CondSettles. cbn.
    destruct cs; [|by left]. right; left. split; [done|]. split; [done|].
    destruct (condition w).1; cbn; by rewrite Hs.
  - rewrite race_step_TimerFires. cbn. destruct ps; by left.
  - rewrite race_step_CheckSettles. cbn [poller].
    destruct ps; try by left. cbn zeta.
    destruct (checkForChatGPTAtCapacity_locals env fuel page no_opts
                (set_poller Idle (Build_Race false cs Checking acts)) tt w)
      as [Hres _].
    destruct (checkForChatGPTAtCapacity _ _ _ _ _ w) as [[res l'] w'].
    cbn in Hres. destruct res as [[]| |e|]; cbn; try by left.
    right; right. split; [done|]. split; [done|]. exists e.
    split; [done|]. by rewrite Hs.
Qed.

(** Only the condition's fulfilment calls [resolve]. *)
Lemma race_step_resolve env fuel page condition ms ev r w :
  let r' := (race_step env fuel page condition ms ev r w).1.2 in
  DidResolve ∈ actions r' ->
  DidResolve ∈ actions r
  \/ (ev = CondSettles /\ resolved r = false
      /\ (condition w).1 = Returned tt).
Proof.
  destruct r as [rs cs ps acts]. cbn zeta.
  destruct ev.
  - rewrite race_step_CondSettles. cbn.
    destruct cs; [|by left]. destruct rs; [by left|].
    destruct (condition w).1 as [[]|e]; cbn.
    + intros _. by right.
    + intros [?|?]%elem_of_cons; [done|by left].
  - rewrite race_step_TimerFires. cbn. destruct ps; try by left.
  - rewrite race_step_CheckSettles. cbn [poller].
    destruct ps; try by left. cbn zeta.
    destruct (checkForChatGPTAtCapacity _ _ _ _ _ w) as [[res l'] w'].
    destruct res as [[]| |e|]; destruct rs; cbn; try by left.
    + intros [?|?]%elem_of_cons; [done|by left].
    + intros [?|?]%elem_of_cons; [done|by left].
Qed.

Lemma race_events_resolve env fuel page condition ms evs :
  forall r w,
    DidResolve ∈ actions (race_events env fuel page condition ms evs r w).1.2 ->
    DidResolve ∈ actions r
    \/ exists evs1 evs2,
         evs = evs1 ++ CondSettles :: evs2
         /\ resolved (race_events env fuel page condition ms evs1 r w).1.2 = false
         /\ (condition (race_events env fuel page condition ms evs1 r w).2).1
            = Returned tt.
Proof.
  induction evs as [|ev evs IH]; intros r w; [by left|].
  cbn [race_events]. unfold mbind, M_bind.
  pose proof (race_step_resolve env fuel page condition ms ev r w) as Hstep.
  destruct (race_step _ _ _ _ _ _ _ _) as [[res r1] w1] eqn:Hs. cbn in Hstep.
  assert (Hhere : DidResolve ∈ actions r1 ->
                  DidResolve ∈ actions r
                  \/ exists evs1 evs2,
                       ev :: evs = evs1 ++ CondSettles :: evs2
                       /\ resolved (race_events env fuel page condition ms evs1 r w).1.2 = false
                       /\ (condition (race_events env fuel page condition ms evs1 r w).2).1
                          = Returned tt).
  { intros Hin. destruct (Hstep Hin) as [?|(-> & Hr & Hc)]; [by left|].
    right. exists [], evs. by repeat split. }
  destruct res as [[]| | |]; cbn; try done.
  intros Hin. destruct (IH r1 w1 Hin) as [Hin1|(evs1 & evs2 & -> & Hr & Hc)].
  - by apply Hhere.
  - right. exists (ev :: evs1), evs2. split; [done|].
    cbn [race_events]. unfold mbind, M_bind. by rewrite Hs.
Qed.

(** *** The claims about the guarded wait *)

(** C2. In every run of the guarded wait the promise is settled at most
    once; it is settled exactly once as soon as the primary condition
    has settled; after the first settlement no event resolves, rejects
    or arms a timer again; and a pending promise is settled by the
    event that comes first: by the outcome of the condition, or by the
    error the capacity check threw. *)
Theorem C2_guarded_wait_settles_once env fuel page condition opt_ms w :
  (forall evs,
      (length (settlements
                 (race_state env fuel page condition opt_ms evs w)) <= 1)%nat)
  /\ (forall evs,
         (10 <= fuel)%nat -> CondSettles ∈ evs ->
         length (settlements
                   (race_state env fuel page condition opt_ms evs w)) = 1%nat)
  /\ (forall evs evs',
         settlements (race_state env fuel page condition opt_ms evs w) <> [] ->
         actions (race_state env fuel page condition opt_ms (evs ++ evs') w)
         = actions (race_state env fuel page condition opt_ms evs w))
  /\ (forall evs ev,
         settlements (race_state env fuel page condition opt_ms evs w) = [] ->
         settlements (race_state env fuel page condition opt_ms (evs ++ [ev]) w)
         = []
         \/ (ev = CondSettles
             /\ settlements
                  (race_state env fuel page condition opt_ms (evs ++ [ev]) w)
                = [match (condition
                            (race_world env fuel page condition opt_ms evs w)).1
                   with
                   | Returned _ => DidResolve
                   | Thrown e => DidReject e
                   end])
         \/ (ev = CheckSettles
             /\ exists e,
                  (checkForChatGPTAtCapacity env fuel page no_opts tt
                     (race_world env fuel page condition opt_ms evs w)).1.1
                  = Exn e
                  /\ settlements
                       (race_state env fuel page condition opt_ms (evs ++ [ev]) w)
                     = [DidReject e])).
Proof.
  split; [|split; [|split]].
  - intros evs.
    destruct (race_state_inv env fuel page condition opt_ms evs w)
      as [[Hlen _] _].
    rewrite Hlen. destruct (resolved _); lia.
  - intros evs Hfuel Hin.
    destruct (race_state_inv env fuel page condition opt_ms evs w)
      as [[Hlen _] Hlive].
    by rewrite Hlen, (Hlive Hfuel Hin).
  - intros evs evs' Hsettled. apply race_state_frozen.
    destruct (race_state_inv env fuel page condition opt_ms evs w)
      as [[Hlen _] _].
    destruct (resolved _); [done|].
    by destruct (settlements _).
  - intros evs ev Hpending.
    pose proof (race_state_inv env fuel page condition opt_ms evs w)
      as [[Hlen _] _].
    rewrite Hpending in Hlen. revert Hlen Hpending.
    unfold race_state, race_world.
    rewrite !race_run_unfold, race_events_app.
    destruct (race_events _ _ _ _ _ evs _ _) as [[res r1] w1]. cbn [fst snd].
    intros Hlen Hpending.
    destruct res as [[]| | |]; try by left.
    assert (Hr : resolved r1 = false) by by destruct (resolved r1).
    cbn [race_events]. unfold mbind, M_bind.
    pose proof (race_step_winner env fuel page condition
                  (race_pollingIntervalMs opt_ms) ev r1 w1 Hr Hpending) as Hwin.
    destruct (race_step _ _ _ _ _ _ _ _) as [[res2 r2] w2].
    cbn in Hwin.
    assert (Hgoal : forall x : Res unit * Race * World, x.1.2 = r2 ->
              settlements x.1.2 = []
              \/ (ev = CondSettles
                  /\ settlements x.1.2
                     = [match (condition w1).1 with
                        | Returned _ => DidResolve
                        | Thrown e => DidReject e
                        end])
              \/ (ev = CheckSettles
                  /\ exists e,
                       (checkForChatGPTAtCapacity env fuel page no_opts tt w1).1.1
                       = Exn e
                       /\ settlements x.1.2 = [DidReject e])).
    { intros x ->.
      destruct Hwin as [?|[(-> & _ & ?)|(-> & _ & ?)]]; auto. }
    apply Hgoal. by destruct res2 as [[]| | |].
Qed.

Lemma C2_guarded_wait_settles_once_witness :
  length (settlements
            (race_state (env_of stuck_answer) 10 0%nat
               (selector_condition (env_of stuck_answer) 0%nat) None
               [TimerFires; CondSettles; CheckSettles] world0)) = 1%nat
  /\ actions (race_state (env_of stuck_answer) 10 0%nat
                (selector_condition (env_of stuck_answer) 0%nat) None
                ([TimerFires; CheckSettles] ++ [CondSettles; TimerFires]) world0)
     = actions (race_state (env_of stuck_answer) 10 0%nat
                  (selector_condition (env_of stuck_answer) 0%nat) None
                  [TimerFires; CheckSettles] world0)
  /\ (settlements
        (race_state (env_of stuck_answer) 10 0%nat
           (selector_condition (env_of stuck_answer) 0%nat) None
           ([TimerFires] ++ [CondSettles]) world0)
      = []
      \/ (CondSettles = CondSettles
          /\ settlements
               (race_state (env_of stuck_answer) 10 0%nat
                  (selector_condition (env_of stuck_answer) 0%nat) None
                  ([TimerFires] ++ [CondSettles]) world0)
             = [match (selector_condition (env_of stuck_answer) 0%nat
                         (race_world (env_of stuck_answer) 10 0%nat
                            (selector_condition (env_of stuck_answer) 0%nat)
                            None [TimerFires] world0)).1
                with
                | Returned _ => DidResolve
                | Thrown e => DidReject e
                end])
      \/ (CondSettles = CheckSettles
          /\ exists e,
               (checkForChatGPTAtCapacity (env_of stuck_answer) 10 0%nat no_opts
                  tt (race_world (env_of stuck_answer) 10 0%nat
                        (selector_condition (env_of stuck_answer) 0%nat)
                        None [TimerFires] world0)).1.1
               = Exn e
               /\ settlements
                    (race_state (env_of stuck_answer) 10 0%nat
                       (selector_condition (env_of stuck_answer) 0%nat) None
                       ([TimerFires] ++ [CondSettles]) world0)
                  = [DidReject e])).
Proof.
  pose proof (C2_guarded_wait_settles_once (env_of stuck_answer) 10 0%nat
                (selector_condition (env_of stuck_answer) 0%nat) None world0)
    as (_ & Honce & Hfrozen & Hfirst).
  split; [|split].
  - apply Honce; [lia|]. apply list_elem_of_further, list_elem_of_here.
  - apply Hfrozen. vm_compute. discriminate.
  - apply Hfirst. reflexivity.
Defined.

(** C9. A call of [resolve] is always the work of the primary
    condition: some [CondSettles] event found the promise pending and
    the condition fulfilled.  A capacity check that returns normally
    only arms the next timer (and does not even do that once the promise
    is settled). *)
Theorem C9_poller_never_resolves env fuel page condition opt_ms w :
  (forall evs,
      DidResolve ∈ actions (race_state env fuel page condition opt_ms evs w) ->
      exists evs1 evs2,
        evs = evs1 ++ CondSettles :: evs2
        /\ resolved (race_state env fuel page condition opt_ms evs1 w) = false
        /\ (condition (race_world env fuel page condition opt_ms evs1 w)).1
           = Returned tt)
  /\ (forall r w1 w2,
         poller r = Checking ->
         checkForChatGPTAtCapacity env fuel page no_opts (set_poller Idle r) w1
         = (Val tt, set_poller Idle r, w2) ->
         race_step env fuel page condition (race_pollingIntervalMs opt_ms)
           CheckSettles r w1
         = (Val tt,
            (if resolved r then set_poller Idle r
             else set_poller Armed
                    (did (DidSetTimeout (race_pollingIntervalMs opt_ms))
                       (set_poller Idle r))),
            w2)).
Proof.
  split.
  - intros evs. unfold race_state, race_world.
    rewrite race_run_unfold. intros Hin.
    apply race_events_resolve in Hin as [Hin|(evs1 & evs2 & -> & Hr & Hc)].
    + cbn in Hin. apply list_elem_of_singleton in Hin. done.
    + exists evs1, evs2. by rewrite !race_run_unfold.
  - intros r w1 w2 Hp Hcheck.
    rewrite race_step_CheckSettles, Hp. cbn zeta. rewrite Hcheck.
    by destruct (resolved r).
Qed.

Lemma C9_poller_never_resolves_witness :
  (exists evs1 evs2,
      [TimerFires; CondSettles] = evs1 ++ CondSettles :: evs2
      /\ resolved (race_state quiet_env 10 0%nat
                     (selector_condition quiet_env 0%nat) None evs1 world0)
         = false
      /\ (selector_condition quiet_env 0%nat
            (race_world quiet_env 10 0%nat
               (selector_condition quiet_env 0%nat) None evs1 world0)).1
         = Returned tt)
  /\ race_step quiet_env 10 0%nat (selector_condition quiet_env 0%nat)
       (race_pollingIntervalMs None) CheckSettles checking_race world0
     = (Val tt,
        set_poller Armed
          (did (DidSetTimeout (race_pollingIntervalMs None))
             (set_poller Idle checking_race)),
        (checkForChatGPTAtCapacity quiet_env 10 0%nat no_opts tt world0).2).
Proof.
  split.
  - apply (proj1 (C9_poller_never_resolves quiet_env 10 0%nat
                    (selector_condition quiet_env 0%nat) None world0)).
    vm_compute. apply list_elem_of_here.
  - apply (proj2 (C9_poller_never_resolves quiet_env 10 0%nat
                    (selector_condition quiet_env 0%nat) None world0)
             checking_race world0); reflexivity.
Defined.

(** C3, on the code.  The page shows the banner once and the reload that
    follows fails, as in the middle of a navigation; the primary
    condition has not settled.  The guard's first cycle ends the loop
    with [isAtCapacity] still set, so the capacity check throws the 503
    error after a single detection, and the guarded wait is rejected
    with it while the condition is still pending. *)
Theorem C3_reload_failure_rejects_guarded_wait :
  checkForChatGPTAtCapacity (env_of stuck_answer) 10 0%nat no_opts tt world0
  = (Exn atCapacityError, tt,
     record_event
       (Called _ (Reload 0%nat "networkidle2" 120000)
          (Thrown (DriverError "Navigation failed because page was closed")))
       (record_event (Called _ (XPath 0%nat capacityXPath) (Returned [7%nat]))
          (record_event (Called _ (Query 0%nat ".hcaptcha-box") (Returned None))
             (record_event
                (Called _ (Query 0%nat "text=Verify you are human") (Returned None))
                world0))))
  /\ settlements
       (race_state (env_of stuck_answer) 10 0%nat
          (selector_condition (env_of stuck_answer) 0%nat) None
          [TimerFires; CheckSettles] world0)
     = [DidReject atCapacityError]
  /\ cond_state
       (race_state (env_of stuck_answer) 10 0%nat
          (selector_condition (env_of stuck_answer) 0%nat) None
          [TimerFires; CheckSettles] world0)
     = Pending.
Proof. by vm_compute. Qed.

(** ** Which calls a statement can make *)

Section Emits.

Variable env : Env.
Variable bad : forall R, Op R -> bool.

Lemma emits_pure {L A} (m : M L A) :
  (forall l w, (m l w).2 = w) -> emits bad m.
Proof. intros H l w. exists []. by rewrite H. Qed.

Lemma emits_flag {L A} (m : M L A) :
  (forall l w, history (m l w).2 = history w) -> emits bad m.
Proof. intros H l w. exists []. by rewrite H. Qed.

Lemma emits_ret {L A} (a : A) : emits bad (mret a : M L A).
Proof. by apply emits_pure. Qed.

Lemma emits_throw {L A} e : emits bad (throw e : M L A).
Proof. by apply emits_pure. Qed.

Lemma emits_break {L A} : emits bad (break : M L A).
Proof. by apply emits_pure. Qed.

Lemma emits_diverge {L A} : emits bad (diverge : M L A).
Proof. by apply emits_pure. Qed.

Lemma emits_read {L X} (f : L -> X) : emits bad (read f).
Proof. by apply emits_pure. Qed.

Lemma emits_assign {L} (f : L -> L) : emits bad (assign f).
Proof. by apply emits_pure. Qed.

Lemma emits_read_world {L X} (f : World -> X) : emits bad (read_world f : M L X).
Proof. by apply emits_pure. Qed.

Lemma emits_random {L} lo hi : emits bad (random env lo hi : M L Z).
Proof. by apply emits_pure. Qed.

Lemma emits_now {L} : emits bad (now env : M L Z).
Proof. by apply emits_pure. Qed.

Lemma emits_set_hasRecaptchaPlugin {L} b :
  emits bad (write_world (set_hasRecaptchaPlugin b) : M L unit).
Proof. by apply emits_flag. Qed.

Lemma emits_set_hasNopechaExtension {L} b :
  emits bad (write_world (set_hasNopechaExtension b) : M L unit).
Proof. by apply emits_flag. Qed.

Lemma emits_record {L} ev :
  avoids bad ev = true ->
  emits bad (write_world (record_event ev) : M L unit).
Proof. intros H l w. exists [ev]. split; [done|]. by constructor. Qed.

Lemma emits_delay {L} ms : emits bad (delay ms : M L unit).
Proof. intros l w. exists [Delayed ms]. split; [done|]. by constructor. Qed.

Lemma promise_emits_perform {R} (op : Op R) :
  bad R op = false -> promise_emits bad (perform env op).
Proof.
  intros H w. eexists [_]. split; [done|]. constructor; [|done].
  cbn. by rewrite H.
Qed.

Lemma promise_emits_forget {A} (p : Promise A) :
  promise_emits bad p -> promise_emits bad (forget p).
Proof.
  intros H w. destruct (H w) as (new & Hh & Hnew). exists new.
  unfold forget. by destruct (p w) as [[a|e] w'].
Qed.

Lemma emits_await {L A} (p : Promise A) :
  promise_emits bad p -> emits bad (await p : M L A).
Proof.
  intros H l w. destruct (H w) as (new & Hh & Hnew). exists new.
  unfold await. by destruct (p w) as [[a|e] w'].
Qed.

Lemma emits_call {L R} (op : Op R) :
  bad R op = false -> emits bad (call env op : M L R).
Proof. intros H. by apply emits_await, promise_emits_perform. Qed.

Lemma emits_seq {L A B} (m : M L A) (k : Res A -> L -> World -> Res B * L * World) :
  emits bad m ->
  (forall r l w,
      exists new,
        history (k r l w).2 = new ++ history w
        /\ Forall (fun ev => avoids bad ev = true) new) ->
  forall l w,
    exists new,
      history (k (m l w).1.1 (m l w).1.2 (m l w).2).2 = new ++ history w
      /\ Forall (fun ev => avoids bad ev = true) new.
Proof.
  intros Hm Hk l w. destruct (Hm l w) as (new1 & Hh1 & Hnew1).
  destruct (Hk (m l w).1.1 (m l w).1.2 (m l w).2) as (new2 & Hh2 & Hnew2).
  exists (new2 ++ new1). split; [by rewrite Hh2, Hh1, app_assoc|].
  by apply Forall_app.
Qed.

Lemma emits_bind {L A B} (m : M L A) (k : A -> M L B) :
  emits bad m -> (forall a, emits bad (k a)) -> emits bad (m ≫= k).
Proof.
  intros Hm Hk l w.
  pose proof (emits_seq m
    (fun r l w => match r with
                  | Val a => k a l w
                  | Brk => (Brk, l, w)
                  | Exn e => (Exn e, l, w)
                  | Diverge => (Diverge, l, w)
                  end) Hm) as H.
  unfold mbind, M_bind. destruct (m l w) as [[r l1] w1] eqn:Heq.
  specialize (H ltac:(intros [a| |e|] l' w'; [apply Hk|by exists []..]) l w).
  rewrite Heq in H. cbn in H. by destruct r.
Qed.

Lemma emits_try_catch {L A} (body : M L A) (handler : Err -> M L A) :
  emits bad body -> (forall e, emits bad (handler e)) ->
  emits bad (try_catch body handler).
Proof.
  intros Hm Hk l w.
  pose proof (emits_seq body
    (fun r l w => match r with
                  | Exn e => handler e l w
                  | r => (r, l, w)
                  end) Hm) as H.
  unfold try_catch. destruct (body l w) as [[r l1] w1] eqn:Heq.
  specialize (H ltac:(intros [a| |e|] l' w'; [by exists []..|apply Hk|by exists []]) l w).
  rewrite Heq in H. cbn in H. by destruct r.
Qed.

Lemma emits_try_finally {L A} (body : M L A) (fin : M L unit) :
  emits bad body -> emits bad fin -> emits bad (try_finally body fin).
Proof.
  intros Hm Hk l w.
  pose proof (emits_seq body
    (fun r l w => match r with
                  | Diverge => (Diverge, l, w)
                  | r => match fin l w with
                         | (Val _, l'', w'') => (r, l'', w'')
                         | (Brk, l'', w'') => (Brk, l'', w'')
                         | (Exn e, l'', w'') => (Exn e, l'', w'')
                         | (Diverge, l'', w'') => (Diverge, l'', w'')
                         end
                  end) Hm) as H.
  unfold try_finally. destruct (body l w) as [[r l1] w1] eqn:Heq.
  assert (Hfin : forall (r : Res A) l' w',
             exists new,
               history (match fin l' w' with
                        | (Val _, l'', w'') => (r, l'', w'')
                        | (Brk, l'', w'') => (Brk, l'', w'')
                        | (Exn e, l'', w'') => (Exn e, l'', w'')
                        | (Diverge, l'', w'') => (Diverge, l'', w'')
                        end).2 = new ++ history w'
               /\ Forall (fun ev => avoids bad ev = true) new).
  { intros r' l' w'. destruct (Hk l' w') as (new & Hh & Hnew). exists new.
    by destruct (fin l' w') as [[[[]| | |] l''] w'']. }
  specialize (H ltac:(intros [a| |e|] l' w'; [apply Hfin..|by exists []]) l w).
  rewrite Heq in H. cbn in H. by destruct r.
Qed.

Lemma emits_call_fn {L L' A} (init : L') (body : M L' A) :
  emits bad body -> emits bad (call_fn init body : M L A).
Proof.
  intros H l w. destruct (H init w) as (new & Hh & Hnew). exists new.
  unfold call_fn. by destruct (body init w) as [[r l'] w'].
Qed.

Lemma emits_when {L} (b : bool) (m : M L unit) :
  emits bad m -> emits bad (when b m).
Proof. intros H. destruct b; [done|apply emits_ret]. Qed.

Lemma emits_times {L} n (m : M L unit) :
  emits bad m -> emits bad (times n m).
Proof.
  intros H. induction n as [|n IH]; [apply emits_ret|].
  cbn [times]. by apply emits_bind.
Qed.

Lemma emits_do_while {L} fuel (body : M L unit) (cond : L -> bool) :
  emits bad body -> emits bad (do_while fuel body cond).
Proof.
  intros H. induction fuel as [|fuel IH]; [apply emits_diverge|].
  intros l w. cbn [do_while].
  pose proof (emits_seq body
    (fun r l w => match r with
                  | Val _ => if cond l then do_while fuel body cond l w
                             else (Val tt, l, w)
                  | Brk => (Val tt, l, w)
                  | r => (r, l, w)
                  end) H) as Hs.
  destruct (body l w) as [[r l1] w1] eqn:Heq.
  specialize (Hs ltac:(intros [a| |e|] l' w';
                       [destruct (cond l'); [apply IH|by exists []]
                       |by exists []..]) l w).
  rewrite Heq in Hs. cbn in Hs. by destruct r.
Qed.

Lemma emits_promise_all2 {L} (a b : M L unit) :
  emits bad a -> emits bad b -> emits bad (promise_all2 a b).
Proof.
  intros Ha Hb l w.
  pose proof (emits_seq a
    (fun r l w => match r with
                  | Exn e => match b l w with
                             | (Diverge, l2, w2) => (Diverge, l2, w2)
                             | (_, l2, w2) => (Exn e, l2, w2)
                             end
                  | Val _ => b l w
                  | r => (r, l, w)
                  end) Ha) as H.
  unfold promise_all2. destruct (a l w) as [[r l1] w1] eqn:Heq.
  assert (Hb' : forall e l' w',
             exists new,
               history (match b l' w' with
                        | (Diverge, l2, w2) => (Diverge, l2, w2)
                        | (_, l2, w2) => (Exn e, l2, w2)
                        end : Res unit * L * World).2 = new ++ history w'
               /\ Forall (fun ev => avoids bad ev = true) new).
  { intros e l' w'. destruct (Hb l' w') as (new & Hh & Hnew). exists new.
    by destruct (b l' w') as [[[[]| | |] l''] w'']. }
  specialize (H ltac:(intros [a'| |e|] l' w';
                      [apply Hb|by exists []|apply Hb'|by exists []]) l w).
  rewrite Heq in H. cbn in H. by destruct r.
Qed.

End Emits.

Create HintDb emits.

#[local] Hint Resolve emits_ret emits_throw emits_break emits_diverge
  emits_read emits_assign emits_read_world emits_random emits_now
  emits_set_hasRecaptchaPlugin emits_set_hasNopechaExtension emits_delay
  : emits.

(** Discharges [bad R op = false] for a concrete operation. *)
Ltac not_bad :=
  first
    [ reflexivity
    | match goal with
      | H : forall R op, _ -> ?bad R op = false |- ?bad _ _ = false =>
          apply H; reflexivity
      end ].

Ltac emits_step :=
  first
    [ solve [auto with emits]
    | match goal with H : _ |- emits _ _ => simple eapply H end
    | apply emits_bind; [|intros ?]
    | apply emits_call; not_bad
    | apply emits_await
    | apply promise_emits_forget
    | apply promise_emits_perform; not_bad
    | apply emits_try_catch; [|intros ?]
    | apply emits_try_finally
    | apply emits_call_fn
    | apply emits_when
    | apply emits_times
    | apply emits_do_while
    | apply emits_promise_all2
    | apply emits_record; cbn; not_bad
    | match goal with
      | |- emits _ (match ?x with _ => _ end) => destruct x
      | |- emits _ (if ?x then _ else _) => destruct x
      | |- context [match ?x with _ => _ end] => is_var x; destruct x
      end ].

Ltac emits_go := cbn zeta; repeat emits_step.

(** *** The functions that neither close anything nor touch the form *)

Section EmitsQuiet.

Variable env : Env.
Variable bad : forall R, Op R -> bool.
Hypothesis Hbad :
  forall R op, is_close_op R op || is_form_op R op = false -> bad R op = false.

Lemma emits_solveSimpleCaptchas page :
  emits bad (solveSimpleCaptchas env page).
Proof. unfold solveSimpleCaptchas, click_when_present. emits_go. Qed.

Lemma emits_checkForChatGPTAtCapacity {L} fuel page opts :
  emits bad (checkForChatGPTAtCapacity env fuel page opts : M L unit).
Proof.
  pose proof emits_solveSimpleCaptchas.
  unfold checkForChatGPTAtCapacity, checkForChatGPTAtCapacity_body,
    capacity_cycle.
  emits_go.
Qed.

Lemma emits_race_step fuel page condition ms ev :
  promise_emits bad condition ->
  emits bad (race_step env fuel page condition ms ev).
Proof.
  intros Hc. pose proof (@emits_checkForChatGPTAtCapacity Race).
  unfold race_step, condition_settles, condition_then, condition_catch,
    waitForCapacityText_enter, waitForCapacityText_resume, setTimeout,
    resolve, reject.
  destruct ev; emits_go.
Qed.

Lemma emits_race_until_settled turns fuel n page condition ms :
  promise_emits bad condition ->
  emits bad (race_until_settled env turns fuel n page condition ms).
Proof.
  intros Hc. pose proof (fun ev => emits_race_step fuel page condition ms ev Hc).
  revert n.
  induction turns as [|turns IH]; intros n; cbn [race_until_settled]; emits_go.
Qed.

Lemma emits_waitForConditionOrAtCapacity {L} fuel page condition opt_ms :
  promise_emits bad condition ->
  emits bad (waitForConditionOrAtCapacity env fuel page condition opt_ms
             : M L unit).
Proof.
  intros Hc.
  pose proof (fun turns n ms =>
                emits_race_until_settled turns fuel n page condition ms Hc).
  unfold waitForConditionOrAtCapacity, race_executor, setTimeout. emits_go.
Qed.

Lemma emits_first_page_or_new {L} b :
  emits bad (first_page_or_new env b : M L Page).
Proof. unfold first_page_or_new. emits_go. Qed.

Lemma emits_initializeNopechaExtension {L} b opt_minimize nopechaKey :
  emits bad (initializeNopechaExtension env b opt_minimize nopechaKey : M L unit).
Proof.
  pose proof (@emits_first_page_or_new L).
  unfold initializeNopechaExtension. emits_go.
Qed.

Lemma emits_getBrowser {L} opts :
  emits bad (getBrowser env opts : M L Browser).
Proof.
  pose proof (@emits_first_page_or_new L).
  pose proof (@emits_initializeNopechaExtension L).
  unfold getBrowser, validateProxyIp. emits_go.
Qed.

Lemma emits_waitForRecaptcha {L} fuel page opt_ms timeoutMs :
  emits bad (waitForRecaptcha env fuel page opt_ms timeoutMs : M L unit).
Proof.
  pose proof emits_solveSimpleCaptchas.
  unfold waitForRecaptcha. emits_go.
Qed.

(** The block of [try] up to the branch on [email && password]. *)
Lemma emits_getOpenAIAuth_try_without_login fuel o :
  truthy (ao_email o) && truthy (ao_password o) = false ->
  emits bad (getOpenAIAuth_try env fuel o).
Proof.
  intros Hskip.
  pose proof (@emits_first_page_or_new AuthLocals).
  pose proof (@emits_getBrowser AuthLocals).
  pose proof (@emits_checkForChatGPTAtCapacity AuthLocals).
  unfold getOpenAIAuth_try, with_browser, ensure_browser, ensure_page,
    authenticate.
  rewrite Hskip. emits_go.
Qed.

End EmitsQuiet.

(** *** The functions that close nothing *)

Section EmitsOpen.

Variable env : Env.
Variable bad : forall R, Op R -> bool.
Hypothesis Hbad : forall R op, is_close_op R op = false -> bad R op = false.

Lemma bad_quiet R (op : Op R) :
  is_close_op R op || is_form_op R op = false -> bad R op = false.
Proof. intros [H _]%orb_false_elim. by apply Hbad. Qed.

Lemma emits_login {L} fuel page email password isGoogleLogin isMicrosoftLogin
    timeoutMs :
  emits bad (login env fuel page email password isGoogleLogin isMicrosoftLogin
               timeoutMs : M L unit).
Proof.
  pose proof (@emits_checkForChatGPTAtCapacity env bad bad_quiet L).
  pose proof (@emits_waitForConditionOrAtCapacity env bad bad_quiet L).
  pose proof (@emits_waitForRecaptcha env bad bad_quiet L).
  unfold login, login_google, login_microsoft, login_openai,
    press_enter_and_navigate, not_awaited, submit_op.
  emits_go.
Qed.

Lemma emits_getOpenAIAuth_try fuel o :
  emits bad (getOpenAIAuth_try env fuel o).
Proof.
  pose proof (@emits_first_page_or_new env bad bad_quiet AuthLocals).
  pose proof (@emits_getBrowser env bad bad_quiet AuthLocals).
  pose proof (@emits_checkForChatGPTAtCapacity env bad bad_quiet AuthLocals).
  pose proof (@emits_login AuthLocals).
  unfold getOpenAIAuth_try, with_browser, ensure_browser, ensure_page,
    authenticate.
  emits_go.
Qed.

End EmitsOpen.

(** ** Runs that return *)

Lemma bind_val_inv {L A B} (m : M L A) (k : A -> M L B) l w b l' w' :
  (m ≫= k) l w = (Val b, l', w') ->
  exists a l1 w1, m l w = (Val a, l1, w1) /\ k a l1 w1 = (Val b, l', w').
Proof.
  unfold mbind, M_bind. destruct (m l w) as [[[a| |e|] l1] w1]; try done.
  intros H. by exists a, l1, w1.
Qed.

Lemma call_val_inv env {L R} (op : Op R) (l : L) w r l' w' :
  call env op l w = (Val r, l', w') ->
  l' = l /\ w' = record_event (Called _ op (Returned r)) w.
Proof.
  unfold call, await, perform.
  destruct (answer env (history w) R op) as [r0|e]; [|done].
  by intros [= <- <- <-].
Qed.

Lemma bind_call env {L R B} (op : Op R) (k : R -> M L B) l w :
  (call env op ≫= k) l w =
  match answer env (history w) R op with
  | Returned r => k r l (record_event (Called R op (Returned r)) w)
  | Thrown e => (Exn e, l, record_event (Called R op (Thrown e)) w)
  end.
Proof.
  unfold mbind, M_bind, call, await, perform.
  by destruct (answer env (history w) R op).
Qed.

Lemma call_cases env {L R} (op : Op R) (l : L) w :
  call env op l w =
  match answer env (history w) R op with
  | Returned r => (Val r, l, record_event (Called R op (Returned r)) w)
  | Thrown e => (Exn e, l, record_event (Called R op (Thrown e)) w)
  end.
Proof.
  unfold call, await, perform. by destruct (answer env (history w) R op).
Qed.

Lemma bind_delay {L B} ms (k : unit -> M L B) l w :
  (delay ms ≫= k) l w = k tt l (record_event (Delayed ms) w).
Proof. done. Qed.

Lemma replicate_snoc_cons {A} n (x : A) l :
  replicate n x ++ x :: l = x :: replicate n x ++ l.
Proof. induction n as [|n IH]; [done|]. cbn. by rewrite IH. Qed.

(** [n] times the same call: all of them return, or one throws after
    [k < n] that returned. *)
Lemma times_call_cases env {L} n (op : Op unit) (l : L) :
  forall w,
    (exists w',
        times n (call env op) l w = (Val tt, l, w')
        /\ extends_by (replicate n (Called _ op (Returned tt))) w w')
    \/ (exists e k w',
           (k < n)%nat
           /\ times n (call env op) l w = (Exn e, l, w')
           /\ extends_by (Called _ op (Thrown e)
                          :: replicate k (Called _ op (Returned tt))) w w').
Proof.
  induction n as [|n IH]; intros w.
  - left. exists w. split; [done|]. apply extends_by_refl.
  - cbn [times]. rewrite bind_call.
    destruct (answer env (history w) _ op) as [[]|e].
    + destruct (IH (record_event (Called _ op (Returned tt)) w))
        as [(w' & -> & Hext)|(e & k & w' & Hk & -> & Hext)].
      * left. exists w'. split; [done|].
        destruct Hext as (Hh & Hp & Hn). repeat split; try done.
        rewrite Hh. unfold record_event. cbn [history app].
        by rewrite replicate_snoc_cons.
      * right. exists e, (S k), w'. split; [lia|]. split; [done|].
        destruct Hext as (Hh & Hp & Hn). repeat split; try done.
        rewrite Hh. unfold record_event. cbn [history app].
        by rewrite replicate_snoc_cons.
    + right. eexists e, 0%nat, _. split; [lia|]. split; [done|].
      apply extends_by_record, extends_by_refl.
Qed.


Lemma grows_trans w1 w2 w3 : grows w1 w2 -> grows w2 w3 -> grows w1 w3.
Proof.
  intros [n1 H1] [n2 H2]. exists (n2 ++ n1). by rewrite H2, H1, app_assoc.
Qed.

Lemma emits_grows {L A} (m : M L A) l w r l' w' :
  emits no_op m -> m l w = (r, l', w') -> grows w w'.
Proof.
  intros He Heq. destruct (He l w) as (new & Hh & _). rewrite Heq in Hh.
  by exists new.
Qed.

(** ** Which statements leave the locals alone *)

Section Keeps.

Variable env : Env.

Lemma keeps_ret {L A} (a : A) : keeps (mret a : M L A).
Proof. done. Qed.

Lemma keeps_throw {L A} e : keeps (throw e : M L A).
Proof. done. Qed.

Lemma keeps_break {L A} : keeps (break : M L A).
Proof. done. Qed.

Lemma keeps_read {L X} (f : L -> X) : keeps (read f).
Proof. done. Qed.

Lemma keeps_read_world {L X} (f : World -> X) : keeps (read_world f : M L X).
Proof. done. Qed.

Lemma keeps_write_world {L} (f : World -> World) :
  keeps (write_world f : M L unit).
Proof. done. Qed.

Lemma keeps_delay {L} ms : keeps (delay ms : M L unit).
Proof. done. Qed.

Lemma keeps_await {L A} (p : Promise A) : keeps (await p : M L A).
Proof. intros l w. unfold await. by destruct (p w) as [[a|e] w']. Qed.

Lemma keeps_call {L R} (op : Op R) : keeps (call env op : M L R).
Proof. apply keeps_await. Qed.

Lemma keeps_call_fn {L L' A} (init : L') (body : M L' A) :
  keeps (call_fn init body : M L A).
Proof. intros l w. unfold call_fn. by destruct (body init w) as [[r l'] w']. Qed.

Lemma keeps_bind {L A B} (m : M L A) (k : A -> M L B) :
  keeps m -> (forall a, keeps (k a)) -> keeps (m ≫= k).
Proof.
  intros Hm Hk l w. unfold mbind, M_bind.
  specialize (Hm l w). destruct (m l w) as [[r l1] w1]. cbn in Hm. subst l1.
  destruct r as [a| |e|]; try done. apply Hk.
Qed.

Lemma keeps_try_catch {L A} (body : M L A) (handler : Err -> M L A) :
  keeps body -> (forall e, keeps (handler e)) -> keeps (try_catch body handler).
Proof.
  intros Hm Hk l w. unfold try_catch.
  specialize (Hm l w). destruct (body l w) as [[r l1] w1]. cbn in Hm. subst l1.
  destruct r as [a| |e|]; try done. apply Hk.
Qed.

Lemma keeps_when {L} (b : bool) (m : M L unit) : keeps m -> keeps (when b m).
Proof. intros H. by destruct b. Qed.

Lemma keeps_times {L} n (m : M L unit) : keeps m -> keeps (times n m).
Proof.
  intros H. induction n as [|n IH]; [done|]. cbn [times]. by apply keeps_bind.
Qed.

Lemma keeps_promise_all2 {L} (a b : M L unit) :
  keeps a -> keeps b -> keeps (promise_all2 a b).
Proof.
  intros Ha Hb l w. unfold promise_all2.
  specialize (Ha l w). destruct (a l w) as [[r l1] w1]. cbn in Ha. subst l1.
  destruct r as [[]| |e|]; try done; specialize (Hb l w1);
    by destruct (b l w1) as [[[[]| | |] l2] w2].
Qed.

End Keeps.

Create HintDb keeps.

#[local] Hint Resolve keeps_ret keeps_throw keeps_break keeps_read
  keeps_read_world keeps_write_world keeps_delay keeps_await keeps_call
  keeps_call_fn : keeps.

Ltac keeps_step :=
  first
    [ solve [auto with keeps]
    | match goal with H : _ |- keeps _ => simple eapply H end
    | apply keeps_bind; [|intros ?]
    | apply keeps_try_catch; [|intros ?]
    | apply keeps_when
    | apply keeps_times
    | apply keeps_promise_all2
    | match goal with
      | |- keeps (match ?x with _ => _ end) => destruct x
      | |- keeps (if ?x then _ else _) => destruct x
      end ].

Ltac keeps_go := cbn zeta; repeat keeps_step.

Lemma keeps_first_page_or_new env {L} b :
  keeps (first_page_or_new env b : M L Page).
Proof. unfold first_page_or_new. keeps_go. Qed.

Lemma keeps_getBrowser env {L} opts : keeps (getBrowser env opts : M L Browser).
Proof.
  pose proof (@keeps_first_page_or_new env L).
  unfold getBrowser, validateProxyIp, initializeNopechaExtension. keeps_go.
Qed.

Lemma keeps_login env {L} fuel page email password isGoogleLogin
    isMicrosoftLogin timeoutMs :
  keeps (login env fuel page email password isGoogleLogin isMicrosoftLogin
           timeoutMs : M L unit).
Proof.
  unfold login, login_google, login_microsoft, login_openai,
    press_enter_and_navigate, not_awaited, waitForConditionOrAtCapacity,
    checkForChatGPTAtCapacity, waitForRecaptcha.
  keeps_go.
Qed.

Lemma keeps_authenticate env fuel o page userAgent :
  keeps (authenticate env fuel o page userAgent).
Proof.
  pose proof (@keeps_login env AuthLocals).
  unfold authenticate, checkForChatGPTAtCapacity. keeps_go.
Qed.

(** ** The locals [browser] and [page] of [getOpenAIAuth] *)

Lemma ensure_page_supplied env o b l w p0 :
  page l = Some p0 -> ensure_page env o b l w = (Val p0, l, w).
Proof. intros Hp. unfold ensure_page. unfold_m. cbn. by rewrite Hp. Qed.

Lemma ensure_browser_page env o l w :
  page (ensure_browser env o l w).1.2 = page l.
Proof.
  unfold ensure_browser, mbind, M_bind, read.
  destruct (browser l); [done|].
  pose proof (keeps_getBrowser env (getBrowser_opts env o) l w) as Hk.
  destruct (getBrowser env (getBrowser_opts env o) l w) as [[r l1] w1].
  cbn in Hk. subst l1. by destruct r.
Qed.

(** A page given by the caller stays in [page]. *)
Lemma try_block_page env fuel o w p0 :
  ao_page o = Some p0 -> page (try_block env fuel o w).1.2 = Some p0.
Proof.
  intros Hp. unfold try_block, try_catch.
  set (l0 := {| browser := ao_browser o; page := ao_page o |}).
  assert (Hgoal : page (getOpenAIAuth_try env fuel o l0 w).1.2 = Some p0).
  { unfold getOpenAIAuth_try, with_browser, mbind, M_bind.
    pose proof (ensure_browser_page env o l0 w) as Hb.
    destruct (ensure_browser env o l0 w) as [[r1 l1] w1].
    cbn in Hb. rewrite Hp in Hb.
    destruct r1 as [b| |e|]; try done.
    pose proof (keeps_call env (UserAgent b) l1 w1) as Hk.
    destruct (call env (UserAgent b) l1 w1) as [[r2 l2] w2]. cbn in Hk. subst l2.
    destruct r2 as [ua| |e|]; try done.
    rewrite (ensure_page_supplied env o b l1 w2 p0 Hb).
    pose proof (keeps_authenticate env fuel o p0 ua l1 w2) as Hk.
    destruct (authenticate env fuel o p0 ua l1 w2) as [[r3 l3] w3].
    cbn in Hk. by subst l3. }
  destruct (getOpenAIAuth_try env fuel o l0 w) as [[r l1] w1].
  cbn in Hgoal. by destruct r.
Qed.

(** ** [getOpenAIAuth] is its [try] block followed by [finally] *)

Lemma getOpenAIAuth_unfold env {L} fuel o (l : L) w :
  getOpenAIAuth env fuel o l w =
  match try_block env fuel o w with
  | (Diverge, _, w1) => (Diverge, l, w1)
  | (r, loc, w1) =>
      match getOpenAIAuth_finally env (ao_browser o) (ao_page o) loc w1 with
      | (Val _, _, w2) => (r, l, w2)
      | (Brk, _, w2) => (Brk, l, w2)
      | (Exn e, _, w2) => (Exn e, l, w2)
      | (Diverge, _, w2) => (Diverge, l, w2)
      end
  end.
Proof.
  unfold getOpenAIAuth, call_fn, try_finally, try_block.
  destruct (try_catch _ _ _ _) as [[r loc] w1].
  destruct r as [a| |e|]; try done;
    by destruct (getOpenAIAuth_finally _ _ _ _ _) as [[[[]| | |] l2] w2].
Qed.

(** What [finally] leaves in the history. *)
Lemma getOpenAIAuth_finally_history env origBrowser origPage loc w :
  history (getOpenAIAuth_finally env origBrowser origPage loc w).2 =
  match origBrowser with
  | Some _ =>
      match page loc with
      | Some p =>
          if bool_decide (Some p = origPage) then history w
          else Called _ (PageClose p) (answer env (history w) _ (PageClose p))
               :: history w
      | None => history w
      end
  | None =>
      match browser loc with
      | Some b =>
          Called _ (BrowserClose b) (answer env (history w) _ (BrowserClose b))
          :: history w
      | None => history w
      end
  end.
Proof.
  unfold getOpenAIAuth_finally. unfold_m. cbn.
  destruct origBrowser as [b0|].
  - destruct (page loc) as [p|]; [|done].
    destruct (bool_decide (Some p = origPage)); cbn; [done|].
    by destruct (answer env (history w) _ (PageClose p)).
  - destruct (browser loc) as [b|]; [|done].
    by destruct (answer env (history w) _ (BrowserClose b)).
Qed.

Lemma getOpenAIAuth_history env {L} fuel o (l : L) w :
  (try_block env fuel o w).1.1 <> Diverge ->
  history (getOpenAIAuth env fuel o l w).2
  = history (getOpenAIAuth_finally env (ao_browser o) (ao_page o)
               (try_block env fuel o w).1.2 (try_block env fuel o w).2).2.
Proof.
  rewrite getOpenAIAuth_unfold.
  destruct (try_block env fuel o w) as [[r loc] w1]. cbn [fst snd].
  intros Hr. destruct r as [a| |e|]; try done;
    by destruct (getOpenAIAuth_finally _ _ _ _ _) as [[[[]| | |] l2] w2].
Qed.

(** ** [getBrowser] always launches, and returns what it launched *)

Lemma getBrowser_launch env {L} opts (l : L) w :
  exists pre out new,
    (pre = [] \/ exists token, pre = [PluginUsed token])
    /\ out = answer env (pre ++ history w) _ (Launch (launchOptions_of env opts))
    /\ history (getBrowser env opts l w).2
       = new ++ Called _ (Launch (launchOptions_of env opts)) out
             :: pre ++ history w
    /\ (forall b, (getBrowser env opts l w).1.1 = Val b -> out = Returned b).
Proof.
  assert (Hrest : forall b (minimize : bool) key l1 w1,
             exists new,
               history ((validateProxyIp env b minimize;;
                         initializeNopechaExtension env b (Some minimize) key;;
                         mret b : M L Browser) l1 w1).2 = new ++ history w1
               /\ forall b',
                    ((validateProxyIp env b minimize;;
                      initializeNopechaExtension env b (Some minimize) key;;
                      mret b : M L Browser) l1 w1).1.1 = Val b' -> b' = b).
  { intros b minimize key l1 w1.
    assert (He : emits no_op (validateProxyIp env b minimize;;
                              initializeNopechaExtension env b (Some minimize) key;;
                              mret b : M L Browser)).
    { pose proof (@emits_first_page_or_new env no_op ltac:(done) L).
      pose proof (@emits_initializeNopechaExtension env no_op ltac:(done) L).
      unfold validateProxyIp. emits_go. }
    destruct (He l1 w1) as (new & Hh & _). exists new. split; [done|].
    unfold mbind, M_bind, mret, M_ret.
    destruct (validateProxyIp env b minimize l1 w1) as [[[[]| | |] l2] w2];
      try done.
    destruct (initializeNopechaExtension env b (Some minimize) key l2 w2)
      as [[[[]| | |] l3] w3]; try done.
    cbn. by intros b' [= <-]. }
  unfold getBrowser. cbn zeta.
  set (token := or_default (bo_captchaToken opts) (CAPTCHA_TOKEN (process env))).
  set (key := or_default (bo_nopechaKey opts) (NOPECHA_KEY (process env))).
  set (minimize := default false (bo_minimize opts)).
  set (rest := fun b : Browser => (validateProxyIp env b minimize;;
                 initializeNopechaExtension env b (Some minimize) key;;
                 mret b : M L Browser)).
  change (exists pre out new,
    (pre = [] \/ exists token, pre = [PluginUsed token])
    /\ out = answer env (pre ++ history w) _ (Launch (launchOptions_of env opts))
    /\ history ((hasPlugin ← read_world hasRecaptchaPlugin;
                 when (truthy token && negb hasPlugin)
                   (write_world (set_hasRecaptchaPlugin true);;
                    write_world (record_event (PluginUsed (template token))));;
                 when (truthy key) (write_world (set_hasNopechaExtension true));;
                 browser ← call env (Launch (launchOptions_of env opts));
                 rest browser) l w).2
       = new ++ Called _ (Launch (launchOptions_of env opts)) out
             :: pre ++ history w
    /\ (forall b,
           ((hasPlugin ← read_world hasRecaptchaPlugin;
             when (truthy token && negb hasPlugin)
               (write_world (set_hasRecaptchaPlugin true);;
                write_world (record_event (PluginUsed (template token))));;
             when (truthy key) (write_world (set_hasNopechaExtension true));;
             browser ← call env (Launch (launchOptions_of env opts));
             rest browser) l w).1.1 = Val b -> out = Returned b)).
  assert (Hrest' : forall b l1 w1,
             exists new,
               history (rest b l1 w1).2 = new ++ history w1
               /\ forall b', (rest b l1 w1).1.1 = Val b' -> b' = b)
    by (intros; apply Hrest).
  clearbody rest. clear Hrest. unfold_m. cbn.
  destruct (truthy token && negb (hasRecaptchaPlugin w));
    destruct (truthy key); cbn;
    match goal with
    | |- context [answer env ?h _ (Launch ?lo)] =>
        destruct (answer env h _ (Launch lo)) as [b|e] eqn:Hans
    end; cbn;
    try (match goal with
         | |- context [rest ?b ?l1 ?w1] =>
             destruct (Hrest' b l1 w1) as (new & Hh & Hv)
         end);
    first
    [ (* launch threw *)
      (eexists [], _, []; split; [by left|]; split; [exact (eq_sym Hans)|];
       split; [done|]; done)
    | (eexists [_], _, []; split; [right; by eexists|]; split; [exact (eq_sym Hans)|];
       split; [done|]; done)
    | (eexists [], _, new; split; [by left|]; split; [exact (eq_sym Hans)|];
       split; [exact Hh|]; intros b' Hb'; f_equal; symmetry; by apply Hv)
    | (eexists [_], _, new; split; [right; by eexists|];
       split; [exact (eq_sym Hans)|];
       split; [exact Hh|]; intros b' Hb'; f_equal; symmetry; by apply Hv) ].
Qed.

(** ** [split] and [includes] *)

Lemma includes_append_sep c a s : includes c (a +:+ String c s) = true.
Proof.
  induction a as [|x a IH].
  - change ("" +:+ String c s) with (String c s). cbn [includes].
    by rewrite Ascii.eqb_refl.
  - change (String x a +:+ String c s) with (String x (a +:+ String c s)).
    cbn [includes]. destruct (Ascii.eqb x c); [done|exact IH].
Qed.

Lemma split_append_sep c a s :
  includes c a = false -> split c (a +:+ String c s) = a :: split c s.
Proof.
  induction a as [|x a IH].
  - intros _. change ("" +:+ String c s) with (String c s). cbn [split].
    by rewrite Ascii.eqb_refl.
  - change (String x a +:+ String c s) with (String x (a +:+ String c s)).
    cbn [includes split]. destruct (Ascii.eqb x c); [done|].
    intros H. by rewrite (IH H).
Qed.

Lemma split_without_sep c b : includes c b = false -> split c b = [b].
Proof.
  induction b as [|x b IH]; cbn [includes split]; [done|].
  destruct (Ascii.eqb x c); [done|]. intros H. by rewrite (IH H).
Qed.

Lemma ipPort_without_at s : includes "@" s = false -> ipPort s = s.
Proof. intros H. unfold ipPort. by rewrite H. Qed.

Lemma ipPort_between_ats a b rest :
  includes "@" a = false ->
  includes "@" b = false ->
  rest = "" \/ (exists rest', rest = "@" +:+ rest') ->
  ipPort (a +:+ "@" +:+ b +:+ rest) = b.
Proof.
  intros Ha Hb Hrest. unfold ipPort.
  change ("@" +:+ b +:+ rest) with (String "@" (b +:+ rest)).
  rewrite includes_append_sep, (split_append_sep _ _ _ Ha).
  destruct Hrest as [->|[rest' ->]].
  - replace (b +:+ "") with b
      by (clear; induction b as [|x b IH]; [done|];
          change (String x b +:+ "") with (String x (b +:+ "")); congruence).
    by rewrite (split_without_sep _ _ Hb).
  - change ("@" +:+ rest') with (String "@" rest').
    by rewrite (split_append_sep _ _ _ Hb).
Qed.

(** ** What the [try] block leaves in [browser] *)



Lemma getOpenAIAuth_try_launching env fuel o l w :
  browser l = None ->
  getOpenAIAuth_try env fuel o l w =
  match getBrowser env (getBrowser_opts env o) l w with
  | (Val b, l1, w1) => with_browser env fuel o b (set_browser (Some b) l1) w1
  | (Brk, l1, w1) => (Brk, l1, w1)
  | (Exn e, l1, w1) => (Exn e, l1, w1)
  | (Diverge, l1, w1) => (Diverge, l1, w1)
  end.
Proof.
  intros Hb. unfold getOpenAIAuth_try, ensure_browser. unfold_m. rewrite Hb.
  by destruct (getBrowser _ _ _ _) as [[[b| |e|] l1] w1].
Qed.


(** ** What the [try] block leaves in [page] *)


Lemma first_page_or_new_val env {L} b (l : L) w p l' w' :
  first_page_or_new env b l w = (Val p, l', w') ->
  l' = l
  /\ ((exists ps,
          history w' = Called _ (Pages b) (Returned (p :: ps)) :: history w)
      \/ history w'
         = Called _ (NewPage b) (Returned p)
           :: Called _ (Pages b) (Returned []) :: history w).
Proof.
  unfold first_page_or_new. intros H.
  apply bind_val_inv in H as (ps & l1 & w1 & Hps & H).
  apply call_val_inv in Hps as [-> ->].
  destruct ps as [|p' ps].
  - apply call_val_inv in H as [-> ->]. split; [done|]. by right.
  - injection H as <- <- <-. split; [done|]. left. by exists ps.
Qed.


(** ** The proxy argument of [getBrowser] *)

(** C8. [getBrowser] takes [proxyServer.split('@')[1]] to leave the
    credentials out, and that is the text between the first [@] and the
    second one.  When the user name has an [@] of its own, as an e-mail
    address has, what reaches the command line of the browser is neither
    the substring after the first [@] nor the host and port, but a part
    of the credentials, the password included. *)
Theorem C8_second_at_forwards_credentials :
  let proxy := "me@example.com:hunter2@10.0.0.1:3128" in
  let lo := launchOptions_of quiet_env (proxy_opts (Some proxy)) in
  substring_after_first "@" proxy = "example.com:hunter2@10.0.0.1:3128"
  /\ ipPort proxy = "example.com:hunter2"
  /\ args lo = baseArgs ++ ["--proxy-server=example.com:hunter2"]
  /\ history (getBrowser quiet_env (proxy_opts (Some proxy)) tt world0).2
     = [Called _ (Launch lo) (Returned 1%nat)].
Proof. by vm_compute. Qed.

(** ** What [getOpenAIAuth] closes *)



(** C10. In every run (also one that does not end) the events
    [getOpenAIAuth] adds contain no call of [close] at all when the
    caller supplied both the browser and the page, and no call of
    [browser.close()] when the caller supplied the browser. *)
Theorem C10_supplied_objects_stay_open env {L} fuel o (l : L) w :
  exists new,
    history (getOpenAIAuth env fuel o l w).2 = new ++ history w
    /\ (forall b0 p0,
           ao_browser o = Some b0 -> ao_page o = Some p0 ->
           Forall (fun ev => avoids is_close_op ev = true) new)
    /\ (forall b0,
           ao_browser o = Some b0 ->
           Forall (fun ev => avoids is_browser_close_op ev = true) new).
Proof.
  assert (Htry : forall bad,
             (forall R op, is_close_op R op = false -> bad R op = false) ->
             exists new,
               history (try_block env fuel o w).2 = new ++ history w
               /\ Forall (fun ev => avoids bad ev = true) new).
  { intros bad Hbad.
    assert (He : emits bad (try_catch (getOpenAIAuth_try env fuel o)
                              (fun err => throw err))).
    { apply emits_try_catch; [by apply emits_getOpenAIAuth_try|].
      intros e. apply emits_throw. }
    apply He. }
  assert (Hhist : history (getOpenAIAuth env fuel o l w).2
                  = history (try_block env fuel o w).2
                    \/ (try_block env fuel o w).1.1 <> Diverge).
  { destruct ((try_block env fuel o w).1.1) eqn:Hr; try (by right).
    left. rewrite getOpenAIAuth_unfold.
    destruct (try_block env fuel o w) as [[r loc] w1]. cbn in Hr. by subst r. }
  destruct (Htry no_op ltac:(done)) as (new0 & Hh0 & _).
  destruct Hhist as [Hsame|Hexit].
  - exists new0. split; [by rewrite Hsame|]. split.
    + intros b0 p0 _ _. destruct (Htry is_close_op ltac:(done)) as (new1 & Hh1 & Hnew1).
      rewrite Hh0 in Hh1. by apply app_inv_tail in Hh1 as ->.
    + intros b0 _.
      destruct (Htry is_browser_close_op) as (new1 & Hh1 & Hnew1).
      { intros R op. by destruct op. }
      rewrite Hh0 in Hh1. by apply app_inv_tail in Hh1 as ->.
  - rewrite (getOpenAIAuth_history env fuel o l w Hexit),
      getOpenAIAuth_finally_history.
    destruct (ao_browser o) as [b0|] eqn:Hb0.
    + destruct (page (try_block env fuel o w).1.2) as [p|] eqn:Hp.
      * destruct (bool_decide (Some p = ao_page o)) eqn:Hsame.
        -- exists new0. split; [done|]. split.
           ++ intros ? p0 _ _.
              destruct (Htry is_close_op ltac:(done)) as (new1 & Hh1 & Hnew1).
              rewrite Hh0 in Hh1. by apply app_inv_tail in Hh1 as ->.
           ++ intros ? _.
              destruct (Htry is_browser_close_op) as (new1 & Hh1 & Hnew1).
              { intros R op. by destruct op. }
              rewrite Hh0 in Hh1. by apply app_inv_tail in Hh1 as ->.
        -- eexists (_ :: new0). split; [by rewrite Hh0|]. split.
           ++ intros ? p0 _ Hp0.
              rewrite (try_block_page env fuel o w p0 Hp0) in Hp.
              injection Hp as <-. rewrite Hp0 in Hsame.
              by rewrite bool_decide_eq_false in Hsame.
           ++ intros ? _. constructor; [done|].
              destruct (Htry is_browser_close_op) as (new1 & Hh1 & Hnew1).
              { intros R op. by destruct op. }
              rewrite Hh0 in Hh1. by apply app_inv_tail in Hh1 as ->.
      * exists new0. split; [done|]. split.
        -- intros ? p0 _ _.
           destruct (Htry is_close_op ltac:(done)) as (new1 & Hh1 & Hnew1).
           rewrite Hh0 in Hh1. by apply app_inv_tail in Hh1 as ->.
        -- intros ? _.
           destruct (Htry is_browser_close_op) as (new1 & Hh1 & Hnew1).
           { intros R op. by destruct op. }
           rewrite Hh0 in Hh1. by apply app_inv_tail in Hh1 as ->.
    + destruct (browser (try_block env fuel o w).1.2) as [b|].
      * eexists (_ :: new0). split; [by rewrite Hh0|]. by split.
      * exists new0. split; [done|]. by split.
Qed.

Lemma C10_supplied_objects_stay_open_witness :
  exists new,
    history (getOpenAIAuth quiet_env 10
               (with_login (auth_opts_with 5%nat (Some 6%nat))) tt world0).2
    = new ++ history world0
    /\ Forall (fun ev => avoids is_close_op ev = true) new
    /\ Forall (fun ev => avoids is_browser_close_op ev = true) new.
Proof.
  destruct (C10_supplied_objects_stay_open quiet_env 10
              (with_login (auth_opts_with 5%nat (Some 6%nat))) tt world0)
    as (new & Hh & Hboth & Hbrowser).
  exists new. split; [exact Hh|]. split.
  - apply (Hboth 5%nat 6%nat); reflexivity.
  - apply (Hbrowser 5%nat); reflexivity.
Defined.

(** ** The result of [getOpenAIAuth] *)

Lemma cookie_map_snoc cs c :
  cookie_map (cs ++ [c]) = <[name c := c]> (cookie_map cs).
Proof. unfold cookie_map. by rewrite foldl_app. Qed.

Lemma last_named_snoc k cs c :
  last_named k (cs ++ [c])
  = if String.eqb (name c) k then Some c else last_named k cs.
Proof.
  unfold last_named. rewrite List.filter_app. cbn.
  destruct (String.eqb (name c) k).
  - by rewrite last_snoc.
  - by rewrite app_nil_r.
Qed.

(** The map keys every name to the last captured cookie of that name. *)
Lemma cookie_map_lookup cs k : cookie_map cs !! k = last_named k cs.
Proof.
  induction cs as [|c cs IH] using rev_ind; [done|].
  rewrite cookie_map_snoc, last_named_snoc.
  destruct (String.eqb_spec (name c) k) as [->|Hne].
  - by rewrite lookup_insert_eq.
  - by rewrite lookup_insert_ne.
Qed.

Lemma last_named_name k cs c : last_named k cs = Some c -> name c = k /\ c ∈ cs.
Proof.
  induction cs as [|c' cs IH] using rev_ind; [done|].
  rewrite last_named_snoc.
  destruct (String.eqb_spec (name c') k) as [Heq|Hne].
  - intros [= <-]. split; [done|]. apply elem_of_app. right. apply list_elem_of_here.
  - intros H. destruct (IH H) as [? ?]. split; [done|].
    apply elem_of_app. by left.
Qed.

Lemma last_named_captured cs c :
  c ∈ cs -> exists c', last_named (name c) cs = Some c' /\ name c' = name c.
Proof.
  induction cs as [|c' cs IH] using rev_ind; [by intros ?%elem_of_nil|].
  rewrite last_named_snoc. intros [Hin| ->%list_elem_of_singleton]%elem_of_app.
  - destruct (String.eqb_spec (name c') (name c)); [by eexists|by apply IH].
  - rewrite String.eqb_refl. by eexists.
Qed.

(** A successful run of the [try] block: the user agent was asked for,
    the cookies were read after it, last of all, and the result is made
    of the two answers. *)
Lemma getOpenAIAuth_try_val env fuel o l w auth l' w' :
  getOpenAIAuth_try env fuel o l w = (Val auth, l', w') ->
  exists b p ua cs new2 new1,
    history w'
    = Called _ (Cookies p) (Returned cs)
      :: new2 ++ Called _ (UserAgent b) (Returned ua) :: new1 ++ history w
    /\ auth = authInfo ua cs.
Proof.
  unfold getOpenAIAuth_try. intros H.
  apply bind_val_inv in H as (b & l1 & w1 & Hb & H).
  assert (Hg1 : grows w w1).
  { eapply emits_grows; [|exact Hb].
    pose proof (@emits_getBrowser env no_op ltac:(done) AuthLocals).
    unfold ensure_browser. emits_go. }
  unfold with_browser in H.
  apply bind_val_inv in H as (ua & l2 & w2 & Hua & H).
  apply call_val_inv in Hua as [-> ->].
  apply bind_val_inv in H as (p & l3 & w3 & Hp & H).
  assert (Hg3 : grows (record_event (Called _ (UserAgent b) (Returned ua)) w1) w3).
  { eapply emits_grows; [|exact Hp].
    pose proof (@emits_first_page_or_new env no_op ltac:(done) AuthLocals).
    unfold ensure_page. emits_go. }
  unfold authenticate in H. cbn zeta in H.
  apply bind_val_inv in H as (u4 & l4 & w4 & H4 & H).
  apply bind_val_inv in H as (u5 & l5 & w5 & H5 & H).
  apply bind_val_inv in H as (hp & l6 & w6 & H6 & H).
  apply bind_val_inv in H as (u7 & l7 & w7 & H7 & H).
  apply bind_val_inv in H as (u8 & l8 & w8 & H8 & H).
  apply bind_val_inv in H as (cs & l9 & w9 & H9 & H).
  apply call_val_inv in H9 as [-> ->].
  injection H as <- <- <-.
  assert (Hg8 : grows w3 w8).
  { pose proof (@emits_checkForChatGPTAtCapacity env no_op ltac:(done) AuthLocals) as Hc.
    pose proof (@emits_login env no_op ltac:(done) AuthLocals) as Hl.
    eapply grows_trans; [eapply emits_grows; [|exact H4]; emits_go|].
    eapply grows_trans; [eapply emits_grows; [|exact H5]; emits_go|].
    eapply grows_trans; [eapply emits_grows; [|exact H6]; emits_go|].
    eapply grows_trans; [eapply emits_grows; [|exact H7]; emits_go|].
    eapply emits_grows; [|exact H8]. emits_go. }
  destruct Hg1 as [n1 Hn1]. destruct (grows_trans _ _ _ Hg3 Hg8) as [n2 Hn2].
  exists b, p, ua, cs, n2, n1. split; [|done].
  unfold record_event in *. cbn in *. by rewrite Hn2, Hn1.
Qed.

Lemma emits_getOpenAIAuth_finally env bad origBrowser origPage :
  (forall R op, is_close_op R op = true -> bad R op = false) ->
  emits bad (getOpenAIAuth_finally env origBrowser origPage).
Proof.
  intros Hbad. unfold getOpenAIAuth_finally.
  assert (forall p, emits bad (call env (PageClose p) : M AuthLocals unit))
    by (intros; apply emits_call; by apply Hbad).
  assert (forall b, emits bad (call env (BrowserClose b) : M AuthLocals unit))
    by (intros; apply emits_call; by apply Hbad).
  emits_go.
Qed.

(** With no email or no password nothing touches the login form. *)
Lemma emits_getOpenAIAuth_without_login env {L} fuel o :
  truthy (ao_email o) && truthy (ao_password o) = false ->
  emits is_form_op (getOpenAIAuth env fuel o : M L OpenAIAuth).
Proof.
  intros Hskip. unfold getOpenAIAuth.
  apply emits_call_fn, emits_try_finally.
  - apply emits_try_catch; [|intros; apply emits_throw].
    apply emits_getOpenAIAuth_try_without_login; [|done].
    intros R op [_ H]%orb_false_elim. done.
  - apply emits_getOpenAIAuth_finally. intros R op. by destruct op.
Qed.

(** *** The claims about the result *)

(** C5. Without email and password the login is skipped, but the
    tokens are read from the cookies of the page whatever it holds: a
    page that carries the session cookie of an earlier login (here the
    caller's own page) yields a session token all the same, where the
    result was to carry the clearance token only. *)
Theorem C5_session_token_without_login :
  exists auth w',
    getOpenAIAuth (env_of logged_in_answer) 10
      (auth_opts_with 5%nat (Some 6%nat)) tt world0 = (Val auth, tt, w')
    /\ ao_email (auth_opts_with 5%nat (Some 6%nat)) = None
    /\ ao_password (auth_opts_with 5%nat (Some 6%nat)) = None
    /\ clearanceToken auth = Some "clearance-1"
    /\ sessionToken auth = Some "session-1"
    /\ sessionToken auth <> None.
Proof.
  eexists _, _. split; [vm_compute; reflexivity|]. by vm_compute.
Qed.

(** X28. A successful run has asked the browser for its user
    agent and, last of all before [finally], the page for its cookies.
    The result carries that user agent; its [cookies] map keys every
    name to the last captured cookie of that name, so every captured
    cookie's name is a key; [clearanceToken] and [sessionToken] are the
    values of the map's entries for [cf_clearance] and
    [__Secure-next-auth.session-token], and are undefined when no such
    cookie was captured.  When email or password is missing or empty, no
    call of the run touches the login form. *)
Theorem auth_result_of_successful_run env {L} fuel o (l : L) w auth w' :
  getOpenAIAuth env fuel o l w = (Val auth, l, w') ->
  exists b p ua cs new3 new2 new1,
    history w'
    = new3 ++ Called _ (Cookies p) (Returned cs)
           :: new2 ++ Called _ (UserAgent b) (Returned ua)
           :: new1 ++ history w
    /\ userAgent auth = ua
    /\ (forall k, cookies auth !! k = last_named k cs)
    /\ (forall c, c ∈ cs ->
                  exists c', cookies auth !! name c = Some c'
                             /\ name c' = name c /\ c' ∈ cs)
    /\ clearanceToken auth = value <$> last_named "cf_clearance" cs
    /\ sessionToken auth
       = value <$> last_named "__Secure-next-auth.session-token" cs
    /\ (truthy (ao_email o) && truthy (ao_password o) = false ->
        Forall (fun ev => avoids is_form_op ev = true)
          (new3 ++ Called _ (Cookies p) (Returned cs)
                :: new2 ++ Called _ (UserAgent b) (Returned ua) :: new1)).
Proof.
  intros Hrun.
  assert (Htry : exists loc w1,
             getOpenAIAuth_try env fuel o
               {| browser := ao_browser o; page := ao_page o |} w
             = (Val auth, loc, w1)
             /\ grows w1 w').
  { revert Hrun. rewrite getOpenAIAuth_unfold. unfold try_block, try_catch.
    destruct (getOpenAIAuth_try _ _ _ _ _) as [[r loc] w1].
    destruct r as [a| |e|]; unfold throw; cbn [fst snd];
      pose proof (emits_getOpenAIAuth_finally env no_op (ao_browser o)
                    (ao_page o) ltac:(done) loc w1) as (new & Hh & _);
      destruct (getOpenAIAuth_finally _ _ _ _ _) as [[[[]| | |] l2] w2];
      try done.
    intros [= <- <-]. exists loc, w1. split; [done|]. by exists new. }
  destruct Htry as (loc & w1 & Htry & [new3 Hnew3]).
  apply getOpenAIAuth_try_val in Htry
    as (b & p & ua & cs & new2 & new1 & Hh & ->).
  exists b, p, ua, cs, new3, new2, new1.
  assert (Hhist : history w'
                  = new3 ++ Called _ (Cookies p) (Returned cs)
                         :: new2 ++ Called _ (UserAgent b) (Returned ua)
                         :: new1 ++ history w)
    by by rewrite Hnew3, Hh.
  split; [done|]. split; [done|].
  split; [intros k; apply cookie_map_lookup|].
  split.
  { intros c Hc. cbn [cookies authInfo]. rewrite cookie_map_lookup.
    destruct (last_named_captured cs c Hc) as (c' & Hc' & Hname).
    exists c'. split; [done|]. split; [done|].
    by apply last_named_name in Hc' as [_ ?]. }
  split; [cbn; by rewrite cookie_map_lookup|].
  split; [cbn; by rewrite cookie_map_lookup|].
  intros Hskip.
  destruct (emits_getOpenAIAuth_without_login env fuel o Hskip l w)
    as (new & Hh' & Hnew).
  rewrite Hrun in Hh'. cbn in Hh'. rewrite Hhist in Hh'.
  replace (new3 ++ Called _ (Cookies p) (Returned cs)
                :: new2 ++ Called _ (UserAgent b) (Returned ua)
                :: new1 ++ history w)
    with ((new3 ++ Called _ (Cookies p) (Returned cs)
                :: new2 ++ Called _ (UserAgent b) (Returned ua) :: new1)
          ++ history w) in Hh'.
  - by apply app_inv_tail in Hh' as ->.
  - rewrite <- !app_assoc. cbn. by rewrite <- !app_assoc.
Qed.

Lemma auth_result_of_successful_run_witness :
  exists b p ua cs new3 new2 new1,
    history (getOpenAIAuth (env_of logged_in_answer) 10 (with_login auth_opts0) tt world0).2
    = new3 ++ Called _ (Cookies p) (Returned cs)
           :: new2 ++ Called _ (UserAgent b) (Returned ua)
           :: new1 ++ history world0
    /\ userAgent (authInfo "Mozilla/5.0" [clearance_cookie; session_cookie]) = ua
    /\ (forall k,
           cookies (authInfo "Mozilla/5.0" [clearance_cookie; session_cookie]) !! k
           = last_named k cs)
    /\ (forall c, c ∈ cs ->
                  exists c',
                    cookies (authInfo "Mozilla/5.0"
                               [clearance_cookie; session_cookie]) !! name c
                    = Some c'
                    /\ name c' = name c /\ c' ∈ cs)
    /\ clearanceToken (authInfo "Mozilla/5.0" [clearance_cookie; session_cookie])
       = value <$> last_named "cf_clearance" cs
    /\ sessionToken (authInfo "Mozilla/5.0" [clearance_cookie; session_cookie])
       = value <$> last_named "__Secure-next-auth.session-token" cs
    /\ (truthy (ao_email (with_login auth_opts0)) && truthy (ao_password (with_login auth_opts0)) = false ->
        Forall (fun ev => avoids is_form_op ev = true)
          (new3 ++ Called _ (Cookies p) (Returned cs)
                :: new2 ++ Called _ (UserAgent b) (Returned ua) :: new1)).
Proof.
  apply (auth_result_of_successful_run (env_of logged_in_answer) 10 (with_login auth_opts0) tt world0
           (authInfo "Mozilla/5.0" [clearance_cookie; session_cookie])).
  vm_compute. reflexivity.
Defined.

(** ** The default of [timeoutMs] *)

Section EmitsTimeout.

Variable env : Env.











End EmitsTimeout.

(** *** The page's default timeout and the bound of the guard's reload *)







(** ** A browser that is launched but not handed over *)

(** C4. A browser that [getBrowser] has launched but does not return,
    here because the proxy comes out at another address than
    [PROXY_VALIDATE_IP], never reaches the variable [browser]: the
    [finally] of [getOpenAIAuth] finds nothing to close, the call throws
    and the browser it launched stays open. *)
Theorem C4_launched_browser_is_not_closed :
  exists lo w',
    getOpenAIAuth other_proxy_env 10 auth_opts0 tt world0
    = (Exn (Error "Proxy IP mismatch: 203.0.113.7 !== 10.0.0.1"), tt, w')
    /\ ao_browser auth_opts0 = None
    /\ history w'
       = [ Called _ (FetchIp 2%nat) (Returned (Some "203.0.113.7"));
           Called _ (NewPage 1%nat) (Returned 2%nat);
           Called _ (Pages 1%nat) (Returned []);
           Called _ (Launch lo) (Returned 1%nat) ]
    /\ Forall (fun ev => avoids is_close_op ev = true) (history w')
    /\ browser (try_block other_proxy_env 10 auth_opts0 world0).1.2 = None.
Proof.
  eexists _, _. split; [vm_compute; reflexivity|].
  split; [done|]. split; [vm_compute; reflexivity|].
  split; [by repeat constructor|by vm_compute].
Qed.

(** * Further properties of the code *)

(** ** [solveSimpleCaptchas] *)

Lemma extends_by_nil_history new w' :
  extends_by new world0 w' -> new = history w'.
Proof. intros (Hh & _). by rewrite Hh, app_nil_r. Qed.

Lemma extends_by_history new w w' :
  extends_by new w w' -> history w = [] -> new = history w'.
Proof. intros (Hh & _) Hw. by rewrite Hh, Hw, app_nil_r. Qed.

(** X1. [solveSimpleCaptchas] never throws, whatever the driver does: it
    returns, leaves the module flags alone, and all it has done is to
    query the page it was given for its two selectors, to click, and to
    pause 2000 ms before and 1000 ms after a click; every element it
    clicked is one a query returned. *)
Theorem solveSimpleCaptchas_never_throws env page w :
  exists w' new,
    solveSimpleCaptchas env page tt w = (Val tt, tt, w')
    /\ extends_by new w w'
    /\ Forall (fun ev => is_captcha_event page ev = true) new
    /\ omap clicked new ⊆ omap found new.
Proof.
  unfold solveSimpleCaptchas, click_when_present. unfold_m.
  settle_answers;
    (eexists _, _; split; [reflexivity|]; split; [extends_by_events|];
     split;
     [ repeat constructor; cbn; rewrite ?Nat.eqb_refl; reflexivity
     | cbn; set_solver ]).
Qed.

(** X2. The two captcha kinds are handled inside one [try]: a call that
    throws is the last thing [solveSimpleCaptchas] does.  So when the
    query for the "Verify you are human" element throws, that query is
    all that happens and the hCaptcha box is not looked for; a run in
    which nothing threw has queried both, the hCaptcha box last. *)
Theorem solveSimpleCaptchas_first_failure_ends env page w :
  exists w' new,
    solveSimpleCaptchas env page tt w = (Val tt, tt, w')
    /\ extends_by new w w'
    /\ (forall ev, ev ∈ new -> is_thrown ev = true -> head new = Some ev)
    /\ (Forall (fun ev => is_thrown ev = false) new ->
        omap queried new = [hcaptchaSelector; verifySelector])
    /\ (forall e,
          answer env (history w) _ (Query page verifySelector) = Thrown e ->
          new = [Called _ (Query page verifySelector) (Thrown e)]).
Proof.
  unfold solveSimpleCaptchas, click_when_present. unfold_m.
  settle_answers;
    (eexists _, _; split; [reflexivity|]; split; [extends_by_events|];
     split; [|split];
     [ intros ev Hin Hthrown;
       repeat (apply elem_of_cons in Hin as [->|Hin]; [done|]);
       by apply elem_of_nil in Hin
     | intros Hnone; first [ reflexivity | by inversion Hnone ]
     | intros e' He'; unfold verifySelector in He';
       first [ congruence
             | match goal with
               | H : answer _ _ _ _ = Thrown _ |- _ =>
                   rewrite H in He'; by injection He' as ->
               end ] ]).
Qed.

Lemma solveSimpleCaptchas_first_failure_ends_witness :
  exists new,
    extends_by new world0 (solveSimpleCaptchas quiet_env 0%nat tt world0).2
    /\ omap queried new = [hcaptchaSelector; verifySelector].
Proof.
  destruct (solveSimpleCaptchas_first_failure_ends quiet_env 0%nat world0)
    as (w' & new & Heq & Hext & _ & Hboth & _).
  exists new. rewrite Heq. split; [exact Hext|]. apply Hboth.
  rewrite (extends_by_nil_history _ _ Hext).
  replace w' with (solveSimpleCaptchas quiet_env 0%nat tt world0).2
    by (by rewrite Heq).
  vm_compute. by repeat constructor.
Defined.

(** ** The verdict and the reloads of [checkForChatGPTAtCapacity] *)

Lemma banner_answers_app h1 h2 :
  banner_answers (h1 ++ h2) = banner_answers h1 ++ banner_answers h2.
Proof. apply omap_app. Qed.

Lemma reloads_app h1 h2 : reloads (h1 ++ h2) = (reloads h1 + reloads h2)%nat.
Proof. unfold reloads. by rewrite List.filter_app, length_app. Qed.

Lemma sightings_app h1 h2 :
  sightings (h1 ++ h2) = (sightings h1 + sightings h2)%nat.
Proof.
  unfold sightings. by rewrite banner_answers_app, List.filter_app, length_app.
Qed.

Lemma no_guard_calls_silent new :
  no_guard_calls new -> banner_answers new = [] /\ reloads new = 0%nat.
Proof.
  induction 1 as [|ev new Hev _ [IH1 IH2]]; [done|].
  change (ev :: new) with ([ev] ++ new).
  rewrite banner_answers_app, reloads_app, IH1, IH2.
  destruct ev as [R op out| |]; try done. by destruct op.
Qed.

(** What one run of the loop leaves: the flag is the answer of the
    newest banner query that returned, the reloads are fewer than the
    cycles the budget allows, and each follows a sighting. *)
Lemma capacity_loop_trace env page opts fuel :
  forall l w,
    (cycles_left opts (numTries l) <= fuel)%nat ->
    exists l' w' new,
      capacity_loop env fuel page opts l w = (Val tt, l', w')
      /\ extends_by new w w'
      /\ isAtCapacity l' = default (isAtCapacity l) (head (banner_answers new))
      /\ (reloads new < cycles_left opts (numTries l))%nat
      /\ (reloads new <= sightings new)%nat.
Proof.
  unfold capacity_loop, cycles_left.
  induction fuel as [|fuel IH]; intros l w Hfuel; [lia|].
  destruct (polled_extends env page w) as (newc & Hg & Hext).
  destruct (no_guard_calls_silent _ Hg) as [Hsilent Hnone].
  cbn [do_while]. rewrite capacity_cycle_cases.
  destruct (poll_answer env page w) as [[|e found]|err] eqn:Hpoll.
  - cbn. eexists _, _, _. split; [done|]. split; [exact Hext|].
    change (?a :: newc) with ([a] ++ newc).
    rewrite banner_answers_app, reloads_app, sightings_app, Hnone.
    unfold sightings. rewrite Hsilent. cbn. split; [done|]. lia.
  - cbn zeta.
    destruct (numTries l + 1 >=? capacity_retries opts) eqn:Hbudget.
    + eexists _, _, _. split; [done|]. split; [exact Hext|].
      change (?a :: newc) with ([a] ++ newc).
      rewrite banner_answers_app, reloads_app, sightings_app, Hnone.
      unfold sightings. rewrite Hsilent. cbn. split; [done|]. lia.
    + pose proof (extends_by_record
        (Called _ (Reload page "networkidle2" (capacity_timeoutMs opts))
           (reload_answer env page opts w)) _ _ _ Hext) as Hext2.
      fold (reloaded env page opts w) in Hext2.
      destruct (reload_answer env page opts w) as [[]|err] eqn:Hreload.
      * cbn [isAtCapacity incr_numTries set_isAtCapacity].
        set (l1 := incr_numTries (set_isAtCapacity true l)).
        set (w3 := record_event _ (reloaded env page opts w)).
        assert (Hl1 : numTries l1 = numTries l + 1) by done.
        destruct (IH l1 w3) as (l' & w' & new & Heq & Hext' & Hflag & Hre & Hsee).
        { rewrite Hl1. lia. }
        rewrite Heq. eexists _, _, _. split; [done|].
        split.
        { eapply extends_by_trans; [|exact Hext'].
          apply extends_by_record. exact Hext2. }
        rewrite Hl1 in Hre.
        change (?a :: ?b :: ?c :: newc) with ([a; b; c] ++ newc).
        rewrite !banner_answers_app, !reloads_app, !sightings_app, Hnone.
        unfold sightings at 3. rewrite Hsilent. cbn [app].
        split.
        { rewrite Hflag. cbn. by destruct (banner_answers new). }
        cbn. split; lia.
      * eexists _, _, _. split; [done|]. split; [exact Hext2|].
        change (?a :: ?b :: newc) with ([a; b] ++ newc).
        rewrite banner_answers_app, reloads_app, sightings_app, Hnone.
        unfold sightings. rewrite Hsilent. cbn. split; [done|]. lia.
  - eexists _, _, _. split; [done|]. split; [exact Hext|].
    change (?a :: newc) with ([a] ++ newc).
    rewrite banner_answers_app, reloads_app, sightings_app, Hnone.
    unfold sightings. rewrite Hsilent. cbn. split; [done|]. lia.
Qed.

(** X3. The verdict of the capacity guard is the answer of the last
    banner query that returned: with fuel for max(1, retries) cycles it
    throws the capacity error exactly when that query found the banner,
    and returns when it found none or when no query returned at all.  A
    query or reload that throws afterwards does not change the verdict. *)
Theorem capacity_guard_verdict env {L} fuel page opts (l : L) w :
  (max_cycles opts <= fuel)%nat ->
  exists w' new,
    extends_by new w w'
    /\ checkForChatGPTAtCapacity env fuel page opts l w
       = (if default false (head (banner_answers new))
          then Exn atCapacityError else Val tt, l, w').
Proof.
  intros Hfuel. rewrite <- max_cycles_left in Hfuel.
  destruct (capacity_loop_trace env page opts fuel capacity_locals0 w Hfuel)
    as (l' & w' & new & Heq & Hext & Hflag & _).
  exists w', new. split; [done|].
  by rewrite checkForChatGPTAtCapacity_unfold, Heq, Hflag.
Qed.

Lemma capacity_guard_verdict_witness :
  exists w' new,
    extends_by new world0 w'
    /\ checkForChatGPTAtCapacity (env_of stuck_answer) 10 0%nat no_opts tt world0
       = (if default false (head (banner_answers new))
          then Exn atCapacityError else Val tt, tt, w').
Proof.
  apply (capacity_guard_verdict (env_of stuck_answer) 10 0%nat no_opts tt world0).
  vm_compute. lia.
Defined.

(** X4. The guard reloads the page at most max(1, retries) - 1 times,
    so never when [retries] is 1 or less, and only after a query that
    found the banner: there are no more reloads than sightings. *)
Theorem capacity_guard_reloads env {L} fuel page opts (l : L) w :
  (max_cycles opts <= fuel)%nat ->
  exists new,
    extends_by new w (checkForChatGPTAtCapacity env fuel page opts l w).2
    /\ (reloads new <= max_cycles opts - 1)%nat
    /\ (reloads new <= sightings new)%nat.
Proof.
  intros Hfuel. rewrite <- max_cycles_left in *.
  destruct (capacity_loop_trace env page opts fuel capacity_locals0 w Hfuel)
    as (l' & w' & new & Heq & Hext & _ & Hre & Hsee).
  exists new. rewrite checkForChatGPTAtCapacity_unfold, Heq.
  split; [by destruct (isAtCapacity l')|]. cbn [numTries capacity_locals0] in Hre.
  split; [lia|done].
Qed.

Lemma capacity_guard_reloads_witness :
  exists new,
    extends_by new world0
      (checkForChatGPTAtCapacity (env_of (banner_answer 20)) 10 0%nat no_opts
         tt world0).2
    /\ (reloads new <= max_cycles no_opts - 1)%nat
    /\ (reloads new <= sightings new)%nat.
Proof.
  apply (capacity_guard_reloads (env_of (banner_answer 20)) 10 0%nat no_opts
           tt world0).
  vm_compute. lia.
Defined.

(** ** The guarded wait before the first timer and after the settlement *)

Lemma race_step_armed env fuel page condition ms ev r w :
  poller r = Armed -> ev <> TimerFires ->
  exists r' w',
    race_step env fuel page condition ms ev r w = (Val tt, r', w')
    /\ poller r' = Armed.
Proof.
  intros Harmed Hev. destruct ev; [|done|].
  - rewrite race_step_CondSettles.
    destruct (cond_state r); [|by eauto].
    cbn zeta. destruct (resolved r); [by eauto|].
    destruct (condition w).1; by eauto.
  - rewrite race_step_CheckSettles, Harmed. by eauto.
Qed.

Lemma race_events_armed env fuel page condition ms evs :
  forall r w,
    poller r = Armed -> TimerFires ∉ evs ->
    exists r' w',
      race_events env fuel page condition ms evs r w = (Val tt, r', w')
      /\ poller r' = Armed.
Proof.
  induction evs as [|ev evs IH]; intros r w Harmed Hnot; [by eauto|].
  apply not_elem_of_cons in Hnot as [Hev Hnot].
  cbn [race_events]. unfold mbind, M_bind.
  destruct (race_step_armed env fuel page condition ms ev r w Harmed)
    as (r1 & w1 & -> & Harmed1); [congruence|].
  by apply IH.
Qed.

Lemma race_events_untouched env fuel page condition ms evs :
  forall r w,
    poller r = Armed -> TimerFires ∉ evs ->
    cond_state r = Settled \/ CondSettles ∉ evs ->
    race_events env fuel page condition ms evs r w = (Val tt, r, w).
Proof.
  induction evs as [|ev evs IH]; intros r w Harmed Hnot Hcond; [done|].
  apply not_elem_of_cons in Hnot as [Hev Hnot].
  assert (Hcond' : cond_state r = Settled \/ CondSettles ∉ evs).
  { destruct Hcond as [?|Hno]; [by left|right].
    intros Hin. apply Hno. by right. }
  cbn [race_events]. unfold mbind, M_bind.
  destruct ev; [|done|].
  - rewrite race_step_CondSettles.
    destruct Hcond as [->|Hno]; [by apply IH|].
    exfalso. apply Hno. by left.
  - rewrite race_step_CheckSettles, Harmed. by apply IH.
Qed.

Lemma race_events_condition_first env fuel page condition ms evs :
  forall r w,
    poller r = Armed -> TimerFires ∉ evs ->
    cond_state r = Pending -> resolved r = false -> CondSettles ∈ evs ->
    exists r',
      race_events env fuel page condition ms evs r w
      = (Val tt, r', (condition w).2)
      /\ actions r'
         = match (condition w).1 with
           | Returned _ => DidResolve
           | Thrown e => DidReject e
           end :: actions r.
Proof.
  induction evs as [|ev evs IH]; intros r w Harmed Hnot Hp Hr Hin.
  { by apply elem_of_nil in Hin. }
  apply not_elem_of_cons in Hnot as [Hev Hnot].
  cbn [race_events]. unfold mbind, M_bind.
  destruct ev; [|done|].
  - rewrite race_step_CondSettles, Hp, Hr. cbn zeta.
    destruct (condition w) as [[[]|e] w1]; cbn [fst snd];
      (eexists; split;
       [by apply race_events_untouched; [done|done|left]|done]).
  - rewrite race_step_CheckSettles, Harmed.
    apply elem_of_cons in Hin as [?|Hin]; [done|]. by apply IH.
Qed.

(** X5. No capacity check starts before the first timer has fired: in a
    schedule without [TimerFires] the guarded wait does nothing of its
    own.  If the condition has not settled the world is untouched and
    the promise pending; if it has, the world is the one the condition
    left and the promise is settled with the condition's outcome. *)
Theorem guarded_wait_idle_before_first_timer env fuel page condition opt_ms
    evs w :
  TimerFires ∉ evs ->
  poller (race_state env fuel page condition opt_ms evs w) = Armed
  /\ (CondSettles ∉ evs ->
      race_world env fuel page condition opt_ms evs w = w
      /\ settlements (race_state env fuel page condition opt_ms evs w) = [])
  /\ (CondSettles ∈ evs ->
      race_world env fuel page condition opt_ms evs w = (condition w).2
      /\ settlements (race_state env fuel page condition opt_ms evs w)
         = [match (condition w).1 with
            | Returned _ => DidResolve
            | Thrown e => DidReject e
            end]).
Proof.
  intros Hnot. unfold race_state, race_world. rewrite race_run_unfold.
  set (r0 := set_poller Armed _).
  split; [|split].
  - destruct (race_events_armed env fuel page condition
                (race_pollingIntervalMs opt_ms) evs r0 w eq_refl Hnot)
      as (r' & w' & -> & Harmed). done.
  - intros Hno.
    by rewrite (race_events_untouched env fuel page condition _ evs r0 w
                  eq_refl Hnot (or_intror Hno)).
  - intros Hin.
    destruct (race_events_condition_first env fuel page condition
                (race_pollingIntervalMs opt_ms) evs r0 w eq_refl Hnot
                eq_refl eq_refl Hin) as (r' & -> & Hact).
    cbn [fst snd]. split; [done|]. unfold settlements. rewrite Hact.
    cbn. by destruct (condition w).1.
Qed.

Lemma guarded_wait_idle_before_first_timer_witness :
  poller (race_state quiet_env 10 0%nat (selector_condition quiet_env 0%nat)
            None [CheckSettles; CondSettles] world0) = Armed
  /\ race_world quiet_env 10 0%nat (selector_condition quiet_env 0%nat)
       None [CheckSettles; CondSettles] world0
     = (selector_condition quiet_env 0%nat world0).2
  /\ race_world quiet_env 10 0%nat (selector_condition quiet_env 0%nat)
       None [CheckSettles] world0
     = world0.
Proof.
  split; [|split].
  - apply (guarded_wait_idle_before_first_timer quiet_env 10 0%nat
             (selector_condition quiet_env 0%nat) None
             [CheckSettles; CondSettles] world0).
    intros Hin. repeat (apply elem_of_cons in Hin as [?|Hin]; [done|]).
    by apply elem_of_nil in Hin.
  - apply (guarded_wait_idle_before_first_timer quiet_env 10 0%nat
             (selector_condition quiet_env 0%nat) None
             [CheckSettles; CondSettles] world0).
    + intros Hin. repeat (apply elem_of_cons in Hin as [?|Hin]; [done|]).
      by apply elem_of_nil in Hin.
    + apply list_elem_of_further, list_elem_of_here.
  - apply (guarded_wait_idle_before_first_timer quiet_env 10 0%nat
             (selector_condition quiet_env 0%nat) None
             [CheckSettles] world0).
    + intros Hin. repeat (apply elem_of_cons in Hin as [?|Hin]; [done|]).
      by apply elem_of_nil in Hin.
    + intros Hin. repeat (apply elem_of_cons in Hin as [?|Hin]; [done|]).
      by apply elem_of_nil in Hin.
Defined.

Lemma race_events_settled env fuel page condition ms evs :
  forall r w,
    resolved r = true -> poller r <> Checking ->
    cond_state r = Settled \/ CondSettles ∉ evs ->
    exists r',
      race_events env fuel page condition ms evs r w = (Val tt, r', w)
      /\ actions r' = actions r
      /\ resolved r' = true
      /\ poller r' <> Checking.
Proof.
  induction evs as [|ev evs IH]; intros r w Hr Hp Hcond.
  { exists r. by repeat split. }
  assert (Hcond' : cond_state r = Settled \/ CondSettles ∉ evs).
  { destruct Hcond as [?|Hno]; [by left|right].
    intros Hin. apply Hno. by right. }
  cbn [race_events]. unfold mbind, M_bind.
  destruct ev.
  - rewrite race_step_CondSettles.
    destruct Hcond as [->|Hno]; [by apply IH|].
    exfalso. apply Hno. by left.
  - rewrite race_step_TimerFires, Hr.
    destruct (poller r) eqn:Hpoll;
      [|done|apply IH; [done|congruence|done]].
    destruct (IH (set_poller Idle r) w) as (r' & Heq & Hact & Hr' & Hp');
      [done|done|done|].
    exists r'. split; [done|]. by repeat split.
  - rewrite race_step_CheckSettles.
    destruct (poller r) eqn:Hpoll;
      [apply IH; [done|congruence|done]|done|apply IH; [done|congruence|done]].
Qed.

(** X6. Once the promise is settled no new capacity check is started: if
    no check is under way at that moment, whatever events follow leave
    the world, the promise and the timers as they are (a timer that was
    armed fires once and finds the flag set).  The condition, if it is
    still pending then, is the only thing that can still act. *)
Theorem guarded_wait_stops_polling env fuel page condition opt_ms evs evs' w :
  resolved (race_state env fuel page condition opt_ms evs w) = true ->
  poller (race_state env fuel page condition opt_ms evs w) <> Checking ->
  cond_state (race_state env fuel page condition opt_ms evs w) = Settled
  \/ CondSettles ∉ evs' ->
  race_world env fuel page condition opt_ms (evs ++ evs') w
  = race_world env fuel page condition opt_ms evs w
  /\ actions (race_state env fuel page condition opt_ms (evs ++ evs') w)
     = actions (race_state env fuel page condition opt_ms evs w)
  /\ poller (race_state env fuel page condition opt_ms (evs ++ evs') w)
     <> Checking.
Proof.
  unfold race_state, race_world. rewrite !race_run_unfold, race_events_app.
  destruct (race_events _ _ _ _ _ evs _ _) as [[res r1] w1]. cbn [fst snd].
  intros Hr Hp Hcond.
  destruct res as [[]| | |]; try done.
  destruct (race_events_settled env fuel page condition
              (race_pollingIntervalMs opt_ms) evs' r1 w1 Hr Hp Hcond)
    as (r' & -> & Hact & _ & Hp').
  done.
Qed.

Lemma guarded_wait_stops_polling_witness :
  race_world quiet_env 10 0%nat (selector_condition quiet_env 0%nat) None
    ([CondSettles] ++ [TimerFires; CheckSettles; TimerFires; CondSettles]) world0
  = race_world quiet_env 10 0%nat (selector_condition quiet_env 0%nat) None
      [CondSettles] world0
  /\ actions (race_state quiet_env 10 0%nat (selector_condition quiet_env 0%nat)
                None
                ([CondSettles] ++ [TimerFires; CheckSettles; TimerFires; CondSettles])
                world0)
     = actions (race_state quiet_env 10 0%nat
                  (selector_condition quiet_env 0%nat) None [CondSettles] world0)
  /\ poller (race_state quiet_env 10 0%nat (selector_condition quiet_env 0%nat)
               None
               ([CondSettles] ++ [TimerFires; CheckSettles; TimerFires; CondSettles])
               world0)
     <> Checking.
Proof.
  apply (guarded_wait_stops_polling quiet_env 10 0%nat
           (selector_condition quiet_env 0%nat) None [CondSettles]
           [TimerFires; CheckSettles; TimerFires; CondSettles] world0).
  - reflexivity.
  - vm_compute. discriminate.
  - left. reflexivity.
Defined.

(** ** [waitForRecaptcha] *)

Lemma value_reads_app h1 h2 :
  value_reads (h1 ++ h2) = (value_reads h1 + value_reads h2)%nat.
Proof. unfold value_reads. by rewrite List.filter_app, length_app. Qed.

Lemma value_reads_record ev w :
  value_reads (history (record_event ev w))
  = ((if is_value_read ev then 1 else 0) + value_reads (history w))%nat.
Proof.
  unfold record_event. cbn [history].
  change (ev :: history w) with ([ev] ++ history w). rewrite value_reads_app.
  unfold value_reads. simpl. by destruct (is_value_read ev).
Qed.

Lemma recaptcha_cycle_cases env c ms T start w :
  recaptcha_cycle env c ms T start tt w =
  match answer env (history w) _ (ElemValue c) with
  | Thrown e => (Exn e, tt, record_event (Called _ (ElemValue c) (Thrown e)) w)
  | Returned v =>
      let w1 := record_event (Called _ (ElemValue c) (Returned v)) w in
      if unsolved v
      then if truthy_number T
              && (date_now env (history w1) - start >=? default 0 T)
           then (Exn recaptchaTimeout, tt, w1)
           else (Val tt, tt, record_event (Delayed ms) w1)
      else (Brk, tt, w1)
  end.
Proof.
  unfold recaptcha_cycle, unsolved. unfold_m.
  destruct (answer env (history w) _ (ElemValue c)) as [v|e]; [|done].
  cbn. destruct (truthy (trim <$> v)); [done|]. cbn.
  destruct (truthy_number T); [|done]. cbn.
  by destruct (_ >=? _).
Qed.

Lemma waitForRecaptcha_unfold env {L} fuel page opt_ms T (l : L) w :
  waitForRecaptcha env fuel page opt_ms T l w =
  let w1 := captchas_world env page w in
  if hasNopechaExtension w
  then match answer env (history w1) _ (Query page recaptchaSelector) with
       | Thrown e =>
           (Exn e, l,
            record_event (Called _ (Query page recaptchaSelector) (Thrown e)) w1)
       | Returned None =>
           (Val tt, l,
            record_event
              (Called _ (Query page recaptchaSelector) (Returned None)) w1)
       | Returned (Some c) =>
           let '(r, _, w') :=
             recaptcha_loop env fuel c (default 100 opt_ms) T
               (recaptcha_start env page c w) tt (recaptcha_found env page c w)
           in (r, l, w')
       end
  else (Val tt, l, w1).
Proof.
  destruct (captchas_world_spec env page w) as (new & Heq & (_ & _ & Hflag) & _).
  unfold waitForRecaptcha, recaptcha_loop, recaptcha_start, recaptcha_found,
    recaptcha_cycle.
  unfold call_fn at 1. unfold mbind at 1, M_bind at 1. unfold call_fn at 1.
  rewrite Heq. cbn zeta. unfold mbind at 1, M_bind at 1, read_world at 1.
  rewrite Hflag. destruct (hasNopechaExtension w); [|done].
  unfold when at 1. unfold mbind at 1, M_bind at 1.
  unfold call at 1, await at 1, perform at 1.
  destruct (answer env _ _ (Query page _)) as [[c|]|e]; try done.
Qed.

(** X7. [waitForRecaptcha] does no more than [solveSimpleCaptchas] when
    the module flag [hasNopechaExtension] is not set, and no more than that
    and one query when the page has no reCAPTCHA response field: in
    both cases it returns without reading any value or pausing, whatever
    [timeoutMs] is. *)
Theorem waitForRecaptcha_nothing_to_wait_for env {L} fuel page opt_ms T
    (l : L) w :
  (hasNopechaExtension w = false ->
   waitForRecaptcha env fuel page opt_ms T l w
   = (Val tt, l, captchas_world env page w))
  /\ (hasNopechaExtension w = true ->
      answer env (history (captchas_world env page w)) _
        (Query page recaptchaSelector) = Returned None ->
      waitForRecaptcha env fuel page opt_ms T l w
      = (Val tt, l,
         record_event (Called _ (Query page recaptchaSelector) (Returned None))
           (captchas_world env page w))).
Proof.
  rewrite waitForRecaptcha_unfold. cbn zeta. split.
  - by intros ->.
  - by intros -> ->.
Qed.

Lemma waitForRecaptcha_nothing_to_wait_for_witness :
  waitForRecaptcha quiet_env 0 0%nat None (Some 1) tt world0
  = (Val tt, tt, captchas_world quiet_env 0%nat world0)
  /\ waitForRecaptcha quiet_env 0 0%nat None (Some 1) tt world_with_nopecha
     = (Val tt, tt,
        record_event (Called _ (Query 0%nat recaptchaSelector) (Returned None))
          (captchas_world quiet_env 0%nat world_with_nopecha)).
Proof.
  split.
  - apply (proj1 (waitForRecaptcha_nothing_to_wait_for quiet_env 0 0%nat None
                    (Some 1) tt world0)).
    reflexivity.
  - apply (proj2 (waitForRecaptcha_nothing_to_wait_for quiet_env 0 0%nat None
                    (Some 1) tt world_with_nopecha)); reflexivity.
Defined.

Lemma recaptcha_loop_solved env c ms T start n :
  forall fuel w,
    (n < fuel)%nat ->
    unsolved_for env c n w ->
    solved_after env c n w ->
    truthy_number T = false \/ in_time_for env start (default 0 T) n w ->
    exists w1 v,
      waiting c ms n w w1
      /\ unsolved v = false
      /\ recaptcha_loop env fuel c ms T start tt w
         = (Val tt, tt, record_event (Called _ (ElemValue c) (Returned v)) w1).
Proof.
  unfold recaptcha_loop.
  induction n as [|n IH]; intros fuel w Hfuel Hno Hyes Htime;
    (destruct fuel as [|fuel]; [lia|]);
    cbn [do_while]; rewrite recaptcha_cycle_cases.
  - destruct (Hyes (history w)) as (v & -> & Hv); [lia|].
    exists w, v. split; [constructor|]. split; [done|].
    cbn zeta. by rewrite Hv.
  - destruct (Hno (history w)) as (v & -> & Hv); [lia|].
    cbn zeta. rewrite Hv.
    set (w1 := record_event (Called _ (ElemValue c) (Returned v)) w).
    assert (Hreads : value_reads (history w1) = S (value_reads (history w)))
      by (unfold w1; by rewrite value_reads_record).
    assert (Hgo : truthy_number T
                  && (date_now env (history w1) - start >=? default 0 T)
                  = false).
    { destruct Htime as [->|Htime]; [done|].
      apply andb_false_intro2. specialize (Htime (history w1)). lia. }
    rewrite Hgo.
    set (w2 := record_event (Delayed ms) w1).
    assert (Hreads2 : value_reads (history w2) = S (value_reads (history w)))
      by (unfold w2; by rewrite value_reads_record).
    destruct (IH fuel w2) as (w3 & v' & Hwait & Hv' & Heq).
    + lia.
    + intros h Hh. apply Hno. lia.
    + intros h Hh. apply Hyes. lia.
    + destruct Htime as [?|Htime]; [by left|right].
      intros h Hh. apply Htime. lia.
    + exists w3, v'. split; [by apply (waiting_S _ _ _ _ _ v)|].
      split; [done|]. exact Heq.
Qed.

Lemma recaptcha_loop_times_out env c ms T start n :
  forall fuel w,
    (n < fuel)%nat ->
    T <> 0 ->
    unsolved_for env c (S n) w ->
    in_time_for env start T n w ->
    expired_after env start T (S n) w ->
    exists w1 v,
      waiting c ms n w w1
      /\ unsolved v = true
      /\ recaptcha_loop env fuel c ms (Some T) start tt w
         = (Exn recaptchaTimeout, tt,
            record_event (Called _ (ElemValue c) (Returned v)) w1).
Proof.
  unfold recaptcha_loop. intros fuel w Hfuel HT. revert fuel w Hfuel.
  assert (Htruthy : truthy_number (Some T) = true).
  { cbn. by destruct (Z.eqb_spec T 0). }
  induction n as [|n IH]; intros fuel w Hfuel Hno Htime Hlate;
    (destruct fuel as [|fuel]; [lia|]);
    cbn [do_while]; rewrite recaptcha_cycle_cases;
    (destruct (Hno (history w)) as (v & -> & Hv); [lia|]);
    cbn zeta; rewrite Hv, Htruthy;
    set (w1 := record_event (Called _ (ElemValue c) (Returned v)) w);
    assert (Hreads : value_reads (history w1) = S (value_reads (history w)))
      by (unfold w1; by rewrite value_reads_record).
  - exists w, v. split; [constructor|]. split; [done|].
    specialize (Hlate (history w1)). change (default 0 (Some T)) with T.
    replace (date_now env (history w1) - start >=? T) with true by lia.
    done.
  - specialize (Htime (history w1)) as Hnow. change (default 0 (Some T)) with T.
    replace (date_now env (history w1) - start >=? T) with false by lia.
    cbn [andb].
    set (w2 := record_event (Delayed ms) w1).
    assert (Hreads2 : value_reads (history w2) = S (value_reads (history w)))
      by (unfold w2; by rewrite value_reads_record).
    destruct (IH fuel w2) as (w3 & v' & Hwait & Hv' & Heq).
    + lia.
    + intros h Hh. apply Hno. lia.
    + intros h Hh. apply Htime. lia.
    + intros h Hh. apply Hlate. lia.
    + exists w3, v'. split; [by apply (waiting_S _ _ _ _ _ v)|].
      split; [done|]. exact Heq.
Qed.

Lemma recaptcha_loop_forever env c ms T start :
  truthy_number T = false ->
  (forall h, exists v, answer env h _ (ElemValue c) = Returned v
                       /\ unsolved v = true) ->
  forall fuel w,
    exists w',
      recaptcha_loop env fuel c ms T start tt w = (Diverge, tt, w')
      /\ value_reads (history w') = (fuel + value_reads (history w))%nat.
Proof.
  intros HT Hno. unfold recaptcha_loop.
  induction fuel as [|fuel IH]; intros w; [by exists w|].
  cbn [do_while]. rewrite recaptcha_cycle_cases.
  destruct (Hno (history w)) as (v & -> & Hv).
  cbn zeta. rewrite Hv, HT. cbn [andb].
  destruct (IH (record_event (Delayed ms)
                  (record_event (Called _ (ElemValue c) (Returned v)) w)))
    as (w' & -> & Hreads).
  exists w'. split; [done|]. rewrite Hreads, !value_reads_record. cbn. lia.
Qed.

(** X8. With the extension in use and the response field [c] on the
    page, [waitForRecaptcha] reads the field every [pollingIntervalMs]
    (100 ms by default) and returns at the first read that yields a
    value with a character that is not white space: after [n] reads
    without a solution, each followed by a pause, and one read with it.
    The value is looked at before the clock, so that a solution found at
    a read is accepted even when the time is up by then. *)
Theorem waitForRecaptcha_returns_once_solved env {L} fuel page opt_ms T
    (l : L) w c n :
  hasNopechaExtension w = true ->
  answer env (history (captchas_world env page w)) _
    (Query page recaptchaSelector) = Returned (Some c) ->
  (n < fuel)%nat ->
  unsolved_for env c n (recaptcha_found env page c w) ->
  solved_after env c n (recaptcha_found env page c w) ->
  truthy_number T = false
  \/ in_time_for env (recaptcha_start env page c w) (default 0 T) n
       (recaptcha_found env page c w) ->
  exists w1 v,
    waiting c (default 100 opt_ms) n (recaptcha_found env page c w) w1
    /\ unsolved v = false
    /\ waitForRecaptcha env fuel page opt_ms T l w
       = (Val tt, l, record_event (Called _ (ElemValue c) (Returned v)) w1).
Proof.
  intros Hflag Hfound Hfuel Hno Hyes Htime.
  destruct (recaptcha_loop_solved env c (default 100 opt_ms) T
              (recaptcha_start env page c w) n fuel
              (recaptcha_found env page c w) Hfuel Hno Hyes Htime)
    as (w1 & v & Hwait & Hv & Heq).
  exists w1, v. split; [done|]. split; [done|].
  rewrite waitForRecaptcha_unfold. cbn zeta. by rewrite Hflag, Hfound, Heq.
Qed.

Lemma waitForRecaptcha_returns_once_solved_witness :
  exists w1 v,
    waiting 5%nat 100 2 (recaptcha_found (solved_env 2) 0%nat 5%nat world_with_nopecha) w1
    /\ unsolved v = false
    /\ waitForRecaptcha (solved_env 2) 3 0%nat None (Some 1000) tt
         world_with_nopecha
       = (Val tt, tt, record_event (Called _ (ElemValue 5%nat) (Returned v)) w1).
Proof.
  assert (Hbase : value_reads
                    (history (recaptcha_found (solved_env 2) 0%nat 5%nat
                                world_with_nopecha)) = 0%nat)
    by (vm_compute; reflexivity).
  apply (waitForRecaptcha_returns_once_solved (solved_env 2) 3 0%nat None
           (Some 1000) tt world_with_nopecha 5%nat 2%nat).
  - reflexivity.
  - reflexivity.
  - lia.
  - intros h Hh. rewrite Hbase in Hh. cbn [answer solved_env].
    destruct (Nat.ltb_spec (value_reads h) 2); [|lia]. by eexists.
  - intros h Hh. rewrite Hbase in Hh. cbn [answer solved_env].
    destruct (Nat.ltb_spec (value_reads h) 2); [lia|]. by eexists.
  - right. intros h Hh. rewrite Hbase in Hh.
    replace (recaptcha_start (solved_env 2) 0%nat 5%nat world_with_nopecha)
      with 0 by (vm_compute; reflexivity).
    cbn [date_now solved_env default]. unfold id. lia.
Defined.

(** X9. With a [timeoutMs] other than 0, a field that stays without a
    solution makes [waitForRecaptcha] throw the [TimeoutError] "Timed
    out waiting to solve Recaptcha" at the first read after which
    [Date.now() - startTime >= timeoutMs]: after [n] reads each followed
    by a pause, and one more read, without a pause after it. *)
Theorem waitForRecaptcha_times_out env {L} fuel page opt_ms T (l : L) w c n :
  hasNopechaExtension w = true ->
  answer env (history (captchas_world env page w)) _
    (Query page recaptchaSelector) = Returned (Some c) ->
  (n < fuel)%nat ->
  T <> 0 ->
  unsolved_for env c (S n) (recaptcha_found env page c w) ->
  in_time_for env (recaptcha_start env page c w) T n
    (recaptcha_found env page c w) ->
  expired_after env (recaptcha_start env page c w) T (S n)
    (recaptcha_found env page c w) ->
  exists w1 v,
    waiting c (default 100 opt_ms) n (recaptcha_found env page c w) w1
    /\ unsolved v = true
    /\ waitForRecaptcha env fuel page opt_ms (Some T) l w
       = (Exn (TimeoutError "Timed out waiting to solve Recaptcha"), l,
          record_event (Called _ (ElemValue c) (Returned v)) w1).
Proof.
  intros Hflag Hfound Hfuel HT Hno Htime Hlate.
  destruct (recaptcha_loop_times_out env c (default 100 opt_ms) T
              (recaptcha_start env page c w) n fuel
              (recaptcha_found env page c w) Hfuel HT Hno Htime Hlate)
    as (w1 & v & Hwait & Hv & Heq).
  exists w1, v. split; [done|]. split; [done|].
  rewrite waitForRecaptcha_unfold. cbn zeta. by rewrite Hflag, Hfound, Heq.
Qed.

Lemma waitForRecaptcha_times_out_witness :
  exists w1 v,
    waiting 5%nat 100 2 (recaptcha_found unsolved_env 0%nat 5%nat world_with_nopecha) w1
    /\ unsolved v = true
    /\ waitForRecaptcha unsolved_env 3 0%nat None (Some 100) tt
         world_with_nopecha
       = (Exn (TimeoutError "Timed out waiting to solve Recaptcha"), tt,
          record_event (Called _ (ElemValue 5%nat) (Returned v)) w1).
Proof.
  assert (Hbase : value_reads
                    (history (recaptcha_found unsolved_env 0%nat 5%nat
                                world_with_nopecha)) = 0%nat)
    by (vm_compute; reflexivity).
  assert (Hstart : recaptcha_start unsolved_env 0%nat 5%nat world_with_nopecha
                   = 0)
    by (vm_compute; reflexivity).
  apply (waitForRecaptcha_times_out unsolved_env 3 0%nat None 100 tt
           world_with_nopecha 5%nat 2%nat).
  - reflexivity.
  - reflexivity.
  - lia.
  - lia.
  - intros h Hh. by eexists.
  - intros h Hh. rewrite Hbase in Hh. rewrite Hstart.
    cbn [date_now unsolved_env]. lia.
  - intros h Hh. rewrite Hbase in Hh. rewrite Hstart.
    cbn [date_now unsolved_env]. lia.
Defined.

(** X10. A [timeoutMs] of 0 (or none at all) switches the timeout off:
    while the field has no solution [waitForRecaptcha] goes on reading
    it, one read per unit of fuel, and no amount of fuel makes it
    return or throw. *)
Theorem waitForRecaptcha_without_timeout_goes_on env {L} fuel page opt_ms T
    (l : L) w c :
  hasNopechaExtension w = true ->
  answer env (history (captchas_world env page w)) _
    (Query page recaptchaSelector) = Returned (Some c) ->
  T = None \/ T = Some 0 ->
  (forall h, exists v, answer env h _ (ElemValue c) = Returned v
                       /\ unsolved v = true) ->
  exists w',
    waitForRecaptcha env fuel page opt_ms T l w = (Diverge, l, w')
    /\ value_reads (history w')
       = (fuel + value_reads (history (recaptcha_found env page c w)))%nat.
Proof.
  intros Hflag Hfound HT Hno.
  destruct (recaptcha_loop_forever env c (default 100 opt_ms) T
              (recaptcha_start env page c w)
              ltac:(by destruct HT as [->| ->]) Hno fuel
              (recaptcha_found env page c w))
    as (w' & Heq & Hreads).
  exists w'. split; [|done].
  rewrite waitForRecaptcha_unfold. cbn zeta. by rewrite Hflag, Hfound, Heq.
Qed.

Lemma waitForRecaptcha_without_timeout_goes_on_witness :
  exists w',
    waitForRecaptcha unsolved_env 50 0%nat None (Some 0) tt world_with_nopecha
    = (Diverge, tt, w')
    /\ value_reads (history w')
       = (50 + value_reads
                 (history (recaptcha_found unsolved_env 0%nat 5%nat
                             world_with_nopecha)))%nat.
Proof.
  apply (waitForRecaptcha_without_timeout_goes_on unsolved_env 50 0%nat None
           (Some 0) tt world_with_nopecha 5%nat).
  - reflexivity.
  - reflexivity.
  - by right.
  - intros h. by eexists.
Defined.

(** ** Runs, call by call *)


Lemma omap_replicate_None {A B} (f : A -> option B) n x :
  f x = None -> omap f (replicate n x) = [].
Proof. intros H. induction n as [|n IH]; [done|]. cbn. by rewrite H. Qed.

Lemma omap_Forall_None {A B} (f : A -> option B) l :
  Forall (fun x => f x = None) l -> omap f l = [].
Proof. induction 1 as [|x l Hx _ IH]; [done|]. cbn. by rewrite Hx. Qed.

Lemma presses_Forall_other key l :
  Forall (fun ev => pressed ev <> Some key) l -> presses key l = 0%nat.
Proof.
  unfold presses. induction 1 as [|ev l Hev _ IH]; [done|]. cbn.
  destruct (pressed ev) as [key'|]; [|done]. cbn.
  destruct (String.eqb_spec key key'); [congruence|done].
Qed.

Lemma presses_app key h1 h2 :
  presses key (h1 ++ h2) = (presses key h1 + presses key h2)%nat.
Proof. unfold presses. by rewrite omap_app, List.filter_app, length_app. Qed.

Lemma presses_replicate key n ev :
  pressed ev = Some key -> presses key (replicate n ev) = n.
Proof.
  intros H. unfold presses. induction n as [|n IH]; [done|]. cbn.
  rewrite H. cbn. rewrite String.eqb_refl. cbn. by rewrite IH.
Qed.

(** ** [initializeNopechaExtension] *)

Ltac popup_leaf Hext Hfacts :=
  eexists _, _, _; (split; [reflexivity|]);
  (split; [repeat apply extends_by_record; exact Hext|]);
  (split; [first [by left|right; by eexists]|]);
  match goal with
  | |- context [omap opened_idle (?a :: ?b :: ?c :: ?d :: ?e :: replicate 31 ?ev ++ ?t5)] =>
      apply (Hfacts [a; b; c; d; e])
  | |- context [omap opened_idle (?a :: ?b :: ?c :: ?d :: replicate 31 ?ev ++ ?t5)] =>
      apply (Hfacts [a; b; c; d])
  | |- context [omap opened_idle (?a :: ?b :: ?c :: replicate 31 ?ev ++ ?t5)] =>
      apply (Hfacts [a; b; c])
  | |- context [omap opened_idle (?a :: ?b :: replicate 31 ?ev ++ ?t5)] =>
      apply (Hfacts [a; b])
  | |- context [omap opened_idle (?a :: replicate 31 ?ev ++ ?t5)] =>
      apply (Hfacts [a])
  end; by repeat constructor.

(** A run of the branch that opens the popup of the extension. *)
Lemma nopecha_popup_run env {L} page key id (l : L) w :
  exists r tail w',
    nopecha_popup env page key id l w = (r, l, w')
    /\ extends_by tail w w'
    /\ (r = Val tt \/ exists e, r = Exn e)
    /\ omap opened_idle tail = [popupUrl id]
    /\ omap targets_seen tail = []
    /\ nopecha_typing key tail.
Proof.
  unfold nopecha_popup, nopecha_typing.
  rewrite bind_call.
  destruct (answer env _ _ (Goto _ _ _)) as [[]|e0].
  2: { eexists _, _, _. split; [done|]. split; [extends_by_events|].
       split; [right; by eexists|]. split; [done|]. split; [done|].
       split; [by left|done]. }
  rewrite bind_call.
  destruct (answer env _ _ (WaitForSelector _ _ _ _)) as [editKey|e0].
  2: { eexists _, _, _. split; [done|]. split; [extends_by_events|].
       split; [right; by eexists|]. split; [done|]. split; [done|].
       split; [by left|done]. }
  rewrite bind_call.
  destruct (answer env _ _ (ElemClick _ _)) as [[]|e0].
  2: { eexists _, _, _. split; [done|]. split; [extends_by_events|].
       split; [right; by eexists|]. split; [done|]. split; [done|].
       split; [by left|done]. }
  rewrite bind_call.
  destruct (answer env _ _ (WaitForSelector _ _ _ _)) as [settingsInput|e0].
  2: { eexists _, _, _. split; [done|]. split; [extends_by_events|].
       split; [right; by eexists|]. split; [done|]. split; [done|].
       split; [by left|done]. }
  rewrite bind_call.
  destruct (answer env _ _ (ElemValue _)) as [value|e0].
  2: { eexists _, _, _. split; [done|]. split; [extends_by_events|].
       split; [right; by eexists|]. split; [done|]. split; [done|].
       split; [by left|done]. }
  destruct (bool_decide (value = key)) eqn:Hsame; cbn [negb when].
  { eexists _, _, _. split; [done|]. split; [extends_by_events|].
    split; [by left|]. split; [done|]. split; [done|].
    split; [by left|done]. }
  apply bool_decide_eq_false in Hsame.
  set (w5 := record_event (Called _ (ElemValue settingsInput) (Returned value)) _).
  assert (Hext5 : exists tail5, extends_by tail5 w w5
                    /\ omap opened_idle tail5 = [popupUrl id]
                    /\ omap targets_seen tail5 = []
                    /\ omap typed tail5 = []
                    /\ omap value_seen tail5 = [value]
                    /\ omap pressed tail5 = []).
  { eexists. split; [unfold w5; extends_by_events|]. done. }
  destruct Hext5 as (tail5 & Hext5 & Ho5 & Ht5 & Hty5 & Hv5 & Hp5).
  clearbody w5.
  unfold mbind at 1, M_bind at 1.
  destruct (times_call_cases env 31 (ElemPress settingsInput "Backspace") l w5)
    as [(w6 & -> & Hext6)|(e0 & k & w6 & Hk & -> & Hext6)].
  2: { eexists _, _, _. split; [done|].
       split; [eapply extends_by_trans; [exact Hext5|exact Hext6]|].
       split; [right; by eexists|].
       rewrite !omap_app, Ho5, Ht5, Hty5, Hv5. cbn.
       rewrite !omap_replicate_None by done.
       split; [done|]. split; [done|]. split; [by left|].
       intros [= ->]. done. }
  pose proof (extends_by_trans _ _ _ _ _ Hext5 Hext6) as Hext.
  assert (Hfacts : forall tail6,
             Forall (fun ev => opened_idle ev = None) tail6 ->
             Forall (fun ev => targets_seen ev = None) tail6 ->
             Forall (fun ev => value_seen ev = None) tail6 ->
             Forall (fun ev => pressed ev <> Some "Backspace") tail6 ->
             omap typed tail6 = [(settingsInput, template key)] ->
             let tail :=
               tail6 ++ replicate 31
                          (Called _ (ElemPress settingsInput "Backspace")
                             (Returned tt)) ++ tail5 in
             omap opened_idle tail = [popupUrl id]
             /\ omap targets_seen tail = []
             /\ (omap typed tail = []
                 \/ exists s v,
                      omap typed tail = [(s, template key)]
                      /\ omap value_seen tail = [v]
                      /\ v <> key
                      /\ presses "Backspace" tail = 31%nat)
             /\ (omap value_seen tail = [key] ->
                 omap pressed tail = [] /\ omap typed tail = [])).
  { intros tail6 H6o H6t H6v H6p H6ty tail. unfold tail.
    rewrite !presses_app, (presses_Forall_other _ _ H6p),
      (presses_replicate "Backspace") by done.
    unfold presses at 1. rewrite Hp5.
    rewrite !omap_app, Ho5, Ht5, Hv5, Hty5, H6ty.
    rewrite !omap_replicate_None by done.
    rewrite (omap_Forall_None _ _ H6o), (omap_Forall_None _ _ H6t),
      (omap_Forall_None _ _ H6v).
    split; [done|]. split; [done|]. split.
    - right. by exists settingsInput, value.
    - by intros [= ->]. }
  rewrite bind_call.
  destruct (answer env _ _ (ElemType _ _)) as [[]|e0]; [|popup_leaf Hext Hfacts].
  rewrite bind_call.
  destruct (answer env _ _ (ElemPress _ _)) as [[]|e0]; [|popup_leaf Hext Hfacts].
  rewrite bind_delay, bind_call.
  destruct (answer env _ _ (ElemClick _ _)) as [[]|e0]; [|popup_leaf Hext Hfacts].
  unfold delay. popup_leaf Hext Hfacts.
Qed.

Lemma bind_bind {L A B C} (m : M L A) (f : A -> M L B) (k : B -> M L C) l w :
  ((m ≫= f) ≫= k) l w = (m ≫= (fun a => f a ≫= k)) l w.
Proof.
  unfold mbind, M_bind. by destruct (m l w) as [[[a| |e|] l1] w1].
Qed.

Lemma bind_ret {L A B} (a : A) (k : A -> M L B) l w :
  (mret a ≫= k) l w = k a l w.
Proof. done. Qed.

Lemma try_catch_bind_call env {L R B} (op : Op R) (k : R -> M L B)
    (h : Err -> M L B) l w :
  try_catch (call env op ≫= k) h l w =
  match answer env (history w) R op with
  | Returned r => try_catch (k r) h l (record_event (Called R op (Returned r)) w)
  | Thrown e => h e l (record_event (Called R op (Thrown e)) w)
  end.
Proof.
  unfold try_catch. rewrite bind_call.
  by destruct (answer env (history w) R op).
Qed.

Lemma initializeNopechaExtension_eq env {L} b opt_minimize key :
  initializeNopechaExtension env b opt_minimize key =
  (has ← read_world hasNopechaExtension;
   when has
     (page ← first_page_or_new env b;
      when (default false opt_minimize) (call env (MinimizePage page));;
      call env (Goto page (setupUrl key) None);;
      delay 1000;;
      try_catch
        (targets ← call env (Targets b);
         match extensionIds targets with
         | None => throw (Error "Invalid URL")
         | Some (extensionId :: _) => nopecha_popup env page key extensionId
         | Some [] => mret tt
         end)
        (fun _ => mret tt)) : M L unit).
Proof. reflexivity. Qed.

Lemma Forall_extract_app {A} (P : A -> Prop) l1 l2 :
  Forall P l1 -> Forall P l2 -> Forall P (l1 ++ l2).
Proof. intros. by apply Forall_app. Qed.

Lemma nopecha_typing_app key tail pre :
  nopecha_typing key tail ->
  Forall (fun ev => typed ev = None) pre ->
  Forall (fun ev => value_seen ev = None) pre ->
  Forall (fun ev => pressed ev = None) pre ->
  nopecha_typing key (tail ++ pre).
Proof.
  intros [Htyped Hsame] Hty Hv Hp. unfold nopecha_typing.
  rewrite presses_app, !omap_app, (omap_Forall_None typed pre),
    (omap_Forall_None value_seen pre), (omap_Forall_None pressed pre),
    !app_nil_r by done.
  rewrite (presses_Forall_other _ pre), Nat.add_0_r; [done|].
  eapply Forall_impl; [exact Hp|]. intros ev Hev. by rewrite Hev.
Qed.

(** A run of [initializeNopechaExtension] with the flag set. *)
Lemma initializeNopechaExtension_run env {L} b opt_minimize key (l : L) w :
  hasNopechaExtension w = true ->
  exists r new w',
    initializeNopechaExtension env b opt_minimize key l w = (r, l, w')
    /\ extends_by new w w'
    /\ nopecha_outcome b key r new.
Proof.
  intros Hflag. rewrite initializeNopechaExtension_eq.
  unfold mbind at 1, M_bind at 1, read_world at 1. rewrite Hflag. cbn [when].
  assert (Hrest : forall page w1 pre,
    extends_by pre w w1 ->
    Forall (fun ev => targets_seen ev = None) pre ->
    Forall (fun ev => opened_idle ev = None) pre ->
    Forall (fun ev => typed ev = None) pre ->
    Forall (fun ev => value_seen ev = None) pre ->
    Forall (fun ev => pressed ev = None) pre ->
    exists r new w',
      ((when (default false opt_minimize) (call env (MinimizePage page));;
        call env (Goto page (setupUrl key) None);;
        delay 1000;;
        try_catch
          (targets ← call env (Targets b);
           match extensionIds targets with
           | None => throw (Error "Invalid URL")
           | Some (extensionId :: _) => nopecha_popup env page key extensionId
           | Some [] => mret tt
           end)
          (fun _ => mret tt)) : M L unit) l w1 = (r, l, w')
      /\ extends_by new w w'
      /\ nopecha_outcome b key r new).
  { intros page w1 pre Hpre Ht Ho Hty Hv Hp.
    assert (Hmin : exists w2 pre2,
               extends_by pre2 w w2
               /\ Forall (fun ev => targets_seen ev = None) pre2
               /\ Forall (fun ev => opened_idle ev = None) pre2
               /\ Forall (fun ev => typed ev = None) pre2
               /\ Forall (fun ev => value_seen ev = None) pre2
               /\ Forall (fun ev => pressed ev = None) pre2
               /\ ((when (default false opt_minimize)
                      (call env (MinimizePage page)) : M L unit) l w1
                   = (Val tt, l, w2)
                   \/ exists e,
                        (when (default false opt_minimize)
                           (call env (MinimizePage page)) : M L unit) l w1
                        = (Exn e, l, w2)
                        /\ head pre2 ≫= setup_failure b (setupUrl key) = Some e)).
    { destruct (default false opt_minimize); cbn [when].
      - rewrite call_cases.
        destruct (answer env _ _ (MinimizePage page)) as [[]|e];
          [ exists (record_event (Called _ (MinimizePage page) (Returned tt)) w1),
              (Called _ (MinimizePage page) (Returned tt) :: pre)
          | exists (record_event (Called _ (MinimizePage page) (Thrown e)) w1),
              (Called _ (MinimizePage page) (Thrown e) :: pre) ];
          (split; [by apply extends_by_record|]);
          (do 5 (split; [by constructor|])); [by left|right; by eexists].
      - exists w1, pre. do 6 (split; [done|]). by left. }
    destruct Hmin as (w2 & pre2 & Hpre2 & Ht2 & Ho2 & Hty2 & Hv2 & Hp2 & Hmin).
    unfold mbind at 1, M_bind at 1.
    destruct Hmin as [->|(e & -> & Hfail)].
    2: { exists (Exn e), pre2, w2. split; [done|]. split; [done|].
         left. exists e. split; [done|]. split; [done|].
         by rewrite !omap_Forall_None. }
    rewrite bind_call.
    destruct (answer env _ _ (Goto page _ _)) as [[]|e].
    2: { eexists _, (_ :: pre2), _. split; [done|].
         split; [by apply extends_by_record|].
         left. exists e. split; [done|]. split.
         { cbn. by rewrite String.eqb_refl. }
         cbn. by rewrite !omap_Forall_None. }
    rewrite bind_delay, try_catch_bind_call.
    set (w3 := record_event (Delayed 1000) _).
    assert (Hpre3 : extends_by (Delayed 1000
                                :: Called _ (Goto page (setupUrl key) None)
                                     (Returned tt) :: pre2) w w3)
      by (unfold w3; by do 2 apply extends_by_record).
    clearbody w3.
    destruct (answer env _ _ (Targets b)) as [ts|e].
    2: { eexists _, (_ :: _ :: _ :: pre2), _. split; [done|].
         split; [by apply extends_by_record|].
         right; left. split; [done|].
         cbn. rewrite !omap_Forall_None by done.
         do 3 (split; [done|]). by left. }
    set (w4 := record_event (Called _ (Targets b) (Returned ts)) w3).
    assert (Hpre4 : extends_by (Called _ (Targets b) (Returned ts)
                                :: Delayed 1000
                                :: Called _ (Goto page (setupUrl key) None)
                                     (Returned tt) :: pre2) w w4)
      by (unfold w4; by apply extends_by_record).
    clearbody w4.
    destruct (extensionIds ts) as [[|id ids]|] eqn:Hids.
    - eexists _, _, _. split; [done|]. split; [exact Hpre4|].
      right; left. split; [done|].
      cbn. rewrite !omap_Forall_None by done.
      do 3 (split; [done|]). right. exists ts. split; [done|]. by right.
    - destruct (nopecha_popup_run env page key id l w4)
        as (r & tail & w5 & Heq & Hext & Hr & Hopen & Htargets & Htyping).
      exists (Val tt), (tail ++ Called _ (Targets b) (Returned ts)
                          :: Delayed 1000
                          :: Called _ (Goto page (setupUrl key) None)
                               (Returned tt) :: pre2), w5.
      split.
      { unfold try_catch. rewrite Heq.
        by destruct Hr as [->|[e ->]]. }
      split; [by eapply extends_by_trans|].
      right; right. split; [done|]. exists ts, id, ids.
      rewrite !omap_app, Htargets, Hopen. cbn.
      rewrite !omap_Forall_None by done.
      split; [done|]. split; [done|]. split; [done|].
      apply nopecha_typing_app; [done|by repeat constructor..].
    - eexists _, _, _. split; [done|]. split; [exact Hpre4|].
      right; left. split; [done|].
      cbn. rewrite !omap_Forall_None by done.
      do 3 (split; [done|]). right. exists ts. split; [done|]. by left. }
  unfold first_page_or_new. rewrite bind_bind, bind_call.
  destruct (answer env _ _ (Pages b)) as [[|p ps]|e].
  - cbn beta iota. rewrite bind_call.
    destruct (answer env _ _ (NewPage b)) as [p|e].
    + eapply Hrest; [by do 2 apply extends_by_record; apply extends_by_refl|..];
        by repeat constructor.
    + eexists _, _, _. split; [done|]. split; [extends_by_events|].
      left. exists e. split; [done|]. cbn. by rewrite Nat.eqb_refl.
  - cbn beta iota. try rewrite bind_ret.
    eapply Hrest; [by apply extends_by_record; apply extends_by_refl|..];
      by repeat constructor.
  - eexists _, _, _. split; [done|]. split; [extends_by_events|].
    left. exists e. split; [done|]. cbn. by rewrite Nat.eqb_refl.
Qed.

Lemma initializeNopechaExtension_idle env {L} b opt_minimize key (l : L) w :
  hasNopechaExtension w = false ->
  initializeNopechaExtension env b opt_minimize key l w = (Val tt, l, w).
Proof.
  intros Hflag. rewrite initializeNopechaExtension_eq.
  unfold mbind at 1, M_bind at 1, read_world at 1. by rewrite Hflag.
Qed.

(** With valid urls throughout, the ids [extensionIds] yields are the
    non-empty host names of the service workers; it yields none at all
    exactly when the url of some service worker is rejected. *)
Lemma extensionIds_hostnames ts :
  (forall ids, extensionIds ts = Some ids -> ids = hostnames ts)
  /\ (extensionIds ts = None <->
      exists t, t ∈ ts /\ is_service_worker t = true /\ target_hostname t = None).
Proof.
  unfold hostnames, is_service_worker.
  induction ts as [|t ts [IHs IHn]].
  - split; [by intros ids [= <-]|]. split; [done|].
    intros (t & Hin & _). by apply elem_of_nil in Hin.
  - cbn [extensionIds List.filter].
    destruct (String.eqb (target_type t) "service_worker") eqn:Hsw; cbn [negb].
    + destruct (target_hostname t) as [h|] eqn:Hh.
      * destruct (extensionIds ts) as [hs|] eqn:Hids.
        -- split.
           ++ intros ids [= <-]. cbn. rewrite Hh. cbn.
              rewrite <- (IHs hs eq_refl). by destruct (String.eqb h "").
           ++ split; [done|]. intros (t' & Hin & Hsw' & Hh').
              apply elem_of_cons in Hin as [->|Hin]; [congruence|].
              assert (Some hs = None) by (apply IHn; by exists t'). done.
        -- split; [done|]. split; [|done]. intros _.
           destruct (proj1 IHn eq_refl) as (t' & Hin & Hsw' & Hh').
           exists t'. split; [by right|done].
      * split; [done|]. split; [|done]. intros _.
        exists t. split; [by left|done].
    + split; [exact IHs|]. rewrite IHn. split.
      * intros (t' & Hin & Hsw' & Hh'). exists t'. split; [by right|done].
      * intros (t' & Hin & Hsw' & Hh').
        apply elem_of_cons in Hin as [->|Hin]; [congruence|]. by exists t'.
Qed.

(** X11. [initializeNopechaExtension] lets out only the errors of the
    calls it makes before its [try]: getting the page of the browser,
    minimizing it and opening the set-up url; such an error is the last
    thing it did.  Whatever fails afterwards (listing the targets,
    parsing their urls, the popup, the typing of the key) is swallowed
    and the function returns.  With the module flag
    [hasNopechaExtension] unset it returns at once without a single
    call, whatever key it is given. *)
Theorem initializeNopechaExtension_swallows_failures env {L} b opt_minimize
    key (l : L) w :
  exists r new w',
    initializeNopechaExtension env b opt_minimize key l w = (r, l, w')
    /\ extends_by new w w'
    /\ (hasNopechaExtension w = false -> r = Val tt /\ new = [])
    /\ (r = Val tt
        \/ exists e,
             r = Exn e
             /\ head new ≫= setup_failure b (setupUrl key) = Some e).
Proof.
  destruct (hasNopechaExtension w) eqn:Hflag.
  - destruct (initializeNopechaExtension_run env b opt_minimize key l w Hflag)
      as (r & new & w' & Heq & Hext & Hout).
    exists r, new, w'. split; [done|]. split; [done|]. split; [done|].
    destruct Hout as [(e & -> & Hfail & _)|[(-> & _)|(-> & _)]];
      [right; by exists e|by left..].
  - exists (Val tt), [], w.
    split; [by apply initializeNopechaExtension_idle|].
    split; [apply extends_by_refl|]. split; [done|]. by left.
Qed.

Lemma initializeNopechaExtension_swallows_failures_witness :
  exists new,
    extends_by new world0
      (initializeNopechaExtension quiet_env 1%nat None (Some "nopecha-key")
         tt world0).2
    /\ new = [].
Proof.
  destruct (initializeNopechaExtension_swallows_failures quiet_env 1%nat None
              (Some "nopecha-key") tt world0)
    as (r & new & w' & Heq & Hext & Hidle & _).
  exists new. rewrite Heq. split; [exact Hext|].
  by apply Hidle.
Defined.

(** X12. The key is typed into the settings field of the extension only
    when the value read from the field differs from it, and then once,
    after exactly 31 presses of Backspace (the loop runs for [i] from 0
    to 30); when the field already holds the key, no key is pressed and
    nothing is typed. *)
Theorem nopecha_key_typed_only_when_different env {L} b opt_minimize k
    (l : L) w :
  exists new,
    extends_by new w
      (initializeNopechaExtension env b opt_minimize (Some k) l w).2
    /\ (omap typed new = []
        \/ exists s v,
             omap typed new = [(s, k)]
             /\ omap value_seen new = [v]
             /\ v <> Some k
             /\ presses "Backspace" new = 31%nat)
    /\ (omap value_seen new = [Some k] ->
        omap pressed new = [] /\ omap typed new = []).
Proof.
  destruct (hasNopechaExtension w) eqn:Hflag.
  - destruct (initializeNopechaExtension_run env b opt_minimize (Some k) l w
                Hflag) as (r & new & w' & Heq & Hext & Hout).
    exists new. rewrite Heq. split; [done|].
    destruct Hout as [(e & _ & _ & _ & _ & Hty & Hv)
                     |[(_ & _ & Hty & Hv & _)
                      |(_ & ts & id & ids & _ & _ & _ & Htyping)]].
    + rewrite Hty, Hv. split; [by left|done].
    + rewrite Hty, Hv. split; [by left|done].
    + exact Htyping.
  - exists []. rewrite initializeNopechaExtension_idle by done.
    split; [apply extends_by_refl|]. split; [by left|done].
Qed.

Lemma nopecha_key_typed_only_when_different_witness :
  exists new,
    extends_by new world_with_nopecha
      (initializeNopechaExtension nopecha_env 1%nat None (Some "nopecha-key")
         tt world_with_nopecha).2
    /\ omap pressed new = [] /\ omap typed new = [].
Proof.
  destruct (nopecha_key_typed_only_when_different nopecha_env 1%nat None
              "nopecha-key" tt world_with_nopecha)
    as (new & Hext & _ & Hsame).
  exists new. split; [exact Hext|]. apply Hsame.
  rewrite (extends_by_history _ _ _ Hext eq_refl).
  vm_compute. reflexivity.
Defined.

(** X13. The popup [initializeNopechaExtension] opens is the one of the
    first service worker among the targets that has a non-empty host
    name: targets of other types are passed over.  When the url of some
    service worker is rejected by [new URL], no popup is opened at all,
    even if other service workers have valid urls. *)
Theorem nopecha_popup_of_first_service_worker env {L} b opt_minimize key
    (l : L) w :
  exists new,
    extends_by new w (initializeNopechaExtension env b opt_minimize key l w).2
    /\ (omap opened_idle new = []
        \/ exists ts id,
             omap targets_seen new = [ts]
             /\ head (hostnames ts) = Some id
             /\ omap opened_idle new = [popupUrl id])
    /\ (forall ts t,
           omap targets_seen new = [ts] ->
           t ∈ ts -> is_service_worker t = true -> target_hostname t = None ->
           omap opened_idle new = []).
Proof.
  destruct (hasNopechaExtension w) eqn:Hflag.
  - destruct (initializeNopechaExtension_run env b opt_minimize key l w Hflag)
      as (r & new & w' & Heq & Hext & Hout).
    exists new. rewrite Heq. split; [done|].
    destruct Hout as [(e & _ & _ & _ & Ho & _)
                     |[(_ & Ho & _)
                      |(_ & ts & id & ids & Hts & Hids & Ho & _)]].
    + rewrite Ho. split; [by left|done].
    + rewrite Ho. split; [by left|done].
    + split.
      * right. exists ts, id. split; [done|]. split; [|done].
        by rewrite <- (proj1 (extensionIds_hostnames ts) _ Hids).
      * intros ts' t Hts' Hin Hsw Hh. rewrite Hts in Hts'.
        injection Hts' as <-.
        assert (extensionIds ts = None) as Hnone
          by (apply extensionIds_hostnames; by exists t).
        congruence.
  - exists []. rewrite initializeNopechaExtension_idle by done.
    split; [apply extends_by_refl|]. split; [by left|done].
Qed.

Lemma nopecha_popup_of_first_service_worker_witness :
  exists new,
    extends_by new world_with_nopecha
      (initializeNopechaExtension broken_worker_env 1%nat None
         (Some "nopecha-key") tt world_with_nopecha).2
    /\ omap opened_idle new = [].
Proof.
  destruct (nopecha_popup_of_first_service_worker broken_worker_env 1%nat None
              (Some "nopecha-key") tt world_with_nopecha)
    as (new & Hext & _ & Hbroken).
  exists new. split; [exact Hext|].
  apply (Hbroken [nopecha_worker; broken_worker] broken_worker).
  - rewrite (extends_by_history _ _ _ Hext eq_refl).
    vm_compute. reflexivity.
  - apply list_elem_of_further, list_elem_of_here.
  - reflexivity.
  - reflexivity.
Defined.

(** ** Relations that every statement of a function keeps *)

Section Steps.

Variable env : Env.
Variable Rel : World -> World -> Prop.
Hypothesis Rel_refl : forall w, Rel w w.
Hypothesis Rel_trans : forall w1 w2 w3, Rel w1 w2 -> Rel w2 w3 -> Rel w1 w3.

Lemma steps_pure {L A} (m : M L A) :
  (forall l w, (m l w).2 = w) -> steps Rel m.
Proof. intros H l w. by rewrite H. Qed.

Lemma steps_ret {L A} (a : A) : steps Rel (mret a : M L A).
Proof. by apply steps_pure. Qed.

Lemma steps_throw {L A} e : steps Rel (throw e : M L A).
Proof. by apply steps_pure. Qed.

Lemma steps_break {L A} : steps Rel (break : M L A).
Proof. by apply steps_pure. Qed.

Lemma steps_diverge {L A} : steps Rel (diverge : M L A).
Proof. by apply steps_pure. Qed.

Lemma steps_read {L X} (f : L -> X) : steps Rel (read f).
Proof. by apply steps_pure. Qed.

Lemma steps_assign {L} (f : L -> L) : steps Rel (assign f).
Proof. by apply steps_pure. Qed.

Lemma steps_read_world {L X} (f : World -> X) : steps Rel (read_world f : M L X).
Proof. by apply steps_pure. Qed.

Lemma steps_random {L} lo hi : steps Rel (random env lo hi : M L Z).
Proof. by apply steps_pure. Qed.

Lemma steps_now {L} : steps Rel (now env : M L Z).
Proof. by apply steps_pure. Qed.

Lemma steps_write_world {L} (f : World -> World) :
  (forall w, Rel w (f w)) -> steps Rel (write_world f : M L unit).
Proof. intros H l w. apply H. Qed.

Lemma steps_delay {L} ms :
  (forall w, Rel w (record_event (Delayed ms) w)) ->
  steps Rel (delay ms : M L unit).
Proof. intros H l w. apply H. Qed.

Lemma promise_steps_perform {R} (op : Op R) :
  (forall w out, Rel w (record_event (Called R op out) w)) ->
  promise_steps Rel (perform env op).
Proof. intros H w. apply H. Qed.

Lemma promise_steps_forget {A} (p : Promise A) :
  promise_steps Rel p -> promise_steps Rel (forget p).
Proof.
  intros H w. specialize (H w). unfold forget. by destruct (p w) as [[a|e] w'].
Qed.

Lemma steps_await {L A} (p : Promise A) :
  promise_steps Rel p -> steps Rel (await p : M L A).
Proof.
  intros H l w. specialize (H w). unfold await. by destruct (p w) as [[a|e] w'].
Qed.

Lemma steps_call {L R} (op : Op R) :
  (forall w out, Rel w (record_event (Called R op out) w)) ->
  steps Rel (call env op : M L R).
Proof. intros H. by apply steps_await, promise_steps_perform. Qed.

Lemma steps_bind {L A B} (m : M L A) (k : A -> M L B) :
  steps Rel m -> (forall a, steps Rel (k a)) -> steps Rel (m ≫= k).
Proof.
  intros Hm Hk l w. specialize (Hm l w). unfold mbind, M_bind.
  destruct (m l w) as [[[a| |e|] l1] w1]; cbn in *; try done.
  eapply Rel_trans; [exact Hm|apply Hk].
Qed.

Lemma steps_try_catch {L A} (body : M L A) (handler : Err -> M L A) :
  steps Rel body -> (forall e, steps Rel (handler e)) ->
  steps Rel (try_catch body handler).
Proof.
  intros Hm Hk l w. specialize (Hm l w). unfold try_catch.
  destruct (body l w) as [[[a| |e|] l1] w1]; cbn in *; try done.
  eapply Rel_trans; [exact Hm|apply Hk].
Qed.

Lemma steps_try_finally {L A} (body : M L A) (fin : M L unit) :
  steps Rel body -> steps Rel fin -> steps Rel (try_finally body fin).
Proof.
  intros Hm Hk l w. specialize (Hm l w). unfold try_finally.
  destruct (body l w) as [[r l1] w1]; cbn in Hm.
  specialize (Hk l1 w1).
  destruct r as [a| |e|]; try done;
    destruct (fin l1 w1) as [[[[]| | |] l2] w2]; cbn in *;
    by eapply Rel_trans.
Qed.

Lemma steps_call_fn {L L' A} (init : L') (body : M L' A) :
  steps Rel body -> steps Rel (call_fn init body : M L A).
Proof.
  intros H l w. specialize (H init w). unfold call_fn.
  by destruct (body init w) as [[r l'] w'].
Qed.

Lemma steps_when {L} (b : bool) (m : M L unit) :
  (b = true -> steps Rel m) -> steps Rel (when b m).
Proof. intros H. destruct b; [by apply H|apply steps_ret]. Qed.

Lemma steps_times {L} n (m : M L unit) :
  steps Rel m -> steps Rel (times n m).
Proof.
  intros H. induction n as [|n IH]; [apply steps_ret|].
  cbn [times]. by apply steps_bind.
Qed.

Lemma steps_do_while {L} fuel (body : M L unit) (cond : L -> bool) :
  steps Rel body -> steps Rel (do_while fuel body cond).
Proof.
  intros H. induction fuel as [|fuel IH]; [apply steps_diverge|].
  intros l w. cbn [do_while]. specialize (H l w).
  destruct (body l w) as [[[[]| | |] l1] w1]; cbn in *; try done.
  destruct (cond l1); [|done]. eapply Rel_trans; [exact H|apply IH].
Qed.

Lemma steps_promise_all2 {L} (a b : M L unit) :
  steps Rel a -> steps Rel b -> steps Rel (promise_all2 a b).
Proof.
  intros Ha Hb l w. specialize (Ha l w). unfold promise_all2.
  destruct (a l w) as [[[[]| |e|] l1] w1]; cbn in *; try done;
    specialize (Hb l1 w1);
    destruct (b l1 w1) as [[[[]| | |] l2] w2]; cbn in *;
    by eapply Rel_trans.
Qed.

End Steps.

Lemma only_refl ok w : only ok w w.
Proof. by exists []. Qed.

Lemma only_trans ok w1 w2 w3 : only ok w1 w2 -> only ok w2 w3 -> only ok w1 w3.
Proof.
  intros (n1 & H1 & F1) (n2 & H2 & F2). exists (n2 ++ n1).
  split; [by rewrite H2, H1, app_assoc|by apply Forall_app].
Qed.

Lemma only_record ok ev w : ok ev = true -> only ok w (record_event ev w).
Proof. intros H. exists [ev]. split; [done|by constructor]. Qed.

Lemma only_flag ok w w' : history w' = history w -> only ok w w'.
Proof. intros H. exists []. by rewrite H. Qed.

Lemma flags_kept_refl w : flags_kept w w.
Proof. done. Qed.

Lemma flags_kept_trans w1 w2 w3 :
  flags_kept w1 w2 -> flags_kept w2 w3 -> flags_kept w1 w3.
Proof. intros [H1 H2] [H3 H4]. split; congruence. Qed.

Lemma flags_kept_record ev w : flags_kept w (record_event ev w).
Proof. done. Qed.

Lemma plugin_uses_record ev w :
  plugin_uses (history (record_event ev w))
  = ((if is_plugin_use ev then 1 else 0) + plugin_uses (history w))%nat.
Proof.
  unfold record_event, plugin_uses. cbn. by destruct (is_plugin_use ev).
Qed.

Lemma flags_grow_refl w : flags_grow w w.
Proof. done. Qed.

Lemma flags_grow_trans w1 w2 w3 :
  flags_grow w1 w2 -> flags_grow w2 w3 -> flags_grow w1 w3.
Proof. intros (H1 & H2 & H3) (H4 & H5 & H6). repeat split; auto. Qed.

Lemma flags_grow_record ev w :
  is_plugin_use ev = false -> flags_grow w (record_event ev w).
Proof.
  intros Hev. split; [done|]. split; [done|].
  unfold plugin_once. rewrite plugin_uses_record, Hev. done.
Qed.

Lemma both_refl (R1 R2 : World -> World -> Prop) :
  (forall w, R1 w w) -> (forall w, R2 w w) -> forall w, both R1 R2 w w.
Proof. by split. Qed.

Lemma both_trans (R1 R2 : World -> World -> Prop) :
  (forall w1 w2 w3, R1 w1 w2 -> R1 w2 w3 -> R1 w1 w3) ->
  (forall w1 w2 w3, R2 w1 w2 -> R2 w2 w3 -> R2 w1 w3) ->
  forall w1 w2 w3, both R1 R2 w1 w2 -> both R1 R2 w2 w3 -> both R1 R2 w1 w3.
Proof. intros T1 T2 w1 w2 w3 [? ?] [? ?]. split; eauto. Qed.

(** Discharges reflexivity and transitivity of the relation at hand. *)
Ltac rel_side :=
  first
    [ assumption
    | apply only_refl | apply only_trans
    | apply flags_kept_refl | apply flags_kept_trans
    | apply flags_grow_refl | apply flags_grow_trans
    | apply both_refl; rel_side
    | apply both_trans; rel_side ].

(** Discharges the step of one call or pause. *)
Ltac rel_leaf :=
  intros;
  first
    [ match goal with
      | H : forall R op w out, is_setup_op R op = false -> _ |- _ =>
          apply H; reflexivity
      | H : forall (ms : Z) w, _ |- _ => apply H
      end
    | assumption ].

Ltac steps_step :=
  first
    [ assumption
    | match goal with H : _ |- steps _ _ => simple eapply H end
    | apply steps_ret; rel_side
    | apply steps_throw; rel_side
    | apply steps_break; rel_side
    | apply steps_diverge; rel_side
    | apply steps_read; rel_side
    | apply steps_assign; rel_side
    | apply steps_read_world; rel_side
    | apply steps_random; rel_side
    | apply steps_now; rel_side
    | apply steps_bind; [rel_side| |intros ?]
    | apply steps_call; rel_leaf
    | apply steps_delay; rel_leaf
    | apply steps_await
    | apply promise_steps_forget
    | apply promise_steps_perform; rel_leaf
    | apply steps_try_catch; [rel_side| |intros ?]
    | apply steps_try_finally; [rel_side| |]
    | apply steps_call_fn
    | apply steps_when; [rel_side|intros ?]
    | apply steps_times; [rel_side|rel_side|]
    | apply steps_do_while; [rel_side|rel_side|]
    | apply steps_promise_all2; [rel_side| |]
    | match goal with
      | |- steps _ (match ?x with _ => _ end) => destruct x
      | |- steps _ (if ?x then _ else _) => destruct x
      | |- context [match ?x with _ => _ end] => is_var x; destruct x
      end ].

Ltac steps_go := cbn zeta; repeat steps_step.

(** *** The functions of the file *)

Section StepsFile.

Variable env : Env.
Variable Rel : World -> World -> Prop.
Hypothesis Rel_refl : forall w, Rel w w.
Hypothesis Rel_trans : forall w1 w2 w3, Rel w1 w2 -> Rel w2 w3 -> Rel w1 w3.
Hypothesis Hcall :
  forall R (op : Op R) w out,
    is_setup_op R op = false -> Rel w (record_event (Called R op out) w).
Hypothesis Hdelay : forall ms w, Rel w (record_event (Delayed ms) w).

Lemma steps_solveSimpleCaptchas page :
  steps Rel (solveSimpleCaptchas env page).
Proof. unfold solveSimpleCaptchas, click_when_present. steps_go. Qed.

Lemma steps_checkForChatGPTAtCapacity {L} fuel page opts :
  steps Rel (checkForChatGPTAtCapacity env fuel page opts : M L unit).
Proof.
  pose proof steps_solveSimpleCaptchas.
  unfold checkForChatGPTAtCapacity, checkForChatGPTAtCapacity_body,
    capacity_cycle.
  steps_go.
Qed.

Lemma steps_race_step fuel page condition ms ev :
  promise_steps Rel condition ->
  steps Rel (race_step env fuel page condition ms ev).
Proof.
  intros Hc. pose proof (@steps_checkForChatGPTAtCapacity Race).
  unfold race_step, condition_settles, condition_then, condition_catch,
    waitForCapacityText_enter, waitForCapacityText_resume, setTimeout,
    resolve, reject.
  destruct ev; steps_go.
Qed.

Lemma steps_race_until_settled turns fuel n page condition ms :
  promise_steps Rel condition ->
  steps Rel (race_until_settled env turns fuel n page condition ms).
Proof.
  intros Hc. pose proof (fun ev => steps_race_step fuel page condition ms ev Hc).
  revert n.
  induction turns as [|turns IH]; intros n; cbn [race_until_settled]; steps_go.
Qed.

Lemma steps_waitForConditionOrAtCapacity {L} fuel page condition opt_ms :
  promise_steps Rel condition ->
  steps Rel (waitForConditionOrAtCapacity env fuel page condition opt_ms
             : M L unit).
Proof.
  intros Hc.
  pose proof (fun turns n ms =>
                steps_race_until_settled turns fuel n page condition ms Hc).
  unfold waitForConditionOrAtCapacity, race_executor, setTimeout. steps_go.
Qed.

Lemma steps_first_page_or_new {L} b :
  steps Rel (first_page_or_new env b : M L Page).
Proof. unfold first_page_or_new. steps_go. Qed.

Lemma steps_waitForRecaptcha {L} fuel page opt_ms timeoutMs :
  steps Rel (waitForRecaptcha env fuel page opt_ms timeoutMs : M L unit).
Proof.
  pose proof steps_solveSimpleCaptchas.
  unfold waitForRecaptcha. steps_go.
Qed.

(** The login keeps [Rel] when typing the email and the password into
    their fields does. *)
Lemma steps_login {L} fuel page email password isGoogleLogin isMicrosoftLogin
    timeoutMs :
  (forall selector text d,
      credential_field email password selector text = true ->
      steps Rel (call env (TypeText page selector text d) : M L unit)) ->
  steps Rel (login env fuel page email password isGoogleLogin isMicrosoftLogin
               timeoutMs : M L unit).
Proof.
  intros Htype.
  assert (Hemail : forall selector d,
             String.eqb selector "input[type=email]"
             || String.eqb selector "#username" = true ->
             steps Rel (call env (TypeText page selector email d) : M L unit)).
  { intros selector d Hsel. apply Htype. unfold credential_field.
    by rewrite String.eqb_refl, Hsel. }
  assert (Hpassword : forall selector d,
             String.eqb selector "input[type=password]"
             || String.eqb selector "#password" = true ->
             steps Rel (call env (TypeText page selector password d)
                        : M L unit)).
  { intros selector d Hsel. apply Htype. unfold credential_field.
    by rewrite String.eqb_refl, Hsel, orb_true_r. }
  clear Htype.
  pose proof (@steps_checkForChatGPTAtCapacity L).
  pose proof (@steps_waitForConditionOrAtCapacity L).
  pose proof (@steps_waitForRecaptcha L).
  unfold login, login_google, login_microsoft, login_openai,
    press_enter_and_navigate, not_awaited, submit_op.
  steps_go; reflexivity.
Qed.

Lemma steps_authenticate fuel o page userAgent :
  (forall selector text d,
      credential_field (template (ao_email o)) (template (ao_password o))
        selector text = true ->
      steps Rel (call env (TypeText page selector text d)
                 : M AuthLocals unit)) ->
  steps Rel (authenticate env fuel o page userAgent).
Proof.
  intros Htype.
  pose proof (@steps_checkForChatGPTAtCapacity AuthLocals).
  pose proof (fun fuel isGoogleLogin isMicrosoftLogin timeoutMs =>
                @steps_login AuthLocals fuel page _ _ isGoogleLogin
                  isMicrosoftLogin timeoutMs Htype).
  unfold authenticate. steps_go.
Qed.

Lemma steps_getOpenAIAuth_finally origBrowser origPage :
  steps Rel (getOpenAIAuth_finally env origBrowser origPage).
Proof. unfold getOpenAIAuth_finally. steps_go. Qed.

(** The functions that minimize a page, set its default timeout or
    launch a browser keep [Rel] when those calls do. *)

Lemma steps_initializeNopechaExtension {L} b opt_minimize key :
  (default false opt_minimize = true ->
   forall p, steps Rel (call env (MinimizePage p) : M L unit)) ->
  steps Rel (initializeNopechaExtension env b opt_minimize key : M L unit).
Proof.
  intros Hmin. pose proof (@steps_first_page_or_new L).
  unfold initializeNopechaExtension. cbn zeta.
  destruct (default false opt_minimize);
    [specialize (Hmin eq_refl)|clear Hmin]; cbn [when]; steps_go.
Qed.

Lemma steps_validateProxyIp {L} b (minimize : bool) :
  (minimize = true ->
   forall p, steps Rel (call env (MinimizePage p) : M L unit)) ->
  steps Rel (validateProxyIp env b minimize : M L unit).
Proof.
  intros Hmin. pose proof (@steps_first_page_or_new L).
  unfold validateProxyIp.
  destruct minimize; [specialize (Hmin eq_refl)|clear Hmin]; cbn [when];
    steps_go.
Qed.

Lemma steps_getBrowser_launched {L} opts b :
  (default false (bo_minimize opts) = true ->
   forall p, steps Rel (call env (MinimizePage p) : M L unit)) ->
  steps Rel (getBrowser_launched env opts b : M L Browser).
Proof.
  intros Hmin.
  pose proof (@steps_validateProxyIp L b _ Hmin).
  pose proof (@steps_initializeNopechaExtension L b
                (Some (default false (bo_minimize opts)))
                (or_default (bo_nopechaKey opts) (NOPECHA_KEY (process env)))
                Hmin).
  unfold getBrowser_launched. steps_go.
Qed.

Lemma getBrowser_eq {L} opts (l : L) w :
  getBrowser env opts l w =
  (getBrowser_flags env opts;;
   browser ← call env (Launch (launchOptions_of env opts));
   getBrowser_launched env opts browser) l w.
Proof.
  unfold getBrowser, getBrowser_flags, getBrowser_launched. cbn zeta.
  unfold mbind, M_bind, read_world, when, write_world, mret, M_ret.
  destruct (truthy _ && negb _); destruct (truthy _); reflexivity.
Qed.

Lemma steps_getBrowser {L} opts :
  steps Rel (getBrowser_flags env opts : M L unit) ->
  steps Rel (call env (Launch (launchOptions_of env opts)) : M L Browser) ->
  (default false (bo_minimize opts) = true ->
   forall p, steps Rel (call env (MinimizePage p) : M L unit)) ->
  steps Rel (getBrowser env opts : M L Browser).
Proof.
  intros Hflags Hlaunch Hmin l w. rewrite getBrowser_eq. revert l w.
  pose proof (fun b => @steps_getBrowser_launched L opts b Hmin).
  change (steps Rel (getBrowser_flags env opts;;
                     browser ← call env (Launch (launchOptions_of env opts));
                     getBrowser_launched env opts browser : M L Browser)).
  steps_go.
Qed.

Lemma steps_ensure_page o b :
  (forall p, steps Rel (call env (SetDefaultTimeout p (auth_timeoutMs o))
                        : M AuthLocals unit)) ->
  (default false (ao_minimize o) = true ->
   forall p, steps Rel (call env (MinimizePage p) : M AuthLocals unit)) ->
  steps Rel (ensure_page env o b).
Proof.
  intros Htimeout Hmin. pose proof (@steps_first_page_or_new AuthLocals).
  unfold ensure_page. cbn zeta.
  destruct (default false (ao_minimize o));
    [specialize (Hmin eq_refl)|clear Hmin]; cbn [when]; steps_go.
Qed.

Lemma steps_with_browser fuel o b :
  (forall p, steps Rel (call env (SetDefaultTimeout p (auth_timeoutMs o))
                        : M AuthLocals unit)) ->
  (default false (ao_minimize o) = true ->
   forall p, steps Rel (call env (MinimizePage p) : M AuthLocals unit)) ->
  (forall p selector text d,
      credential_field (template (ao_email o)) (template (ao_password o))
        selector text = true ->
      steps Rel (call env (TypeText p selector text d) : M AuthLocals unit)) ->
  steps Rel (with_browser env fuel o b).
Proof.
  intros Htimeout Hmin Htype.
  pose proof (steps_ensure_page o b Htimeout Hmin).
  pose proof (fun p ua => steps_authenticate fuel o p ua (Htype p)).
  unfold with_browser. steps_go.
Qed.

Lemma steps_getOpenAIAuth {L} fuel o :
  steps Rel (getBrowser_flags env (getBrowser_opts env o) : M AuthLocals unit) ->
  (forall lo, steps Rel (call env (Launch lo) : M AuthLocals Browser)) ->
  (forall p, steps Rel (call env (SetDefaultTimeout p (auth_timeoutMs o))
                        : M AuthLocals unit)) ->
  (default false (ao_minimize o) = true ->
   forall p, steps Rel (call env (MinimizePage p) : M AuthLocals unit)) ->
  (forall p selector text d,
      credential_field (template (ao_email o)) (template (ao_password o))
        selector text = true ->
      steps Rel (call env (TypeText p selector text d) : M AuthLocals unit)) ->
  steps Rel (getOpenAIAuth env fuel o : M L OpenAIAuth).
Proof.
  intros Hflags Hlaunch Htimeout Hmin Htype.
  pose proof (@steps_getBrowser AuthLocals (getBrowser_opts env o) Hflags
                (Hlaunch _) ltac:(done)).
  pose proof (fun b => steps_with_browser fuel o b Htimeout Hmin Htype).
  pose proof (steps_getOpenAIAuth_finally (ao_browser o) (ao_page o)).
  unfold getOpenAIAuth, getOpenAIAuth_try, ensure_browser. steps_go.
Qed.

End StepsFile.

(** ** The module flags *)

Lemma flags_grow_call R (op : Op R) w out :
  flags_grow w (record_event (Called R op out) w).
Proof. by apply flags_grow_record. Qed.

Lemma flags_grow_getBrowser_flags env {L} opts :
  steps flags_grow (getBrowser_flags env opts : M L unit).
Proof.
  intros l w. unfold getBrowser_flags. unfold_m. cbn.
  destruct (truthy (or_default (bo_captchaToken opts) _)) eqn:Htoken;
    destruct (hasRecaptchaPlugin w) eqn:Hplugin;
    destruct (truthy (or_default (bo_nopechaKey opts) _)); cbn;
    (split; [done|]); (split; [done|]);
    unfold plugin_once; cbn -[plugin_uses]; rewrite ?plugin_uses_record;
    unfold record_event; cbn -[plugin_uses]; rewrite ?Hplugin; try done; lia.
Qed.

(** X14. The two module flags are only ever set, never cleared, by
    [getBrowser] and [getOpenAIAuth], and the reCAPTCHA plugin is
    registered with [puppeteer.use] at most once in the life of the
    module: if it has been registered at most once, and not at all
    while the flag [hasRecaptchaPlugin] was unset, the same holds after a
    call, whatever options and tokens the call is given.  A second call
    with another [captchaToken] therefore registers nothing. *)
Theorem module_flags_only_grow env {L} fuel o opts (l : L) w :
  flags_grow w (getBrowser env opts l w).2
  /\ flags_grow w (getOpenAIAuth env fuel o l w).2.
Proof.
  split.
  - apply (steps_getBrowser env flags_grow flags_grow_refl flags_grow_trans
             (fun R op w out _ => flags_grow_call R op w out)
             (fun ms w => flags_grow_record (Delayed ms) w eq_refl)).
    + apply flags_grow_getBrowser_flags.
    + apply steps_call. intros. apply flags_grow_call.
    + intros _ p. apply steps_call. intros. apply flags_grow_call.
  - apply (steps_getOpenAIAuth env flags_grow flags_grow_refl flags_grow_trans
             (fun R op w out _ => flags_grow_call R op w out)
             (fun ms w => flags_grow_record (Delayed ms) w eq_refl)).
    + apply flags_grow_getBrowser_flags.
    + intros lo. apply steps_call. intros. apply flags_grow_call.
    + intros p. apply steps_call. intros. apply flags_grow_call.
    + intros _ p. apply steps_call. intros. apply flags_grow_call.
    + intros p selector text d _. apply steps_call. intros.
      apply flags_grow_call.
Qed.

Lemma module_flags_only_grow_witness :
  plugin_once
    (getBrowser quiet_env (keyed_opts (Some "2captcha-key") None) tt world0).2
  /\ plugin_once
       (getOpenAIAuth quiet_env 10 (with_login auth_opts0) tt
          (getBrowser quiet_env (keyed_opts (Some "2captcha-key") None) tt
             world0).2).2.
Proof.
  assert (H0 : plugin_once world0) by (vm_compute; lia).
  pose proof (proj1 (module_flags_only_grow quiet_env 10 (with_login auth_opts0)
                       (keyed_opts (Some "2captcha-key") None) tt world0))
    as (_ & _ & H1).
  split; [exact (H1 H0)|].
  pose proof (proj2 (module_flags_only_grow quiet_env 10 (with_login auth_opts0)
                       (keyed_opts None None) tt
                       (getBrowser quiet_env
                          (keyed_opts (Some "2captcha-key") None) tt world0).2))
    as (_ & _ & H2).
  exact (H2 (H1 H0)).
Defined.

(** ** The launch of [getBrowser] *)

Lemma launches_app h1 h2 : launches (h1 ++ h2) = (launches h1 + launches h2)%nat.
Proof. unfold launches. by rewrite List.filter_app, length_app. Qed.

Lemma launches_none new :
  Forall (fun ev => negb (is_launch ev) = true) new -> launches new = 0%nat.
Proof.
  induction 1 as [|ev new Hev _ IH]; [done|].
  change (ev :: new) with ([ev] ++ new). rewrite launches_app, IH.
  unfold launches. cbn. by destruct (is_launch ev).
Qed.

Lemma getBrowser_flags_history env {L} opts (l : L) w :
  exists pre,
    getBrowser_flags env opts l w = (Val tt, l, (getBrowser_flags env opts l w).2)
    /\ history (getBrowser_flags env opts l w).2 = pre ++ history w
    /\ Forall (fun ev => is_plugin_use ev = true) pre.
Proof.
  unfold getBrowser_flags. unfold_m. cbn.
  destruct (truthy _ && negb _); destruct (truthy _); cbn;
    first [ by exists [] | eexists [_]; by repeat constructor ].
Qed.

Lemma getBrowser_launch_shape env {L} opts (l : L) w :
  exists new out pre,
    history (getBrowser env opts l w).2
    = new ++ Called _ (Launch (launchOptions_of env opts)) out
          :: pre ++ history w
    /\ Forall (fun ev => is_plugin_use ev = true) pre
    /\ launches new = 0%nat.
Proof.
  rewrite getBrowser_eq.
  destruct (getBrowser_flags_history env opts l w) as (pre & Heq & Hh & Hpre).
  unfold mbind at 1, M_bind at 1. rewrite Heq.
  set (w0 := (getBrowser_flags env opts l w).2) in *. clearbody w0.
  rewrite bind_call.
  destruct (answer env (history w0) _ (Launch _)) as [b|e].
  - assert (Hrest : steps (only (fun ev => negb (is_launch ev)))
                      (getBrowser_launched env opts b : M L Browser)).
    { apply (steps_getBrowser_launched env _ (only_refl _) (only_trans _)).
      - intros R op w1 out Hop. apply only_record. by destruct op.
      - intros ms w1. by apply only_record.
      - intros _ p. apply steps_call. intros. by apply only_record. }
    destruct (Hrest l (record_event
                         (Called _ (Launch (launchOptions_of env opts))
                            (Returned b)) w0)) as (new & Hnew & Hnone).
    exists new, (Returned b), pre. rewrite Hnew.
    unfold record_event. cbn [history]. rewrite Hh.
    split; [done|]. split; [done|]. by apply launches_none.
  - exists [], (Thrown e), pre. unfold record_event. cbn. by rewrite Hh.
Qed.

Lemma getBrowser_launch_count env {L} opts (l : L) w :
  launches (history (getBrowser env opts l w).2) = S (launches (history w)).
Proof.
  destruct (getBrowser_launch_shape env opts l w)
    as (new & out & pre & -> & Hpre & Hnone).
  change (?a :: pre ++ history w) with ([a] ++ pre ++ history w).
  rewrite !launches_app, Hnone.
  assert (launches pre = 0%nat) as ->; [|done].
  apply launches_none. eapply Forall_impl; [exact Hpre|].
  by intros [| |].
Qed.

(** X15. Every call of [getBrowser] calls [puppeteer.launch] exactly
    once, and no call of the driver comes before it: at most the
    registration of the reCAPTCHA plugin does.  What follows the launch
    (the validation of the proxy, the set-up of the extension) launches
    nothing more, also when it fails. *)
Theorem getBrowser_launches_once env {L} opts (l : L) w :
  launches (history (getBrowser env opts l w).2) = S (launches (history w))
  /\ exists new out pre,
       history (getBrowser env opts l w).2
       = new ++ Called _ (Launch (launchOptions_of env opts)) out
             :: pre ++ history w
       /\ Forall (fun ev => is_plugin_use ev = true) pre
       /\ launches new = 0%nat.
Proof.
  split; [apply getBrowser_launch_count|apply getBrowser_launch_shape].
Qed.

(** X16. The path of the browser that [getBrowser] launches, when the
    caller gives none, is never empty: it is [PUPPETEER_EXECUTABLE_PATH]
    if that is set and not empty, and otherwise one of four fixed paths,
    chosen by the platform alone on Windows and macOS and by the
    presence of [/usr/bin/google-chrome] on every other platform.  A
    path the caller gives is used as it is, the empty string too. *)
Theorem launch_executable_path env opts :
  (bo_executablePath opts = None ->
   executablePath (launchOptions_of env opts) <> ""
   /\ (truthy (PUPPETEER_EXECUTABLE_PATH (process env)) = true ->
       Some (executablePath (launchOptions_of env opts))
       = PUPPETEER_EXECUTABLE_PATH (process env))
   /\ (truthy (PUPPETEER_EXECUTABLE_PATH (process env)) = false ->
       executablePath (launchOptions_of env opts) ∈ chromePaths
       /\ (platform (process env) <> "win32" ->
           platform (process env) <> "darwin" ->
           executablePath (launchOptions_of env opts)
           = if chromeExists (process env) then "/usr/bin/google-chrome"
             else "/usr/bin/google-chrome-stable")))
  /\ (forall p, bo_executablePath opts = Some p ->
                executablePath (launchOptions_of env opts) = p).
Proof.
  unfold launchOptions_of, defaultChromeExecutablePath, chromePaths. cbn.
  split; [|by intros p ->].
  intros ->. cbn.
  destruct (PUPPETEER_EXECUTABLE_PATH (process env)) as [path|] eqn:Hpath; cbn.
  - destruct (String.eqb_spec path "") as [->|Hne]; cbn.
    + split; [|split; [done|intros _]];
        destruct (String.eqb_spec (platform (process env)) "win32");
        destruct (String.eqb_spec (platform (process env)) "darwin");
        destruct (chromeExists (process env));
        first [ done | split; [set_solver|done] ].
    + split; [done|]. split; [done|done].
  - split; [|split; [done|intros _]];
      destruct (String.eqb_spec (platform (process env)) "win32");
      destruct (String.eqb_spec (platform (process env)) "darwin");
      destruct (chromeExists (process env));
      first [ done | split; [set_solver|done] ].
Qed.

Lemma launch_executable_path_witness :
  executablePath (launchOptions_of quiet_env (proxy_opts None)) <> ""
  /\ executablePath (launchOptions_of quiet_env (proxy_opts None))
     = "/usr/bin/google-chrome".
Proof.
  destruct (proj1 (launch_executable_path quiet_env (proxy_opts None)) eq_refl)
    as (Hne & _ & Hdefault).
  split; [exact Hne|].
  by apply (proj2 (Hdefault eq_refl)).
Defined.

(** ** The validation of the proxy *)

Lemma validateProxyIp_val env {L} b minimize (l l' : L) w w' ip :
  PROXY_VALIDATE_IP (process env) = Some ip -> ip <> "" ->
  validateProxyIp env b minimize l w = (Val tt, l', w') ->
  exists p old,
    history w' = Called _ (FetchIp p) (Returned (Some ip)) :: old.
Proof.
  intros Hip Hne. unfold validateProxyIp. rewrite Hip.
  assert (Htruthy : truthy (Some ip) = true).
  { cbn. by destruct (String.eqb_spec ip ""). }
  rewrite Htruthy. cbn [when]. intros H.
  apply bind_val_inv in H as (p & l1 & w1 & _ & H).
  apply bind_val_inv in H as ([] & l2 & w2 & _ & H).
  apply bind_val_inv in H as (ip' & l3 & w3 & Hfetch & H).
  unfold try_catch in Hfetch. rewrite call_cases in Hfetch.
  destruct (answer env (history w2) _ (FetchIp p)) as [ip''|e]; [|done].
  injection Hfetch as <- <- <-.
  destruct (negb (truthy ip'') || negb (bool_decide (ip'' = Some ip))) eqn:Hbad;
    cbn [when] in H; [done|].
  injection H as <- <-.
  apply orb_false_elim in Hbad as [_ Hsame].
  apply negb_false_iff, bool_decide_eq_true in Hsame. subst ip''.
  by eexists _, _.
Qed.

(** X17. With [PROXY_VALIDATE_IP] set, [getBrowser] hands a browser over
    only after the address that the page fetched from ifconfig.co has
    been found equal to it: every run that returns has a call of the
    fetch that returned exactly that address. *)
Theorem getBrowser_returns_validated_proxy env {L} opts (l l' : L) w w' b ip :
  PROXY_VALIDATE_IP (process env) = Some ip -> ip <> "" ->
  getBrowser env opts l w = (Val b, l', w') ->
  exists p new old,
    history w' = new ++ Called _ (FetchIp p) (Returned (Some ip)) :: old.
Proof.
  intros Hip Hne H. rewrite getBrowser_eq in H.
  apply bind_val_inv in H as ([] & l1 & w1 & _ & H).
  apply bind_val_inv in H as (b1 & l2 & w2 & _ & H).
  unfold getBrowser_launched in H.
  apply bind_val_inv in H as ([] & l3 & w3 & Hvalid & H).
  destruct (validateProxyIp_val env b1 _ l2 l3 w2 w3 ip Hip Hne Hvalid)
    as (p & old & Hh).
  assert (Hrest : steps (only (fun _ => true))
                    (initializeNopechaExtension env b1
                       (Some (default false (bo_minimize opts)))
                       (or_default (bo_nopechaKey opts)
                          (NOPECHA_KEY (process env)));;
                     mret b1 : M L Browser)).
  { pose proof (@steps_initializeNopechaExtension env _ (only_refl _)
                  (only_trans _)
                  (fun R op w1 out _ => only_record (fun _ => true) _ w1 eq_refl)
                  (fun ms w1 => only_record (fun _ => true) _ w1 eq_refl)
                  L b1 (Some (default false (bo_minimize opts)))
                  (or_default (bo_nopechaKey opts) (NOPECHA_KEY (process env)))
                  ltac:(intros _ p0; apply steps_call; intros;
                        by apply only_record)).
    steps_go. }
  destruct (Hrest l3 w3) as (new & Hnew & _). rewrite H in Hnew. cbn in Hnew.
  exists p, new, old. by rewrite Hnew, Hh.
Qed.

Lemma getBrowser_returns_validated_proxy_witness :
  exists p new old,
    history (getBrowser right_proxy_env (proxy_opts None) tt world0).2
    = new ++ Called _ (FetchIp p) (Returned (Some "10.0.0.1")) :: old.
Proof.
  apply (getBrowser_returns_validated_proxy right_proxy_env (proxy_opts None)
           tt tt world0
           (getBrowser right_proxy_env (proxy_opts None) tt world0).2
           1%nat "10.0.0.1" eq_refl).
  - discriminate.
  - vm_compute. reflexivity.
Defined.

(** X18. When the address cannot be fetched, or is not the one
    [PROXY_VALIDATE_IP] names, [getBrowser] throws an [Error] that says
    so ("Proxy IP validation failed: ..." with the cause, "Proxy IP
    mismatch: <found> !== <expected>" otherwise, <found> being
    "undefined" when the answer had no [ip]), and the fetch is the last
    thing it does: the browser it launched is not closed, and the
    set-up of the extension is not started. *)
Theorem getBrowser_proxy_failure env {L} opts (l : L) w b p w2 expected out :
  PROXY_VALIDATE_IP (process env) = Some expected -> expected <> "" ->
  default false (bo_minimize opts) = false ->
  answer env (history (getBrowser_flags env opts l w).2) _
    (Launch (launchOptions_of env opts)) = Returned b ->
  first_page_or_new env b l
    (record_event (Called _ (Launch (launchOptions_of env opts)) (Returned b))
       (getBrowser_flags env opts l w).2) = (Val p, l, w2) ->
  answer env (history w2) _ (FetchIp p) = out ->
  out <> Returned (Some expected) ->
  getBrowser env opts l w
  = (Exn (proxyError expected out), l,
     record_event (Called _ (FetchIp p) out) w2)
  /\ exists new,
       history w2
       = new ++ Called _ (Launch (launchOptions_of env opts)) (Returned b)
             :: history (getBrowser_flags env opts l w).2
       /\ Forall (fun ev => avoids is_close_op ev = true) new.
Proof.
  intros Hip Hne Hmin Hlaunch Hpage Hout Hbad. split.
  - rewrite getBrowser_eq.
    destruct (getBrowser_flags_history env opts l w) as (pre & Heq & _).
    unfold mbind at 1, M_bind at 1. rewrite Heq.
    rewrite bind_call, Hlaunch.
    unfold getBrowser_launched. cbn zeta. rewrite Hmin.
    unfold mbind at 1, M_bind at 1. unfold validateProxyIp.
    rewrite Hip.
    assert (Htruthy : truthy (Some expected) = true).
    { cbn. by destruct (String.eqb_spec expected ""). }
    rewrite Htruthy. cbn [when].
    unfold mbind at 1, M_bind at 1. rewrite Hpage.
    rewrite bind_ret.
    unfold mbind at 1, M_bind at 1. unfold try_catch. rewrite call_cases, Hout.
    destruct out as [ip|err]; [|done].
    assert (negb (truthy ip) || negb (bool_decide (ip = Some expected)) = true)
      as ->; [|done].
    apply orb_true_iff. right. apply negb_true_iff, bool_decide_eq_false.
    congruence.
  - apply first_page_or_new_val in Hpage as [_ [[ps ->]| ->]].
    + eexists [_]. by repeat constructor.
    + eexists [_; _]. by repeat constructor.
Qed.

Lemma getBrowser_proxy_failure_witness :
  getBrowser wrong_proxy_env (proxy_opts None) tt world0
  = (Exn (Error "Proxy IP mismatch: undefined !== 10.0.0.1"), tt,
     record_event (Called _ (FetchIp 2%nat) (Returned None))
       (first_page_or_new wrong_proxy_env 1%nat tt
          (record_event
             (Called _ (Launch (launchOptions_of wrong_proxy_env (proxy_opts None)))
                (Returned 1%nat))
             (getBrowser_flags wrong_proxy_env (proxy_opts None) tt world0).2)).2).
Proof.
  apply (getBrowser_proxy_failure wrong_proxy_env (proxy_opts None) tt world0
           1%nat 2%nat _ "10.0.0.1" (Returned None)); try reflexivity;
    discriminate.
Defined.

(** ** The flag [hasNopechaExtension] outlives the call that set it *)

Lemma getBrowser_flags_nopecha env {L} opts (l : L) w :
  hasNopechaExtension w = true ->
  hasNopechaExtension (getBrowser_flags env opts l w).2 = true.
Proof.
  intros Hflag. unfold getBrowser_flags. unfold_m. cbn.
  by destruct (truthy _ && negb _); destruct (truthy _).
Qed.

Lemma load_extension_not_in_args path proxy :
  (("--load-extension=" +:+ path) ∉ puppeteerArgs path None proxy)
  /\ (("--load-extension=" +:+ path) ∉ puppeteerArgs path (Some "") proxy).
Proof.
  assert (Hbase : ("--load-extension=" +:+ path) ∉ baseArgs).
  { unfold baseArgs. intros Hin.
    repeat (apply elem_of_cons in Hin as [Heq|Hin]; [by injection Heq|]).
    by apply elem_of_nil in Hin. }
  assert (Hproxy : ("--load-extension=" +:+ path)
                   ∉ (if truthy proxy
                      then ["--proxy-server=" +:+ ipPort (template proxy)]
                      else [])).
  { destruct (truthy proxy); intros Hin; [|by apply elem_of_nil in Hin].
    apply list_elem_of_singleton in Hin. by injection Hin. }
  unfold puppeteerArgs. cbn [truthy String.eqb negb].
  split; intros Hin; apply elem_of_app in Hin as [?|Hin]; try done;
    apply elem_of_app in Hin as [Hin|?]; try done;
    by apply elem_of_nil in Hin.
Qed.

Lemma bind_ret_world {L A B} (m : M L A) (b : B) l w :
  ((m ≫= fun _ => mret b) l w).2 = (m l w).2.
Proof. unfold mbind, M_bind. by destruct (m l w) as [[[a| |e|] l1] w1]. Qed.

(** X19. The flag [hasNopechaExtension] belongs to the module, not to
    the call: once an earlier call has set it, a call of [getBrowser]
    without any NopeCHA key still runs the set-up of the extension.  It
    launches the browser without the [--load-extension] argument and
    then opens the set-up url on the first page, the key in the url
    being the text of the missing key ("undefined"). *)
Theorem nopecha_flag_is_sticky env {L} opts (l : L) w b p ps :
  hasNopechaExtension w = true ->
  or_default (bo_nopechaKey opts) (NOPECHA_KEY (process env)) = None ->
  truthy (PROXY_VALIDATE_IP (process env)) = false ->
  default false (bo_minimize opts) = false ->
  bo_args opts = None ->
  answer env (history (getBrowser_flags env opts l w).2) _
    (Launch (launchOptions_of env opts)) = Returned b ->
  answer env
    (Called _ (Launch (launchOptions_of env opts)) (Returned b)
     :: history (getBrowser_flags env opts l w).2) _ (Pages b)
  = Returned (p :: ps) ->
  (("--load-extension=" +:+ nopechaPath (process env))
     ∉ args (launchOptions_of env opts))
  /\ exists new out,
       history (getBrowser env opts l w).2
       = new ++ Called _ (Goto p "https://nopecha.com/setup#undefined" None) out
             :: Called _ (Pages b) (Returned (p :: ps))
             :: Called _ (Launch (launchOptions_of env opts)) (Returned b)
             :: history (getBrowser_flags env opts l w).2.
Proof.
  intros Hflag Hkey Hvalidate Hmin Hargs Hlaunch Hpages. split.
  - unfold launchOptions_of. cbn [args]. rewrite Hargs, Hkey. cbn [default].
    apply load_extension_not_in_args.
  - rewrite getBrowser_eq.
    destruct (getBrowser_flags_history env opts l w) as (pre & Heq & _).
    pose proof (getBrowser_flags_nopecha env opts l w Hflag) as Hflag0.
    unfold mbind at 1, M_bind at 1. rewrite Heq.
    set (w0 := (getBrowser_flags env opts l w).2) in *. clearbody w0.
    rewrite bind_call, Hlaunch.
    unfold getBrowser_launched. cbn zeta. rewrite Hmin, Hkey.
    unfold mbind at 1, M_bind at 1. unfold validateProxyIp.
    rewrite Hvalidate. cbn [when mret M_ret].
    cbn [snd]. rewrite bind_ret_world, initializeNopechaExtension_eq.
    unfold mbind at 1, M_bind at 1, read_world at 1.
    change (hasNopechaExtension (record_event _ w0))
      with (hasNopechaExtension w0).
    rewrite Hflag0. cbn [when default].
    unfold first_page_or_new. rewrite !bind_bind, bind_call.
    change (history (record_event ?ev w0)) with (ev :: history w0).
    rewrite Hpages. cbn beta iota. rewrite bind_ret. unfold id. cbn [when].
    rewrite bind_ret, bind_call.
    set (w2 := record_event (Called _ (Pages b) (Returned (p :: ps))) _).
    assert (Hw2 : history w2
                  = Called _ (Pages b) (Returned (p :: ps))
                    :: Called _ (Launch (launchOptions_of env opts)) (Returned b)
                    :: history w0) by done.
    clearbody w2.
    destruct (answer env (history w2) _ (Goto p _ None)) as [[]|e].
    + pose proof (fun R (op : Op R) w1 out (_ : is_setup_op R op = false) =>
                    only_record (fun _ => true) (Called R op out) w1 eq_refl)
        as Hcall.
      pose proof (fun ms w1 =>
                    only_record (fun _ => true) (Delayed ms) w1 eq_refl)
        as Hdelay.
      match goal with
      | |- context [history (?m l ?w3).2] =>
          assert (Hrest : steps (only (fun _ => true)) m)
      end.
      { unfold nopecha_popup. steps_go. }
      match goal with
      | |- context [history (?m l ?w3).2] =>
          destruct (Hrest l w3) as (new & Hnew & _)
      end.
      exists new, (Returned tt). rewrite Hnew.
      unfold record_event. cbn [history]. by rewrite Hw2.
    + exists [], (Thrown e). unfold record_event. cbn. by rewrite Hw2.
Qed.

Lemma nopecha_flag_is_sticky_witness :
  (("--load-extension=" +:+ nopechaPath (process tabbed_env))
     ∉ args (launchOptions_of tabbed_env (keyed_opts None None)))
  /\ exists new out,
       history (getBrowser tabbed_env (keyed_opts None None) tt
                  world_with_nopecha).2
       = new ++ Called _ (Goto 4%nat "https://nopecha.com/setup#undefined" None) out
             :: Called _ (Pages 1%nat) (Returned [4%nat])
             :: Called _ (Launch (launchOptions_of tabbed_env (keyed_opts None None)))
                  (Returned 1%nat)
             :: history (getBrowser_flags tabbed_env (keyed_opts None None) tt
                           world_with_nopecha).2.
Proof.
  apply (nopecha_flag_is_sticky tabbed_env (keyed_opts None None) tt
           world_with_nopecha 1%nat 4%nat []); reflexivity.
Defined.

(** ** The address handed to [--proxy-server] *)

Lemma split_parts_without_sep c s :
  Forall (fun x => includes c x = false) (split c s).
Proof.
  induction s as [|a s IH]; cbn [split]; [by repeat constructor|].
  destruct (Ascii.eqb a c) eqn:Hac; [by constructor|].
  destruct (split c s) as [|x xs]; [by repeat constructor; cbn; rewrite Hac|].
  inversion IH as [|? ? Hx Hxs]; subst.
  constructor; [|done]. cbn. by rewrite Hac.
Qed.

Lemma split_second_part c s :
  includes c s = true -> exists x, split c s !! 1%nat = Some x.
Proof.
  induction s as [|a s IH]; cbn [includes split]; [done|].
  destruct (Ascii.eqb a c).
  - intros _. destruct s as [|a' s]; cbn [split]; [by eexists|].
    destruct (Ascii.eqb a' c); [by eexists|].
    destruct (split c s); by eexists.
  - intros Hin. destruct (IH Hin) as (x & Hx).
    destruct (split c s) as [|y ys]; [done|]. by exists x.
Qed.

Lemma ipPort_has_no_at proxyServer : includes "@" (ipPort proxyServer) = false.
Proof.
  unfold ipPort.
  destruct (includes "@" proxyServer) eqn:Hat; [|done].
  destruct (split_second_part "@" proxyServer Hat) as (x & Hx).
  rewrite Hx. cbn.
  pose proof (split_parts_without_sep "@" proxyServer) as Hparts.
  rewrite Forall_lookup in Hparts. by apply (Hparts 1%nat).
Qed.

(** X20. A non-empty [proxyServer] (the option, or [PROXY_SERVER] of
    the process when the option is missing) reaches [puppeteer.launch]
    as the argument [--proxy-server=x], unless the caller's launch
    options bring their own [args].  [x] never contains an [@]: it is
    the string itself when that has no [@], and otherwise the text
    between its first [@] and its second [@] (or its end), so that the
    credentials of [user:pass@host:port] are left out when they have no
    [@] of their own. *)
Theorem proxy_server_argument env {L} opts (l : L) w s :
  or_default (bo_proxyServer opts) (PROXY_SERVER (process env)) = Some s ->
  s <> "" ->
  bo_args opts = None ->
  (exists out new pre,
      history (getBrowser env opts l w).2
      = new ++ Called _ (Launch (launchOptions_of env opts)) out
            :: pre ++ history w
      /\ "--proxy-server=" +:+ ipPort s ∈ args (launchOptions_of env opts))
  /\ includes "@" (ipPort s) = false
  /\ (includes "@" s = false -> ipPort s = s)
  /\ (forall a b rest,
         s = a +:+ "@" +:+ b +:+ rest ->
         includes "@" a = false ->
         includes "@" b = false ->
         rest = "" \/ (exists rest', rest = "@" +:+ rest') ->
         ipPort s = b).
Proof.
  intros Hs Hne Hargs. split; [|split; [apply ipPort_has_no_at|split]].
  - destruct (getBrowser_launch env opts l w) as (pre & out & new & _ & _ & Hh & _).
    exists out, new, pre. split; [done|].
    unfold launchOptions_of. cbn [args]. rewrite Hargs, Hs. cbn [default].
    unfold puppeteerArgs.
    assert (Ht : truthy (Some s) = true).
    { cbn. destruct (String.eqb_spec s ""); [done|done]. }
    rewrite Ht. cbn [template default].
    apply elem_of_app. right. apply elem_of_app. right.
    apply list_elem_of_here.
  - apply ipPort_without_at.
  - intros a b rest -> Ha Hb Hrest. by apply ipPort_between_ats.
Qed.

Lemma proxy_server_argument_witness :
  ((exists out new pre,
       history (getBrowser quiet_env
                  (proxy_opts (Some "user:secret@10.0.0.1:3128")) tt world0).2
       = new ++ Called _ (Launch (launchOptions_of quiet_env
                                    (proxy_opts (Some "user:secret@10.0.0.1:3128"))))
                  out
             :: pre ++ history world0
       /\ "--proxy-server=" +:+ ipPort "user:secret@10.0.0.1:3128"
          ∈ args (launchOptions_of quiet_env
                    (proxy_opts (Some "user:secret@10.0.0.1:3128"))))
   /\ includes "@" (ipPort "user:secret@10.0.0.1:3128") = false
   /\ ipPort "user:secret@10.0.0.1:3128" = "10.0.0.1:3128")
  /\ ipPort "10.0.0.1:3128" = "10.0.0.1:3128".
Proof.
  split.
  - destruct (proxy_server_argument quiet_env
                (proxy_opts (Some "user:secret@10.0.0.1:3128")) tt world0
                "user:secret@10.0.0.1:3128" eq_refl ltac:(discriminate) eq_refl)
      as (Hlaunch & Hat & _ & Hbetween).
    split; [exact Hlaunch|]. split; [exact Hat|].
    apply (Hbetween "user:secret" "10.0.0.1:3128" "" eq_refl eq_refl eq_refl).
    by left.
  - apply (proxy_server_argument quiet_env
             (proxy_opts (Some "10.0.0.1:3128")) tt world0
             "10.0.0.1:3128" eq_refl ltac:(discriminate) eq_refl).
    reflexivity.
Defined.

(** ** [getOpenAIAuth] on a browser or a page of the caller *)

Lemma getOpenAIAuth_supplied_browser env {L} fuel o (l : L) w b :
  ao_browser o = Some b ->
  getOpenAIAuth env fuel o l w = getOpenAIAuth_on_browser env fuel o b l w.
Proof.
  intros Hb. unfold getOpenAIAuth, getOpenAIAuth_on_browser, call_fn,
    try_finally, try_catch. rewrite Hb.
  unfold getOpenAIAuth_try, ensure_browser.
  unfold mbind at 1, M_bind at 1. unfold mbind at 1, M_bind at 1.
  unfold read at 1. cbn [browser mret M_ret]. reflexivity.
Qed.

Lemma no_browser_setup_call R (op : Op R) w out :
  is_setup_op R op = false ->
  both (only no_browser_setup) flags_kept w (record_event (Called R op out) w).
Proof.
  intros Hop. split; [|done]. apply only_record. by destruct op.
Qed.

Lemma getOpenAIAuth_on_browser_steps env {L} fuel o b :
  steps (both (only no_browser_setup) flags_kept)
    (getOpenAIAuth_on_browser env fuel o b : M L OpenAIAuth).
Proof.
  pose proof (no_browser_setup_call) as Hcall.
  assert (Hdelay : forall ms w,
             both (only no_browser_setup) flags_kept w
               (record_event (Delayed ms) w))
    by (intros; split; [by apply only_record|done]).
  assert (Hsetup : forall R (op : Op R),
             is_launch (Called R op (Thrown (Error ""))) = false ->
             steps (both (only no_browser_setup) flags_kept)
               (call env op : M AuthLocals R)).
  { intros R op Hop. apply steps_call. intros w out.
    split; [|done]. apply only_record. by destruct op. }
  assert (steps (both (only no_browser_setup) flags_kept)
            (with_browser env fuel o b))
    by (apply steps_with_browser;
        first [rel_side | exact Hcall | exact Hdelay
              | intros; by apply Hsetup]).
  assert (steps (both (only no_browser_setup) flags_kept)
            (getOpenAIAuth_finally env (Some b) (ao_page o)))
    by (apply steps_getOpenAIAuth_finally;
        first [rel_side | exact Hcall | exact Hdelay]).
  unfold getOpenAIAuth_on_browser. steps_go.
Qed.

(** X21. On a browser of the caller [getOpenAIAuth] launches nothing,
    registers no plugin and leaves the module flags as they are, and the
    options that only serve the launch ([captchaToken], [nopechaKey],
    [executablePath], [proxyServer]) have no effect at all: the run is
    the same whatever they are. *)
Theorem supplied_browser_ignores_launch_options env {L} fuel o (l : L) w b :
  ao_browser o = Some b ->
  (forall captchaToken nopechaKey executablePath proxyServer,
      getOpenAIAuth env fuel
        (with_browser_options captchaToken nopechaKey executablePath
           proxyServer o) l w
      = getOpenAIAuth env fuel o l w)
  /\ only no_browser_setup w (getOpenAIAuth env fuel o l w).2
  /\ flags_kept w (getOpenAIAuth env fuel o l w).2.
Proof.
  intros Hb. split.
  - intros t k e p.
    rewrite (getOpenAIAuth_supplied_browser env fuel o l w b Hb).
    by rewrite (getOpenAIAuth_supplied_browser env fuel
                  (with_browser_options t k e p o) l w b Hb).
  - rewrite (getOpenAIAuth_supplied_browser env fuel o l w b Hb).
    apply getOpenAIAuth_on_browser_steps.
Qed.

Lemma supplied_browser_ignores_launch_options_witness :
  getOpenAIAuth quiet_env 10
    (with_browser_options (Some "2captcha-key") (Some "nopecha-key")
       (Some "/opt/chrome") (Some "user:secret@10.0.0.1:3128")
       (with_login (auth_opts_with 7%nat None))) tt world0
  = getOpenAIAuth quiet_env 10 (with_login (auth_opts_with 7%nat None)) tt world0
  /\ flags_kept world0
       (getOpenAIAuth quiet_env 10 (with_login (auth_opts_with 7%nat None)) tt world0).2.
Proof.
  destruct (supplied_browser_ignores_launch_options quiet_env 10
              (with_login (auth_opts_with 7%nat None)) tt world0 7%nat eq_refl)
    as (Hsame & _ & Hflags).
  split; [apply Hsame|exact Hflags].
Defined.

Lemma bind_congr {L A B} (m : M L A) (k k' : A -> M L B) l w :
  (forall a l1 w1, m l w = (Val a, l1, w1) -> k a l1 w1 = k' a l1 w1) ->
  (m ≫= k) l w = (m ≫= k') l w.
Proof.
  intros H. unfold mbind, M_bind.
  destruct (m l w) as [[[a| |e|] l1] w1]; try done. by apply H.
Qed.

Lemma getOpenAIAuth_try_supplied_page env fuel o l w p :
  page l = Some p ->
  getOpenAIAuth_try env fuel o l w
  = (b ← ensure_browser env o;
     userAgent ← call env (UserAgent b);
     authenticate env fuel o p userAgent) l w.
Proof.
  intros Hp. unfold getOpenAIAuth_try, with_browser.
  apply bind_congr. intros b l1 w1 Hb.
  pose proof (ensure_browser_page env o l w) as Hpage.
  rewrite Hb, Hp in Hpage. cbn in Hpage.
  apply bind_congr. intros ua l2 w2 Hua.
  apply call_val_inv in Hua as [-> _].
  unfold mbind at 1, M_bind at 1.
  by rewrite (ensure_page_supplied env o b l1 w2 p Hpage).
Qed.

Lemma getOpenAIAuth_supplied_page env {L} fuel o (l : L) w p :
  ao_page o = Some p ->
  getOpenAIAuth env fuel o l w = getOpenAIAuth_on_page env fuel o p l w.
Proof.
  intros Hp. unfold getOpenAIAuth, getOpenAIAuth_on_page, call_fn,
    try_finally, try_catch. rewrite Hp.
  by rewrite (getOpenAIAuth_try_supplied_page env fuel o
                {| browser := ao_browser o; page := Some p |} w p eq_refl).
Qed.

Lemma only_getBrowser_flags env {L} ok opts :
  (forall token, ok (PluginUsed token) = true) ->
  steps (only ok) (getBrowser_flags env opts : M L unit).
Proof.
  intros Hok l w. unfold getBrowser_flags. unfold_m. cbn.
  destruct (truthy _ && negb _); destruct (truthy _); cbn;
    first [ by apply only_flag
          | eapply only_trans; [|apply only_record, Hok]; by apply only_flag ].
Qed.

(** X22. On a page of the caller [getOpenAIAuth] never calls
    [page.setDefaultTimeout] and never minimizes a page, whether it
    launches a browser of its own or not, and the option [minimize] has
    no effect: the run is the same whatever it is.  The [timeoutMs] of
    the call thus bounds only the waits that are given it explicitly. *)
Theorem supplied_page_is_not_set_up env {L} fuel o (l : L) w p :
  ao_page o = Some p ->
  (forall minimize,
      getOpenAIAuth env fuel (with_minimize minimize o) l w
      = getOpenAIAuth env fuel o l w)
  /\ only (fun ev => negb (is_page_setup ev)) w
       (getOpenAIAuth env fuel o l w).2.
Proof.
  intros Hp. split.
  - intros m.
    rewrite (getOpenAIAuth_supplied_page env fuel o l w p Hp).
    by rewrite (getOpenAIAuth_supplied_page env fuel (with_minimize m o)
                  l w p Hp).
  - rewrite (getOpenAIAuth_supplied_page env fuel o l w p Hp).
    revert l w.
    change (steps (only (fun ev => negb (is_page_setup ev)))
              (getOpenAIAuth_on_page env fuel o p : M L OpenAIAuth)).
    assert (Hcall : forall R (op : Op R) w out,
               is_setup_op R op = false ->
               only (fun ev => negb (is_page_setup ev)) w
                 (record_event (Called R op out) w)).
    { intros R op w out Hop. apply only_record. by destruct op. }
    assert (Hdelay : forall ms w,
               only (fun ev => negb (is_page_setup ev)) w
                 (record_event (Delayed ms) w))
      by (intros; by apply only_record).
    assert (steps (only (fun ev => negb (is_page_setup ev)))
              (getBrowser env (getBrowser_opts env o) : M AuthLocals Browser)).
    { apply steps_getBrowser;
        first [ rel_side | exact Hcall | exact Hdelay
              | by apply only_getBrowser_flags
              | (apply steps_call; intros; by apply only_record)
              | done ]. }
    assert (forall ua,
               steps (only (fun ev => negb (is_page_setup ev)))
                 (authenticate env fuel o p ua))
      by (intros ua; apply steps_authenticate;
          first [ rel_side | exact Hcall | exact Hdelay
                | intros; apply steps_call; intros; by apply only_record ]).
    assert (steps (only (fun ev => negb (is_page_setup ev)))
              (getOpenAIAuth_finally env (ao_browser o) (Some p)))
      by (apply steps_getOpenAIAuth_finally;
          first [rel_side | exact Hcall | exact Hdelay]).
    unfold getOpenAIAuth_on_page, ensure_browser. steps_go.
Qed.

Lemma supplied_page_is_not_set_up_witness :
  getOpenAIAuth quiet_env 10
    (with_minimize (Some true) (with_login (auth_opts_with 7%nat (Some 8%nat)))) tt world0
  = getOpenAIAuth quiet_env 10 (with_login (auth_opts_with 7%nat (Some 8%nat))) tt world0
  /\ only (fun ev => negb (is_page_setup ev)) world0
       (getOpenAIAuth quiet_env 10 (with_login (auth_opts_with 7%nat (Some 8%nat))) tt
          world0).2.
Proof.
  destruct (supplied_page_is_not_set_up quiet_env 10
              (with_login (auth_opts_with 7%nat (Some 8%nat))) tt world0 8%nat eq_refl)
    as (Hsame & Honly).
  split; [apply Hsame|exact Honly].
Defined.

(** ** The outcome of [getOpenAIAuth] and its [finally] *)

Lemma getOpenAIAuth_finally_cases env origBrowser origPage loc w :
  getOpenAIAuth_finally env origBrowser origPage loc w =
  match closing origBrowser origPage loc with
  | None => (Val tt, {| browser := None; page := None |}, w)
  | Some op =>
      match answer env (history w) _ op with
      | Returned _ =>
          (Val tt, {| browser := None; page := None |},
           record_event (Called _ op (Returned tt)) w)
      | Thrown e => (Exn e, loc, record_event (Called _ op (Thrown e)) w)
      end
  end.
Proof.
  unfold getOpenAIAuth_finally, closing. unfold_m. cbn.
  destruct origBrowser as [b0|].
  - destruct (page loc) as [p|]; [|done].
    destruct (bool_decide (Some p = origPage)); cbn; [done|].
    by destruct (answer env (history w) _ (PageClose p)) as [[]|e].
  - destruct (browser loc) as [b|]; [|done].
    by destruct (answer env (history w) _ (BrowserClose b)) as [[]|e].
Qed.

(** X23. The outcome of [getOpenAIAuth] is the outcome of its [try]
    block, result or error, passed on unchanged, provided the [close]
    that [finally] makes works or there is nothing to close.  When that
    [close] throws, its error replaces the outcome: a result the [try]
    block had computed is lost, and so is an error it had thrown. *)
Theorem getOpenAIAuth_close_failure_overrides env {L} fuel o (l : L) w r loc
    w1 :
  try_block env fuel o w = (r, loc, w1) ->
  r <> Diverge ->
  getOpenAIAuth env fuel o l w
  = match closing (ao_browser o) (ao_page o) loc with
    | None => (r, l, w1)
    | Some op =>
        (match answer env (history w1) _ op with
         | Returned _ => r
         | Thrown e => Exn e
         end,
         l, record_event (Called _ op (answer env (history w1) _ op)) w1)
    end.
Proof.
  intros Htry Hr.
  rewrite getOpenAIAuth_unfold, Htry, getOpenAIAuth_finally_cases.
  destruct (closing (ao_browser o) (ao_page o) loc) as [op|];
    [destruct (answer env (history w1) _ op) as [[]|e]|]; by destruct r.
Qed.

Lemma getOpenAIAuth_close_failure_overrides_witness :
  exists auth loc w1,
    try_block unclosable_env 10 (with_login auth_opts0) world0 = (Val auth, loc, w1)
    /\ clearanceToken auth = Some "clearance-1"
    /\ getOpenAIAuth unclosable_env 10 (with_login auth_opts0) tt world0
       = (Exn (DriverError "Target closed"), tt,
          record_event
            (Called _ (BrowserClose 1%nat) (Thrown (DriverError "Target closed")))
            w1).
Proof.
  destruct (try_block unclosable_env 10 (with_login auth_opts0) world0)
    as [[r loc] w1] eqn:Htry.
  assert (Hr : r = Val (authInfo "Mozilla/5.0" [clearance_cookie])
               /\ loc = {| browser := Some 1%nat; page := Some 2%nat |}).
  { assert (H : (r, loc) = (try_block unclosable_env 10 (with_login auth_opts0) world0).1)
      by (by rewrite Htry).
    vm_compute in H. injection H as -> ->. split; reflexivity. }
  destruct Hr as [-> ->].
  eexists _, _, _. split; [reflexivity|]. split; [by vm_compute|].
  rewrite (getOpenAIAuth_close_failure_overrides unclosable_env 10 (with_login auth_opts0)
             tt world0 _ _ w1 Htry ltac:(discriminate)).
  reflexivity.
Defined.

(** ** What the login types *)

Section EmitsTyping.

Variable env : Env.
Variable bad : forall R, Op R -> bool.
Hypothesis Hbad : forall R op, is_typing_op R op = false -> bad R op = false.

Lemma typing_solveSimpleCaptchas page :
  emits bad (solveSimpleCaptchas env page).
Proof. unfold solveSimpleCaptchas, click_when_present. emits_go. Qed.

Lemma typing_checkForChatGPTAtCapacity {L} fuel page opts :
  emits bad (checkForChatGPTAtCapacity env fuel page opts : M L unit).
Proof.
  pose proof typing_solveSimpleCaptchas.
  unfold checkForChatGPTAtCapacity, checkForChatGPTAtCapacity_body,
    capacity_cycle.
  emits_go.
Qed.

Lemma typing_race_step fuel page condition ms ev :
  promise_emits bad condition ->
  emits bad (race_step env fuel page condition ms ev).
Proof.
  intros Hc. pose proof (@typing_checkForChatGPTAtCapacity Race).
  unfold race_step, condition_settles, condition_then, condition_catch,
    waitForCapacityText_enter, waitForCapacityText_resume, setTimeout,
    resolve, reject.
  destruct ev; emits_go.
Qed.

Lemma typing_race_until_settled turns fuel n page condition ms :
  promise_emits bad condition ->
  emits bad (race_until_settled env turns fuel n page condition ms).
Proof.
  intros Hc.
  pose proof (fun ev => typing_race_step fuel page condition ms ev Hc).
  revert n.
  induction turns as [|turns IH]; intros n; cbn [race_until_settled]; emits_go.
Qed.

Lemma typing_waitForConditionOrAtCapacity {L} fuel page condition opt_ms :
  promise_emits bad condition ->
  emits bad (waitForConditionOrAtCapacity env fuel page condition opt_ms
             : M L unit).
Proof.
  intros Hc.
  pose proof (fun turns n ms =>
                typing_race_until_settled turns fuel n page condition ms Hc).
  unfold waitForConditionOrAtCapacity, race_executor, setTimeout. emits_go.
Qed.

Lemma typing_first_page_or_new {L} b :
  emits bad (first_page_or_new env b : M L Page).
Proof. unfold first_page_or_new. emits_go. Qed.

Lemma typing_waitForRecaptcha {L} fuel page opt_ms timeoutMs :
  emits bad (waitForRecaptcha env fuel page opt_ms timeoutMs : M L unit).
Proof.
  pose proof typing_solveSimpleCaptchas.
  unfold waitForRecaptcha. emits_go.
Qed.

Lemma typing_getBrowser {L} opts :
  (forall e,
      bad _ (ElemType e (template (or_default (bo_nopechaKey opts)
                                     (NOPECHA_KEY (process env))))) = false) ->
  emits bad (getBrowser env opts : M L Browser).
Proof.
  intros Hkey.
  pose proof (@typing_first_page_or_new L).
  assert (forall e,
             emits bad (call env (ElemType e (template
                          (or_default (bo_nopechaKey opts)
                             (NOPECHA_KEY (process env))))) : M L unit))
    by (intros; by apply emits_call).
  unfold getBrowser, validateProxyIp, initializeNopechaExtension. emits_go.
Qed.

Lemma typing_login {L} fuel page email password isGoogleLogin isMicrosoftLogin
    timeoutMs :
  (forall p selector text d,
      credential_field email password selector text = true ->
      bad _ (TypeText p selector text d) = false) ->
  emits bad (login env fuel page email password isGoogleLogin isMicrosoftLogin
               timeoutMs : M L unit).
Proof.
  intros Htype.
  assert (Hemail : forall selector d,
             String.eqb selector "input[type=email]"
             || String.eqb selector "#username" = true ->
             emits bad (call env (TypeText page selector email d) : M L unit)).
  { intros selector d Hsel. apply emits_call, Htype. unfold credential_field.
    by rewrite String.eqb_refl, Hsel. }
  assert (Hpassword : forall selector d,
             String.eqb selector "input[type=password]"
             || String.eqb selector "#password" = true ->
             emits bad (call env (TypeText page selector password d)
                        : M L unit)).
  { intros selector d Hsel. apply emits_call, Htype. unfold credential_field.
    by rewrite String.eqb_refl, Hsel, orb_true_r. }
  clear Htype.
  pose proof (@typing_checkForChatGPTAtCapacity L).
  pose proof (@typing_waitForConditionOrAtCapacity L).
  pose proof (@typing_waitForRecaptcha L).
  unfold login, login_google, login_microsoft, login_openai,
    press_enter_and_navigate, not_awaited, submit_op.
  emits_go; reflexivity.
Qed.

Lemma typing_getOpenAIAuth {L} fuel o :
  (forall p selector text d,
      credential_field (template (ao_email o)) (template (ao_password o))
        selector text = true ->
      bad _ (TypeText p selector text d) = false) ->
  (forall e,
      bad _ (ElemType e (template (or_default (ao_nopechaKey o)
                                     (NOPECHA_KEY (process env))))) = false) ->
  emits bad (getOpenAIAuth env fuel o : M L OpenAIAuth).
Proof.
  intros Htype Hkey.
  pose proof (@typing_first_page_or_new AuthLocals).
  assert (emits bad (getBrowser env (getBrowser_opts env o)
                     : M AuthLocals Browser)).
  { apply typing_getBrowser. intros e. cbn [getBrowser_opts bo_nopechaKey].
    replace (or_default (or_default (ao_nopechaKey o) (NOPECHA_KEY (process env)))
               (NOPECHA_KEY (process env)))
      with (or_default (ao_nopechaKey o) (NOPECHA_KEY (process env)))
      by (by destruct (ao_nopechaKey o), (NOPECHA_KEY (process env))).
    apply Hkey. }
  pose proof (@typing_checkForChatGPTAtCapacity AuthLocals).
  pose proof (fun fuel page g m t =>
                @typing_login AuthLocals fuel page _ _ g m t Htype).
  unfold getOpenAIAuth, getOpenAIAuth_try, getOpenAIAuth_finally,
    with_browser, ensure_browser, ensure_page, authenticate.
  emits_go. intros l' w'. by exists [].
Qed.

End EmitsTyping.

(** X24. Every text typed in a call of [getOpenAIAuth] is the email or
    the password, typed with [page.type] into a field meant for it (the
    email into the provider's email field or [#username], the password
    into the provider's password field or [#password]), or the NopeCHA
    key, which the set-up of the extension types through an element
    handle when the call launches the browser itself. *)
Theorem typed_texts_are_credentials_or_key env {L} fuel o (l : L) w :
  exists new,
    history (getOpenAIAuth env fuel o l w).2 = new ++ history w
    /\ Forall
         (fun ev =>
            avoids (types_other (template (ao_email o))
                      (template (ao_password o))
                      (template (or_default (ao_nopechaKey o)
                                   (NOPECHA_KEY (process env))))) ev = true)
         new.
Proof.
  apply typing_getOpenAIAuth.
  - intros R op. by destruct op.
  - intros p selector text d Hfield. cbn. by rewrite Hfield.
  - intros e. cbn. by rewrite String.eqb_refl.
Qed.

(** ** How many browsers a call launches, and how much it closes *)

Lemma launches_only w w' :
  only (fun ev => negb (is_launch ev)) w w' ->
  launches (history w') = launches (history w).
Proof.
  intros (new & -> & Hnew). by rewrite launches_app, (launches_none _ Hnew).
Qed.

Lemma only_weaken (ok ok' : Event -> bool) w w' :
  (forall ev, ok ev = true -> ok' ev = true) -> only ok w w' -> only ok' w w'.
Proof.
  intros Hok (new & Hh & Hnew). exists new. split; [done|].
  eapply Forall_impl; [exact Hnew|]. exact Hok.
Qed.

Lemma with_browser_launches_nothing env fuel o b :
  steps (only (fun ev => negb (is_launch ev))) (with_browser env fuel o b).
Proof.
  apply steps_with_browser; try rel_side.
  - intros R op w out Hop. apply only_record. by destruct op.
  - intros ms w. by apply only_record.
  - intros p. apply steps_call. intros. by apply only_record.
  - intros _ p. apply steps_call. intros. by apply only_record.
  - intros p selector text d _. apply steps_call. intros. by apply only_record.
Qed.

Lemma finally_launches_nothing env origBrowser origPage :
  steps (only (fun ev => negb (is_launch ev)))
    (getOpenAIAuth_finally env origBrowser origPage).
Proof.
  apply steps_getOpenAIAuth_finally; try rel_side.
  intros R op w out Hop. apply only_record. by destruct op.
Qed.

(** X25. A call of [getOpenAIAuth] launches exactly one browser when the
    caller gives none, also when the call fails, and none when the
    caller gives one. *)
Theorem getOpenAIAuth_launches_at_most_once env {L} fuel o (l : L) w :
  launches (history (getOpenAIAuth env fuel o l w).2)
  = (match ao_browser o with Some _ => 0 | None => 1 end
     + launches (history w))%nat.
Proof.
  destruct (ao_browser o) as [b|] eqn:Hb.
  - rewrite (getOpenAIAuth_supplied_browser env fuel o l w b Hb).
    apply launches_only.
    destruct (getOpenAIAuth_on_browser_steps env fuel o b l w) as [Honly _].
    eapply only_weaken; [|exact Honly].
    intros ev Hev. unfold no_browser_setup in Hev.
    by apply andb_true_iff in Hev as [? _].
  - rewrite getOpenAIAuth_unfold. unfold try_block, try_catch. rewrite Hb.
    set (l0 := {| browser := None; page := ao_page o |}).
    rewrite (getOpenAIAuth_try_launching env fuel o l0 w eq_refl).
    pose proof (getBrowser_launch_count env (getBrowser_opts env o) l0 w)
      as Hcount.
    destruct (getBrowser env (getBrowser_opts env o) l0 w) as [[r1 l1] w1].
    cbn [snd] in Hcount.
    assert (Hfin : forall (r : Res OpenAIAuth) loc w2,
               launches (history w2) = S (launches (history w)) ->
               launches
                 (history
                    (match
                       getOpenAIAuth_finally env None (ao_page o) loc w2
                     with
                     | (Val _, _, w3) => (r, l, w3)
                     | (Brk, _, w3) => (Brk, l, w3)
                     | (Exn e, _, w3) => (Exn e, l, w3)
                     | (Diverge, _, w3) => (Diverge, l, w3)
                     end).2)
               = S (launches (history w))).
    { intros r loc w2 Hw2.
      pose proof (finally_launches_nothing env None (ao_page o) loc w2) as Hf.
      apply launches_only in Hf.
      destruct (getOpenAIAuth_finally env None (ao_page o) loc w2)
        as [[[[]| | |] l3] w3]; cbn in *; congruence. }
    destruct r1 as [b| |e|]; cbn [Nat.add]; try (by apply Hfin).
    + pose proof (with_browser_launches_nothing env fuel o b
                    (set_browser (Some b) l1) w1) as Hw.
      apply launches_only in Hw.
      destruct (with_browser env fuel o b (set_browser (Some b) l1) w1)
        as [[r2 l2] w2]. cbn [snd] in Hw.
      destruct r2 as [a| |e|]; cbn [throw]; try (apply Hfin; congruence).
      cbn. congruence.
    + done.
Qed.





(** ** The guarded wait inside a run *)





